(** * PII detection and redaction: a shallow embedding of the engine

    The development follows the layout of the repository:

    - [Js]: the fragment of the JavaScript runtime the code relies on
      (UTF-16 strings, exceptions, stable [Array.prototype.sort]);
    - [Regex]: the regular-expression fragment used by [RegExp.test];
    - [OcrProcessor]: [utils/ocrProcessor.ts], the client-side pattern
      registry, its validators and [detectEnhancedPII];
    - [Ner]: [utils/ner.ts], the adapter around the person recognizer;
    - [Dashboard]: [handleTextSubmit] of [components/Dashboard.tsx];
    - [ProcessPii]: the [process-pii] edge function ([detectPII],
      [applyRedaction] and the request handler);
    - [Spec]: the notions the specification is phrased in (canonical
      lists, entity-free regions, the Luhn sum, name structure);
    - [Samples]: concrete collaborators for running the pipelines.

    The host's regular-expression engine, the recognizer model and the
    random source are collaborators of the code and appear as section
    variables.  Definitions come first; the properties of the
    specification are stated and proved in the second half of the file. *)

From Stdlib Require Import ZArith QArith Lia Bool Ascii String.
From Stdlib Require Import DecimalString HexadecimalString.
From Stdlib Require Import Sorted Permutation.
From stdpp Require Import base option list gmap strings sorting.

Local Open Scope nat_scope.

(* ================================================================== *)
(** ** The JavaScript fragment *)
(* ================================================================== *)

Module Js.

(** A JavaScript string is a sequence of UTF-16 code units;
    [s.length] is [length s] and [s.charCodeAt(i)] is [s !! i]. *)
Abbreviation jsstring := (list Z).

(** ASCII literals of the source. *)
Definition lit (s : string) : jsstring :=
  (λ a, Z.of_N (N_of_ascii a)) <$> list_ascii_of_string s.

(** Exceptions (and promise rejections) the modelled code can raise. *)
Inductive JsError : Type :=
| RangeError (msg : string)
| TypeError (msg : string)
| Rejected (msg : string).

Inductive result (A : Type) : Type :=
| Ok (a : A)
| Err (e : JsError).
Global Arguments Ok {A} a.
Global Arguments Err {A} e.

Global Instance result_ret : MRet result := λ A a, Ok a.
Global Instance result_bind : MBind result := λ A B f m,
  match m with Ok a => f a | Err e => Err e end.
Global Instance result_fmap : FMap result := λ A B f m,
  match m with Ok a => Ok (f a) | Err e => Err e end.

Definition isOk {A} (r : result A) : bool :=
  match r with Ok _ => true | Err _ => false end.

(** A [for ... of] loop whose body may throw. *)
Fixpoint foldM {A S : Type} (body : S → A → result S) (l : list A) (s : S)
  : result S :=
  match l with
  | [] => Ok s
  | x :: l' => s' ← body s x; foldM body l' s'
  end.

(** [xs.map(f)] where [f] may throw. *)
Fixpoint mapM {A B : Type} (f : A → result B) (l : list A) : result (list B) :=
  match l with
  | [] => Ok []
  | x :: l' => y ← f x; ys ← mapM f l'; Ok (y :: ys)
  end.

(** *** String primitives *)

(** [s.slice(a)] / [s.substring(a)] for a non-negative [a]. *)
Definition sliceFrom (a : nat) (s : jsstring) : jsstring := drop a s.

(** [s.slice(0, b)] / [s.substring(0, b)]. *)
Definition sliceTo (b : nat) (s : jsstring) : jsstring := take b s.

(** [s.substring(a, b)]: the arguments are clamped to the string and
    swapped when [a > b]. *)
Definition substring (a b : nat) (s : jsstring) : jsstring :=
  let lo := Nat.min a b in
  let hi := Nat.max a b in
  take (hi - lo) (drop lo s).

(** [s.slice(-k)]: the last [k] code units (all of [s] when shorter). *)
Definition sliceLast (k : nat) (s : jsstring) : jsstring :=
  drop (length s - k) s.

(** [s.repeat(n)]; a negative count is a [RangeError]. *)
Definition jsRepeat (s : jsstring) (n : Z) : result jsstring :=
  if (n <? 0)%Z then Err (RangeError "Invalid count value")
  else Ok (mjoin (replicate (Z.to_nat n) s)).

(** [s.padStart(n, c)] for a one-unit pad string. *)
Definition padStart (n : nat) (c : Z) (s : jsstring) : jsstring :=
  replicate (n - length s) c ++ s.

(** [s[i]] used inside a concatenation: an index out of range yields
    [undefined], which concatenates as the text "undefined". *)
Definition charAtOrUndefined (s : jsstring) (i : nat) : jsstring :=
  match s !! i with
  | Some c => [c]
  | None => lit "undefined"
  end.

(** A possibly-[undefined] string inside a template literal. *)
Definition orUndefined (o : option jsstring) : jsstring :=
  default (lit "undefined") o.

(** [s.includes(c)] for a one-unit needle. *)
Definition includesChar (c : Z) (s : jsstring) : bool :=
  existsb (Z.eqb c) s.

(** [s.split(c)] for a one-unit separator: never empty, [""] splits
    to [[""]]. *)
Fixpoint splitOn (c : Z) (s : jsstring) : list jsstring :=
  match s with
  | [] => [[]]
  | x :: s' =>
      match splitOn c s' with
      | cur :: rest => if (x =? c)%Z then [] :: cur :: rest else (x :: cur) :: rest
      | [] => [[x]]
      end
  end.

(** [parts.join(c)]. *)
Fixpoint join (c : jsstring) (parts : list jsstring) : jsstring :=
  match parts with
  | [] => []
  | [p] => p
  | p :: rest => p ++ c ++ join c rest
  end.

(** Character classes of the regular expressions ([\d], [\w], [\s] are
    the non-Unicode classes: the source never sets the [u] flag). *)
Definition isDigit (c : Z) : bool := ((48 <=? c) && (c <=? 57))%Z.
Definition isUpper (c : Z) : bool := ((65 <=? c) && (c <=? 90))%Z.
Definition isLower (c : Z) : bool := ((97 <=? c) && (c <=? 122))%Z.
Definition isWord (c : Z) : bool :=
  isDigit c || isUpper c || isLower c || (c =? 95)%Z.
Definition isSpace (c : Z) : bool :=
  (((9 <=? c) && (c <=? 13)) || (c =? 32) || (c =? 160) || (c =? 5760)
   || ((8192 <=? c) && (c <=? 8202)) || (c =? 8232) || (c =? 8233)
   || (c =? 8239) || (c =? 8287) || (c =? 12288) || (c =? 65279))%Z.

(** [toUpperCase] / [toLowerCase] restricted to the ASCII letters: exact
    on strings of ASCII units.  The code applies them to registry keys,
    hexadecimal digits, name parts that already matched [[A-Z][a-z]+]
    and model labels; statements about which labels are recognised are
    made for ASCII labels only (the host also maps U+017F to S). *)
Definition upperUnit (c : Z) : Z := if isLower c then (c - 32)%Z else c.
Definition lowerUnit (c : Z) : Z := if isUpper c then (c + 32)%Z else c.
Definition toUpperCase (s : jsstring) : jsstring := upperUnit <$> s.
Definition toLowerCase (s : jsstring) : jsstring := lowerUnit <$> s.

(** [s.trim()]: white space and line terminators are removed at both
    ends (the same set as [\s]). *)
Fixpoint trimStart (s : jsstring) : jsstring :=
  match s with
  | c :: s' => if isSpace c then trimStart s' else s
  | [] => []
  end.
Definition trim (s : jsstring) : jsstring :=
  reverse (trimStart (reverse (trimStart s))).

(** [s.split(/\s+/)]: the separators are the maximal runs of white
    space.  [inRun] records that the previous unit was white space. *)
Fixpoint splitSpacesFrom (inRun : bool) (cur : jsstring) (s : jsstring)
  : list jsstring :=
  match s with
  | [] => [reverse cur]
  | c :: s' =>
      if isSpace c then
        if inRun then splitSpacesFrom true cur s'
        else reverse cur :: splitSpacesFrom true [] s'
      else splitSpacesFrom false (c :: cur) s'
  end.
Definition splitSpaces (s : jsstring) : list jsstring :=
  splitSpacesFrom false [] s.

(** [n.toString()] and [n.toString(16)] for a non-negative integer. *)
Definition toStringDec (n : nat) : jsstring :=
  lit (DecimalString.NilZero.string_of_uint (Nat.to_uint n)).
Definition toStringHex (n : Z) : jsstring :=
  lit (HexadecimalString.NilZero.string_of_uint (N.to_hex_uint (Z.to_N n))).

(** 32-bit integer conversion ([ToInt32]) and the bitwise operators
    built on it. *)
Definition toInt32 (z : Z) : Z :=
  ((z + 2 ^ 31) mod 2 ^ 32 - 2 ^ 31)%Z.
Definition shl32 (a : Z) (k : Z) : Z :=
  toInt32 (Z.shiftl (toInt32 a) k).
Definition and32 (a b : Z) : Z :=
  toInt32 (Z.land (toInt32 a) (toInt32 b)).

(** *** Stable sort

    [Array.prototype.sort] with a consistent comparator is a stable
    sort.  [cmp a b] is the comparator's result; an element is placed
    before the first element it compares strictly smaller than. *)
Section Sort.
Context {A : Type} (cmp : A → A → Z).

Fixpoint insertSorted (x : A) (l : list A) : list A :=
    match l with
    | [] => [x]
    | y :: l' =>
        if (cmp y x <=? 0)%Z then y :: insertSorted x l'
        else x :: y :: l'
    end.

Definition sortBy (l : list A) : list A :=
    fold_left (λ acc x, insertSorted x acc) l [].
End Sort.

End Js.

Import Js.

(* ================================================================== *)
(** ** Regular expressions under [RegExp.prototype.test] *)
(* ================================================================== *)

Module Regex.

(** The fragment of the pattern language used by the name filter.  A
    pattern without the [g] flag is stateless, and [test] only asks
    whether some match exists, so a pattern denotes, for every start
    position, the set of positions at which a match can end. *)
Inductive re : Type :=
| Eps
| Chr (p : Z → bool)
| Cat (r1 r2 : re)
| Alt (r1 r2 : re)
| Star (r : re)
| Bol
| Eol
| Wb.

(** Positions reachable by iterating [step]: at most [length s] rounds
    make progress, so [S (length s)] rounds of fuel reach all of them. *)
Fixpoint reach (step : nat → list nat) (fuel : nat) (front : list nat)
  : list nat :=
  match fuel with
  | 0 => front
  | S k => front ++ reach step k (remove_dups (front ≫= step))
  end.

(** [n] rounds of [step] lead from [i] to [j]. *)
Fixpoint iterates (step : nat → list nat) (n : nat) (i j : nat) : Prop :=
  match n with
  | 0 => i = j
  | S n' => ∃ k, k ∈ step i ∧ iterates step n' k j
  end.

Definition wordAt (s : jsstring) (i : nat) : bool :=
  match s !! i with Some c => isWord c | None => false end.

Definition boundaryAt (s : jsstring) (i : nat) : bool :=
  xorb (match i with 0 => false | S j => wordAt s j end) (wordAt s i).

Fixpoint ends (r : re) (s : jsstring) (i : nat) : list nat :=
  match r with
  | Eps => [i]
  | Chr p =>
      match s !! i with
      | Some c => if p c then [S i] else []
      | None => []
      end
  | Cat r1 r2 => ends r1 s i ≫= ends r2 s
  | Alt r1 r2 => ends r1 s i ++ ends r2 s i
  | Star r1 => reach (ends r1 s) (S (length s)) [i]
  | Bol => if i =? 0 then [i] else []
  | Eol => if i =? length s then [i] else []
  | Wb => if boundaryAt s i then [i] else []
  end.

(** [pattern.test(s)]: a match starting anywhere. *)
Definition test (r : re) (s : jsstring) : bool :=
  existsb (λ i, negb (bool_decide (ends r s i = []))) (seq 0 (S (length s))).

(** *** Notation for writing the source's patterns *)

Definition opt (r : re) : re := Alt r Eps.
Definition plus (r : re) : re := Cat r (Star r).
Fixpoint cat (rs : list re) : re :=
  match rs with
  | [] => Eps
  | [r] => r
  | r :: rs' => Cat r (cat rs')
  end.
Fixpoint alt (rs : list re) : re :=
  match rs with
  | [] => Chr (λ _, false)
  | [r] => r
  | r :: rs' => Alt r (alt rs')
  end.

(** One literal code unit; under the [i] flag two units match when
    their upper-case forms agree (for ASCII pattern text this is ASCII
    case folding: a non-ASCII unit never folds to an ASCII one). *)
Definition unit (c : Z) : re := Chr (Z.eqb c).
Definition unitI (c : Z) : re := Chr (λ x, (upperUnit x =? upperUnit c)%Z).
Definition str (s : string) : re := cat (unit <$> lit s).
Definition strI (s : string) : re := cat (unitI <$> lit s).
Definition words (ws : list string) : re := alt (str <$> ws).
Definition wordsI (ws : list string) : re := alt (strI <$> ws).
Definition space : re := Chr isSpace.

End Regex.

(* ================================================================== *)
(** ** Entities ([types/pii.ts]) *)
(* ================================================================== *)

Inductive Category : Type := high | medium | low.

Global Instance Category_eq_dec : EqDecision Category.
Proof. solve_decision. Defined.

(** The entity record shared by both pipelines.  Offsets are UTF-16
    positions in the original text; a confidence is a double, modelled
    by the rational it denotes (the code only compares confidences).
    The fields [id] (client) and [context] (server) are written once and
    never read by detection, merging or redaction; they are left out. *)
Record PIIEntity : Type := mkEntity {
  ent_type : string;
  ent_text : jsstring;
  ent_start : nat;
  ent_end : nat;
  ent_confidence : Q;
  ent_category : Category
}.

(** [a >= b] and [a > b] on confidences. *)
Definition confGe (a b : Q) : bool := Qle_bool b a.
Definition confGt (a b : Q) : bool := negb (Qle_bool a b).

(** [confidence >= 0.9 ? 'high' : confidence >= 0.8 ? 'medium' : 'low'] *)
Definition categoryOf (confidence : Q) : Category :=
  if confGe confidence 0.9 then high
  else if confGe confidence 0.8 then medium
  else low.

(* ================================================================== *)
(** ** [utils/ocrProcessor.ts]: validators and pattern detection *)
(* ================================================================== *)

Module OcrProcessor.
Import Regex.

(** *** [isValidCreditCard] *)

(** One iteration of the loop, from the last digit to the first: the
    state is [(sum, isEven)]. *)
Definition luhnStep (st : Z * bool) (c : Z) : Z * bool :=
  let '(sum, isEven) := st in
  let digit := (c - 48)%Z in
  let digit :=
    if isEven then
      let digit := (digit * 2)%Z in
      if (digit >? 9)%Z then (digit - 9)%Z else digit
    else digit in
  ((sum + digit)%Z, negb isEven).

Definition isValidCreditCard (number : jsstring) : bool :=
  let cleaned := filter (λ c, isDigit c = true) number in
  if (length cleaned <? 13) || (19 <? length cleaned) then false
  else
    let '(sum, _) := fold_left luhnStep (reverse cleaned) (0%Z, false) in
    (sum mod 10 =? 0)%Z.

(** *** [isValidSSN] *)

Definition isValidSSN (ssn : jsstring) : bool :=
  let cleaned := filter (λ c, isDigit c = true) ssn in
  if negb (length cleaned =? 9) then false
  else
    let area := substring 0 3 cleaned in
    let group := substring 3 5 cleaned in
    let serial := substring 5 9 cleaned in
    if bool_decide (area = lit "000") || bool_decide (area = lit "666")
       || bool_decide (take 1 area = lit "9") then false
    else if bool_decide (group = lit "00") || bool_decide (serial = lit "0000")
    then false
    else true.

(** *** [isValidPersonName] *)

(** [/\b(document|record|notes?|...)\b/i] and the four patterns after it. *)
Definition documentRejectionPatterns : list re :=
  [ cat [Wb;
         alt [strI "document"; strI "record"; Cat (strI "note") (opt (strI "s"));
              strI "form"; strI "report"; strI "file"; strI "header";
              strI "title"; strI "section"; strI "chapter"; strI "policy";
              strI "manual"; strI "guide"; strI "instruction"];
         Wb];
    cat [Wb;
         alt [cat [strI "library"; plus space; strI "card"];
              cat [strI "book"; plus space; strI "title"];
              cat [strI "return"; plus space; strI "date"];
              cat [strI "due"; plus space; strI "date"];
              cat [strI "document"; plus space; strI "type"];
              cat [strI "form"; plus space; strI "name"]];
         Wb];
    cat [str ":"; Eol];
    cat [Bol; Star space; str "-"; Star space];
    cat [Wb;
         wordsI ["type"; "category"; "classification"; "status"; "level";
                 "grade"; "rank"; "position"];
         Star space; str ":"; Star space; Eol] ].

Definition roleRejectionPatterns : list re :=
  [ cat [Wb;
         wordsI ["employee"; "staff"; "worker"; "manager"; "director";
                 "supervisor"; "coordinator"; "administrator"; "assistant";
                 "specialist"; "analyst"; "engineer"; "developer"; "designer";
                 "consultant"; "advisor"; "representative"; "associate";
                 "intern"; "volunteer"; "participant"; "applicant";
                 "candidate"; "recipient"; "beneficiary"];
         Wb];
    cat [Wb; wordsI ["id"; "number"; "code"; "ref"; "reference"]; Wb] ].

Definition strongAcceptancePatterns : list re :=
  [ cat [Wb;
         alt [Cat (strI "dr") (opt (str ".")); Cat (strI "mr") (opt (str "."));
              Cat (strI "mrs") (opt (str ".")); Cat (strI "ms") (opt (str "."));
              strI "miss"; Cat (strI "prof") (opt (str ".")); strI "doctor"];
         Star space; Eol];
    cat [Wb;
         wordsI ["patient"; "client"; "customer"; "visitor"; "guest";
                 "resident"; "student"; "member"];
         plus space;
         opt (cat [strI "name"; Star space;
                   opt (Chr (λ c, bool_decide (c ∈ lit ":."))); Star space]);
         Eol];
    cat [Wb;
         alt [cat [strI "signed"; plus space; strI "by"];
              cat [strI "written"; plus space; strI "by"];
              cat [strI "created"; plus space; strI "by"];
              cat [strI "prepared"; plus space; strI "by"];
              cat [strI "reviewed"; plus space; strI "by"];
              cat [strI "approved"; plus space; strI "by"]];
         Star space; Eol];
    cat [Wb;
         wordsI ["dear"; "hello"; "hi"; "sincerely"; "regards"; "from"; "to";
                 "cc"; "bcc"];
         Star space; Eol];
    cat [Wb;
         wordsI ["contact"; "author"; "creator"; "owner"; "holder"];
         Star space; opt (Chr (λ c, bool_decide (c ∈ lit ":."))); Star space;
         Eol] ].

(** [/^(?:Dr\.?|Mr\.?|Mrs\.?|Ms\.?|Miss|Prof\.?)\s+/i] *)
Definition titlePrefixPattern : re :=
  cat [Bol;
       alt [Cat (strI "Dr") (opt (str ".")); Cat (strI "Mr") (opt (str "."));
            Cat (strI "Mrs") (opt (str ".")); Cat (strI "Ms") (opt (str "."));
            strI "Miss"; Cat (strI "Prof") (opt (str "."))];
       plus space].

(** [/^[A-Z][a-z]+$/] *)
Definition titleCasePattern : re :=
  cat [Bol; Chr isUpper; plus (Chr isLower); Eol].

Definition commonFirstNames : list string :=
  [ "emily"; "sarah"; "michael"; "john"; "jane"; "david"; "lisa"; "robert";
    "mary"; "james"; "rajesh"; "priya"; "kumar"; "chen"; "wang"; "singh";
    "patel"; "johnson"; "smith"; "brown"; "garcia"; "miller"; "davis";
    "rodriguez"; "martinez"; "hernandez"; "lopez"; "gonzalez"; "wilson";
    "anderson"; "thomas"; "taylor"; "moore"; "jackson"; "martin"; "lee";
    "perez"; "thompson"; "white"; "harris"; "sanchez"; "clark"; "ramirez";
    "lewis"; "robinson"; "walker"; "young"; "allen"; "king"; "wright";
    "scott"; "torres"; "nguyen"; "hill"; "flores"; "green" ].

(** The context window and the two sides of the candidate. *)
Definition contextStart (position : nat) : nat := Nat.max 0 (position - 150).
Definition contextEnd (name fullText : jsstring) (position : nat) : nat :=
  Nat.min (length fullText) (position + length name + 150).
Definition beforeText (fullText : jsstring) (position : nat) : jsstring :=
  substring (contextStart position) position fullText.
Definition afterText (name fullText : jsstring) (position : nat) : jsstring :=
  substring (position + length name) (contextEnd name fullText position) fullText.

(** The loops over the pattern lists, each returning from the function
    at the first pattern that matches. *)
Definition documentRejected (name fullText : jsstring) (position : nat) : bool :=
  existsb (λ pattern, test pattern (beforeText fullText position)
                      || test pattern (afterText name fullText position))
          documentRejectionPatterns.
Definition roleRejected (name fullText : jsstring) (position : nat) : bool :=
  existsb (λ pattern, test pattern (substring 0 50 (afterText name fullText position)))
          roleRejectionPatterns.
Definition stronglyAccepted (fullText : jsstring) (position : nat) : bool :=
  existsb (λ pattern, test pattern (beforeText fullText position))
          strongAcceptancePatterns.

(** [part.length >= 2 && /^[A-Z][a-z]+$/.test(part) && part.length <= 15] *)
Definition validNamePart (part : jsstring) : bool :=
  (2 <=? length part) && test titleCasePattern part && (length part <=? 15).

Definition isValidPersonName (name fullText : jsstring) (position : nat) : bool :=
  if documentRejected name fullText position then false
  else if roleRejected name fullText position then false
  else if stronglyAccepted fullText position then true
  else if test titlePrefixPattern name then true
  else
    let nameParts := splitSpaces (trim name) in
    if (length nameParts <? 2) || (3 <? length nameParts) then false
    else
      let isValidNameStructure := forallb validNamePart nameParts in
      if negb isValidNameStructure then false
      else
        let firstName := toLowerCase (default [] (head nameParts)) in
        if bool_decide (firstName ∈ lit <$> commonFirstNames) then true
        else true.

(** *** [enhancedPIIPatterns] and [detectEnhancedPII] *)

(** The registry in declaration order: key and base confidence.  The
    pattern of each key is evaluated by the host's regular-expression
    engine, see [execAll] below. *)
Definition enhancedPIIPatterns : list (string * Q) :=
  [ ("email", 0.98%Q); ("phone", 0.95%Q); ("ssn", 0.99%Q);
    ("creditCard", 0.97%Q); ("passport", 0.85%Q); ("driversLicense", 0.80%Q);
    ("bankAccount", 0.75%Q); ("name", 0.95%Q); ("libraryCardId", 0.95%Q);
    ("employeeId", 0.95%Q); ("username", 0.88%Q); ("address", 0.85%Q);
    ("location", 0.90%Q); ("dateOfBirth", 0.90%Q) ].

(** [type.toUpperCase()] on a registry key. *)
Definition upperAscii (a : ascii) : ascii :=
  let n := N_of_ascii a in
  if ((97 <=? n) && (n <=? 122))%N then ascii_of_N (n - 32) else a.
Definition upperKey (s : string) : string :=
  string_of_list_ascii (upperAscii <$> list_ascii_of_string s).

Section Detect.
(** [execAll type text]: the successive results of [regex.exec(text)]
    for the pattern registered under [type], as pairs of [match.index]
    and [match[0]]. *)
Variable execAll : string → jsstring → list (nat * jsstring).

(** The body of the [while] loop for one match: [None] is [continue]. *)
Definition entityOfMatch (text : jsstring) (type : string) (confidence : Q)
    (m : nat * jsstring) : option PIIEntity :=
  let '(index, m0) := m in
  if (type =? "creditCard")%string && negb (isValidCreditCard m0) then None
  else if (type =? "ssn")%string && negb (isValidSSN m0) then None
  else if (type =? "name")%string && negb (isValidPersonName m0 text index) then None
  else Some {| ent_type := upperKey type;
               ent_text := m0;
               ent_start := index;
               ent_end := index + length m0;
               ent_confidence := confidence;
               ent_category := categoryOf confidence |}.

Definition detectEnhancedPII (text : jsstring) : list PIIEntity :=
  '(type, confidence) ← enhancedPIIPatterns;
  omap (entityOfMatch text type confidence) (execAll type text).

End Detect.

End OcrProcessor.

(* ================================================================== *)
(** ** [utils/ner.ts]: the person recognizer adapter *)
(* ================================================================== *)

Module Ner.

(** One aggregated entry of the model output.  [ner_group] is the
    label the code reads ([entity_group || label || entity || ""]) and
    [ner_score] is [None] when [Number(ent.score)] is [NaN]. *)
Record NerOutput : Type := mkNerOutput {
  ner_group : jsstring;
  ner_score : option Q;
  ner_word : jsstring;
  ner_start : nat;
  ner_end : nat
}.

Record PersonEntity : Type := mkPerson {
  person_text : jsstring;
  person_start : nat;
  person_end : nat;
  person_confidence : Q
}.

(** [Math.max(0, Math.min(1, Number(ent.score) || 0))] *)
Definition clampScore (score : option Q) : Q :=
  let x := default 0%Q score in
  let x := if Qle_bool 1 x then 1%Q else x in
  if Qle_bool x 0 then 0%Q else x.

(** The [filter] with the [seen] set of span keys.  The key
    [`${p.start}-${p.end}`] determines, and is determined by, the pair
    of offsets. *)
Fixpoint dedupeBySpan (seen : gset (nat * nat)) (persons : list PersonEntity)
  : list PersonEntity :=
  match persons with
  | [] => []
  | p :: rest =>
      let key := (person_start p, person_end p) in
      if bool_decide (key ∈ seen) then dedupeBySpan seen rest
      else p :: dedupeBySpan ({[key]} ∪ seen) rest
  end.

Section Recognizer.
(** The token-classification pipeline is an external collaborator:
    [loadPipeline] either fails (the model cannot be fetched or
    initialised) or yields the model, whose call may itself fail. *)
Variable loadPipeline : result (jsstring → result (list NerOutput)).

Definition getPersonEntities (text : jsstring) : result (list PersonEntity) :=
  if bool_decide (text = []) || bool_decide (trim text = []) then Ok []
  else
    ner ← loadPipeline;
    output ← ner text;
    let persons :=
      omap (λ ent,
              let group := toUpperCase (ner_group ent) in
              if bool_decide (group = lit "PER") || bool_decide (group = lit "PERSON")
              then Some {| person_text := ner_word ent;
                           person_start := ner_start ent;
                           person_end := ner_end ent;
                           person_confidence := clampScore (ner_score ent) |}
              else None) output in
    Ok (dedupeBySpan ∅ persons).

End Recognizer.

End Ner.

(* ================================================================== *)
(** ** [components/Dashboard.tsx]: [handleTextSubmit] *)
(* ================================================================== *)

Module Dashboard.
Import OcrProcessor Ner.

(** What the handler leaves behind: the two toasts that abort
    processing, or the result stored with [setProcessingResult]. *)
Record ProcessingResult : Type := mkResult {
  originalText : jsstring;
  redactedText : jsstring;
  entities : list PIIEntity;
  method : string
}.

Inductive Outcome : Type :=
| NoTextProvided
| ProcessingFailed
| ProcessingComplete (result : ProcessingResult).

(** [`${e.start}-${e.end}`], as the pair it encodes. *)
Definition spanKey (e : PIIEntity) : nat * nat := (ent_start e, ent_end e).

(** [nerPersons.map(...)]: the recognizer's persons as [NAME] entities. *)
Definition nerNameEntity (p : PersonEntity) : PIIEntity :=
  let confidence := person_confidence p in
  {| ent_type := "NAME";
     ent_text := person_text p;
     ent_start := person_start p;
     ent_end := person_end p;
     ent_confidence := confidence;
     ent_category := categoryOf confidence |}.

(** [mergedMap]: a [Map] iterates in insertion order, so it is kept as
    an association list; an entity enters only if its key is new. *)
Definition mergeStep (mergedMap : list (nat * nat * PIIEntity)) (e : PIIEntity)
  : list (nat * nat * PIIEntity) :=
  if bool_decide (spanKey e ∈ fst <$> mergedMap) then mergedMap
  else mergedMap ++ [(spanKey e, e)].

Definition mergeEntities (regexEntities nerNameEntities : list PIIEntity)
  : list PIIEntity :=
  snd <$> fold_left mergeStep (regexEntities ++ nerNameEntities) [].

Definition byStartAsc (a b : PIIEntity) : Z :=
  (Z.of_nat (ent_start a) - Z.of_nat (ent_start b))%Z.
Definition byStartDesc (a b : PIIEntity) : Z :=
  (Z.of_nat (ent_start b) - Z.of_nat (ent_start a))%Z.

Definition nameEntitiesInOrder (entities : list PIIEntity) : list PIIEntity :=
  sortBy byStartAsc (filter (λ e, ent_type e = "NAME") entities).

(** The [forEach] filling [nameIndexMap] with [i + 1]. *)
Fixpoint setNameIndexes (i : nat) (names : list PIIEntity)
    (nameIndexMap : gmap (nat * nat) nat) : gmap (nat * nat) nat :=
  match names with
  | [] => nameIndexMap
  | e :: rest => setNameIndexes (S i) rest (<[spanKey e := i + 1]> nameIndexMap)
  end.

Definition nameIndexMapOf (entities : list PIIEntity) : gmap (nat * nat) nat :=
  setNameIndexes 0 (nameEntitiesInOrder entities) ∅.

(** [nameIndexMap.get(key) || 1] *)
Definition nameIndex (nameIndexMap : gmap (nat * nat) nat) (entity : PIIEntity)
  : nat :=
  match nameIndexMap !! spanKey entity with
  | Some (S i) => S i
  | _ => 1
  end.

Definition smartPlaceholder (nameIndexMap : gmap (nat * nat) nat)
    (entity : PIIEntity) : jsstring :=
  if (ent_type entity =? "NAME")%string
  then lit "[NAME_" ++ toStringDec (nameIndex nameIndexMap entity) ++ lit "]"
  else lit "[" ++ lit (ent_type entity) ++ lit "]".

Section Handler.
(** See [OcrProcessor.detectEnhancedPII] and [Ner.getPersonEntities]. *)
Variable execAll : string → jsstring → list (nat * jsstring).
Variable loadPipeline : result (jsstring → result (list NerOutput)).
(** [rnd k] is the value of
    [Math.random().toString(36).substr(2, 8).toUpperCase()] at its
    [k]-th evaluation. *)
Variable rnd : nat → jsstring.

(** The [switch] on [selectedMethod]; the second component counts the
    evaluations of [Math.random]. *)
Definition replacementFor (selectedMethod : string)
    (nameIndexMap : gmap (nat * nat) nat) (calls : nat) (entity : PIIEntity)
  : jsstring * nat :=
  if (selectedMethod =? "Smart Placeholders")%string
  then (smartPlaceholder nameIndexMap entity, calls)
  else if (selectedMethod =? "Complete Removal")%string
  then ([], calls)
  else if (selectedMethod =? "Tokenization")%string
  then (lit "TOKEN_" ++ rnd calls, S calls)
  else if (selectedMethod =? "Masking")%string
  then (replicate (Nat.min (length (ent_text entity)) 8) 42%Z, calls)
  else (* default: *) (smartPlaceholder nameIndexMap entity, calls).

(** One iteration of [sortedEntities.forEach]. *)
Definition redactStep (selectedMethod : string)
    (nameIndexMap : gmap (nat * nat) nat) (st : jsstring * nat)
    (entity : PIIEntity) : jsstring * nat :=
  let '(redactedText, calls) := st in
  let before := substring 0 (ent_start entity) redactedText in
  let after := sliceFrom (ent_end entity) redactedText in
  let '(replacement, calls) :=
    replacementFor selectedMethod nameIndexMap calls entity in
  (before ++ replacement ++ after, calls).

Definition redact (selectedMethod : string) (text : jsstring)
    (entities : list PIIEntity) : jsstring :=
  let nameIndexMap := nameIndexMapOf entities in
  let sortedEntities := sortBy byStartDesc entities in
  fst (fold_left (redactStep selectedMethod nameIndexMap) sortedEntities (text, 0)).

(** [handleTextSubmit]: the guard on blank text, then the [try] block;
    a rejection of either promise of [Promise.all] lands in [catch]. *)
Definition handleTextSubmit (selectedMethod : string) (text : jsstring)
  : Outcome :=
  if bool_decide (trim text = []) then NoTextProvided
  else
    let attempt : result ProcessingResult :=
      let regexEntities := detectEnhancedPII execAll text in
      nerPersons ← getPersonEntities loadPipeline text;
      let nerNameEntities := nerNameEntity <$> nerPersons in
      let entities := mergeEntities regexEntities nerNameEntities in
      Ok {| originalText := text;
            redactedText := redact selectedMethod text entities;
            entities := entities;
            method := selectedMethod |} in
    match attempt with
    | Ok result => ProcessingComplete result
    | Err _ => ProcessingFailed
    end.

End Handler.

End Dashboard.

(* ================================================================== *)
(** ** The [process-pii] edge function *)
(* ================================================================== *)

Module ProcessPii.

(** *** [detectPII]: removal of duplicates and overlaps *)

(** The predicate passed to [some] and [findIndex]. *)
Definition overlapsWith (entity existing : PIIEntity) : bool :=
  ((ent_start existing <=? ent_start entity) && (ent_start entity <? ent_end existing))
  || ((ent_start existing <? ent_end entity) && (ent_end entity <=? ent_end existing))
  || ((ent_start entity <=? ent_start existing) && (ent_end existing <=? ent_end entity)).

(** [xs.findIndex(p)], with [None] for [-1]. *)
Fixpoint findIndex {A : Type} (p : A → bool) (xs : list A) : option nat :=
  match xs with
  | [] => None
  | x :: xs' => if p x then Some 0 else S <$> findIndex p xs'
  end.

Definition byStart (a b : PIIEntity) : Z :=
  (Z.of_nat (ent_start a) - Z.of_nat (ent_start b))%Z.

(** The body of [for (const entity of sortedEntities)]. *)
Definition filterStep (filteredEntities : list PIIEntity) (entity : PIIEntity)
  : list PIIEntity :=
  let hasOverlap := existsb (overlapsWith entity) filteredEntities in
  if negb hasOverlap then filteredEntities ++ [entity]
  else
    match findIndex (overlapsWith entity) filteredEntities with
    | Some overlappingIndex =>
        match filteredEntities !! overlappingIndex with
        | Some existing =>
            if confGt (ent_confidence entity) (ent_confidence existing)
            then <[overlappingIndex := entity]> filteredEntities
            else filteredEntities
        | None => filteredEntities
        end
    | None => filteredEntities
    end.

Definition filterOverlaps (entities : list PIIEntity) : list PIIEntity :=
  let sortedEntities := sortBy byStart entities in
  let filteredEntities := fold_left filterStep sortedEntities [] in
  sortBy byStart filteredEntities.

Section Detect.
(** The scan over [PII_PATTERNS] that fills [entities] (the first loop
    of [detectPII]) runs on the host's regular-expression engine; it is
    a parameter, and it may throw. *)
Variable scanPatterns : jsstring → result (list PIIEntity).

Definition detectPII (text : jsstring) : result (list PIIEntity) :=
  entities ← scanPatterns text;
  Ok (filterOverlaps entities).
End Detect.

(** The keys of [PII_PATTERNS], in declaration order: the values
    [detectPII] gives to [entity.type].  None of them names a member of
    [Object.prototype], so on these keys a plain object used as a table
    ([entityCounts], [syntheticData]) reads [undefined] exactly where the
    key was never set. *)
Definition piiPatternTypes : list string :=
  [ "PERSON"; "FULL_NAME"; "TITLE_NAME"; "MAIDEN_NAME";
    "EMAIL_ADDRESS"; "PHONE_NUMBER"; "INTERNATIONAL_PHONE"; "FAX_NUMBER";
    "SSN"; "SSN_ALTERNATIVE"; "PASSPORT_NUMBER"; "DRIVERS_LICENSE"; "TAX_ID";
    "CREDIT_CARD"; "BANK_ACCOUNT"; "ROUTING_NUMBER"; "IBAN";
    "ADDRESS"; "POSTAL_CODE"; "ZIP_CODE_PLUS_4"; "COORDINATES";
    "MEDICAL_RECORD"; "INSURANCE_POLICY"; "PRESCRIPTION_NUMBER";
    "EMPLOYEE_ID"; "BADGE_NUMBER"; "DEPARTMENT_CODE";
    "IP_ADDRESS"; "IPV6_ADDRESS"; "MAC_ADDRESS"; "USERNAME"; "ACCOUNT_NUMBER";
    "LIBRARY_CARD_ID"; "STUDENT_ID"; "MEMBERSHIP_NUMBER"; "CASE_NUMBER";
    "EMAIL_SIGNATURE" ].

(** *** Replacement strategies *)

(** The full block U+2588. *)
Definition block : jsstring := [9608%Z].

(** [name[0] + '█'.repeat(name.length - 1)] *)
Definition maskName (name : jsstring) : result jsstring :=
  masked ← jsRepeat block (Z.of_nat (length name) - 1);
  Ok (charAtOrUndefined name 0 ++ masked).

Definition applyContextualMasking (entity : PIIEntity) : result jsstring :=
  let type := ent_type entity in
  let text := ent_text entity in
  if (type =? "EMAIL_ADDRESS")%string then
    let parts := splitOn 64 text in
    let user := default [] (parts !! 0) in
    let domain := parts !! 1 in
    maskedUser ←
      (if 2 <? length user
       then masked ← jsRepeat block (Z.of_nat (length user) - 2);
            Ok (charAtOrUndefined user 0 ++ masked
                ++ charAtOrUndefined user (length user - 1))
       else jsRepeat block (Z.of_nat (length user)));
    Ok (maskedUser ++ lit "@" ++ orUndefined domain)
  else if (type =? "SSN")%string || (type =? "SSN_ALTERNATIVE")%string then
    if includesChar 45 text
    then Ok (lit "XXX-XX-" ++ sliceLast 4 text)
    else Ok (lit "XXX XX " ++ sliceLast 4 text)
  else if (type =? "PHONE_NUMBER")%string || (type =? "INTERNATIONAL_PHONE")%string then
    if includesChar 40 text
    then Ok (lit "(XXX) XXX-" ++ sliceLast 4 text)
    else if includesChar 43 text
    then xs ← jsRepeat (lit "X") (Z.of_nat (length text) - 6);
         Ok (lit "+XX " ++ xs ++ lit " " ++ sliceLast 4 text)
    else Ok (lit "XXX-XXX-" ++ sliceLast 4 text)
  else if (type =? "CREDIT_CARD")%string then
    Ok (lit "XXXX-XXXX-XXXX-" ++ sliceLast 4 text)
  else if (type =? "ADDRESS")%string then
    let parts := splitOn 32 text in
    Ok (lit "XXX " ++ join (lit " ") (drop 1 parts))
  else if (type =? "PERSON")%string || (type =? "FULL_NAME")%string then
    let names := splitOn 32 text in
    if length names =? 2 then
      first ← maskName (default [] (names !! 0));
      second ← maskName (default [] (names !! 1));
      Ok (first ++ lit " " ++ second)
    else
      masked ← mapM maskName names;
      Ok (join (lit " ") masked)
  else if (type =? "IP_ADDRESS")%string then
    let ipParts := splitOn 46 text in
    Ok (join (lit ".") (take 2 ipParts) ++ lit ".XXX.XXX")
  else
    let length := Nat.min (length text) 12 in
    jsRepeat block (Z.of_nat length).

Definition syntheticData : list (string * list string) :=
  [ ("PERSON",
     [ "John Smith"; "Jane Doe"; "Michael Johnson"; "Sarah Wilson";
       "David Brown"; "Lisa Garcia"; "Robert Miller"; "Emily Davis";
       "William Anderson"; "Jessica Moore"; "James Taylor"; "Ashley Thomas" ]);
    ("FULL_NAME",
     [ "John Smith"; "Jane Doe"; "Michael Johnson"; "Sarah Wilson" ]);
    ("EMAIL_ADDRESS",
     [ "user@example.com"; "contact@company.org"; "info@business.net";
       "admin@enterprise.com"; "support@service.co"; "hello@startup.io" ]);
    ("PHONE_NUMBER",
     [ "(555) 123-4567"; "(555) 987-6543"; "(555) 456-7890";
       "(555) 321-9876"; "(555) 654-3210"; "(555) 789-0123" ]);
    ("ADDRESS",
     [ "123 Main Street"; "456 Oak Avenue"; "789 Pine Road";
       "321 Elm Drive"; "654 Maple Lane"; "987 Cedar Court" ]);
    ("SSN", [ "123-45-6789"; "987-65-4321"; "456-78-9012" ]);
    ("CREDIT_CARD", [ "4111111111111111"; "5555555555554444"; "378282246310005" ]);
    ("IP_ADDRESS", [ "192.168.1.100"; "10.0.0.50"; "172.16.0.200" ]) ].

(** [syntheticData[entityType] || ['[SYNTHETIC_DATA]']], then
    [options[entityNum % options.length]].  The table is read as a
    finite map, which is what the object is on [piiPatternTypes]; for a
    type naming a member of [Object.prototype] the code would find the
    inherited member instead of the fallback, and statements about the
    value returned are made for [piiPatternTypes] only. *)
Definition generateSyntheticData (entityType : string) (entityNum : nat)
  : jsstring :=
  let options :=
    default ["[SYNTHETIC_DATA]"]
      (snd <$> find (λ kv, (fst kv =? entityType)%string) syntheticData) in
  orUndefined (lit <$> options !! (entityNum mod length options)).

(** One round of the [for] loop of [generateCryptographicHash]:
    [hash = ((hash << 5) - hash) + char; hash = hash & hash]. *)
Definition hashStep (hash : Z) (char : Z) : Z :=
  let hash := ((shl32 hash 5 - hash) + char)%Z in
  and32 hash hash.

Definition generateCryptographicHash (text : jsstring) (entityType : string)
  : jsstring :=
  let hash := fold_left hashStep text 0%Z in
  let hashStr :=
    toUpperCase (sliceTo 8 (padStart 8 48%Z (toStringHex (Z.abs hash)))) in
  lit "[HASH_" ++ lit entityType ++ lit "_" ++ hashStr ++ lit "]".

Definition applyPartialVisibility (entity : PIIEntity) : jsstring :=
  let type := ent_type entity in
  let text := ent_text entity in
  if (type =? "EMAIL_ADDRESS")%string then
    let parts := splitOn 64 text in
    let user := default [] (parts !! 0) in
    let domain := parts !! 1 in
    sliceTo 2 user ++ lit "***@" ++ orUndefined domain
  else if (type =? "PHONE_NUMBER")%string then
    lit "***-***-" ++ sliceLast 4 text
  else if (type =? "PERSON")%string || (type =? "FULL_NAME")%string then
    let names := splitOn 32 text in
    default [] (names !! 0) ++ lit " "
      ++ join (lit " ") ((λ n, charAtOrUndefined n 0 ++ lit "***") <$> drop 1 names)
  else if (type =? "ADDRESS")%string then
    let parts := splitOn 32 text in
    lit "*** " ++ join (lit " ") (drop (length parts - 2) parts)
  else
    sliceTo 2 text ++ lit "***" ++ sliceLast 2 text.

(** *** [applyRedaction] *)

Definition byStartDesc (a b : PIIEntity) : Z :=
  (Z.of_nat (ent_start b) - Z.of_nat (ent_start a))%Z.

(** The [switch (method)]. *)
Definition replacementOf (method : string) (entity : PIIEntity) (entityNum : nat)
  : result jsstring :=
  if (method =? "Smart Placeholders")%string then
    Ok (lit "[" ++ lit (ent_type entity) ++ lit "_"
        ++ padStart 2 48%Z (toStringDec entityNum) ++ lit "]")
  else if (method =? "Contextual Masking")%string then
    applyContextualMasking entity
  else if (method =? "Synthetic Data")%string then
    Ok (generateSyntheticData (ent_type entity) entityNum)
  else if (method =? "Cryptographic Hash")%string then
    Ok (generateCryptographicHash (ent_text entity) (ent_type entity))
  else if (method =? "Partial Visibility")%string then
    Ok (applyPartialVisibility entity)
  else
    Ok (lit "[REDACTED]").

(** The loop state: [redactedText] and the [entityCounts] object.  The
    object is read as a finite map (a key never set counts 0), which is
    what it is on [piiPatternTypes]; statements about the numbers handed
    out are made for these types only. *)
Record RedactState : Type := mkState {
  redactedText : jsstring;
  entityCounts : gmap string nat
}.

(** The body of [for (const entity of sortedEntities)]. *)
Definition redactStep (method : string) (st : RedactState) (entity : PIIEntity)
  : result RedactState :=
  let entityNum := default 0 (entityCounts st !! ent_type entity) + 1 in
  let entityCounts := <[ent_type entity := entityNum]> (entityCounts st) in
  replacement ← replacementOf method entity entityNum;
  Ok {| redactedText :=
          sliceTo (ent_start entity) (redactedText st) ++ replacement
          ++ sliceFrom (ent_end entity) (redactedText st);
        entityCounts := entityCounts |}.

Definition applyRedaction (text : jsstring) (entities : list PIIEntity)
    (method : string) : result jsstring :=
  let sortedEntities := sortBy byStartDesc entities in
  st ← foldM (redactStep method) sortedEntities
         {| redactedText := text; entityCounts := ∅ |};
  Ok (redactedText st).

(** The strategy names of the [switch]. *)
Definition supportedMethods : list string :=
  [ "Smart Placeholders"; "Contextual Masking"; "Synthetic Data";
    "Cryptographic Hash"; "Partial Visibility" ].

(** *** The request handler *)

(** The [text] member of the request body. *)
Inductive JsonText : Type :=
| TextFalsy       (* absent, [null], [""], [0], [false] *)
| TextString (s : jsstring)
| TextOther.      (* a truthy value that is not a string *)

Record RequestBody : Type := mkBody {
  body_text : JsonText;
  body_documentId : option jsstring;
  body_redactionMethod : option string
}.

(** [req.method] and the outcome of [await req.json()]. *)
Record Request : Type := mkRequest {
  req_method : string;
  req_json : result RequestBody
}.

(** The JSON result; [processingTime] (wall-clock) and [confidence] (a
    floating-point mean) are not part of the model. *)
Record ProcessingResult : Type := mkResult {
  res_originalText : jsstring;
  res_entities : list PIIEntity;
  res_redactedText : jsstring;
  res_totalEntities : nat
}.

Inductive Response : Type :=
| Preflight
| ErrorResponse (status : nat) (error : string)
| ResultResponse (result : ProcessingResult).

Definition isTruthyText (t : JsonText) : bool :=
  match t with
  | TextFalsy => false
  | TextString s => negb (bool_decide (s = []))
  | TextOther => true
  end.

Section Handler.
Variable scanPatterns : jsstring → result (list PIIEntity).
(** The database writes made when [documentId] is present; their
    reported errors are only logged, a thrown one reaches [catch]. *)
Variable persist : jsstring → ProcessingResult → string → result ().

Definition process (body : RequestBody) : result Response :=
  let redactionMethod := default "Smart Placeholders" (body_redactionMethod body) in
  if negb (isTruthyText (body_text body)) then
    Ok (ErrorResponse 400 "Text is required")
  else
    match body_text body with
    | TextString text =>
        entities ← detectPII scanPatterns text;
        redactedText ← applyRedaction text entities redactionMethod;
        let result := {| res_originalText := text;
                         res_entities := entities;
                         res_redactedText := redactedText;
                         res_totalEntities := length entities |} in
        _ ← match body_documentId body with
            | Some documentId =>
                if bool_decide (documentId = []) then Ok ()
                else persist documentId result redactionMethod
            | None => Ok ()
            end;
        Ok (ResultResponse result)
    | _ => Err (TypeError "text.matchAll is not a function")
    end.

Definition serve (req : Request) : Response :=
  if (req_method req =? "OPTIONS")%string then Preflight
  else
    match body ← req_json req; process body with
    | Ok response => response
    | Err _ => ErrorResponse 500 "Internal server error"
    end.

End Handler.

End ProcessPii.

(* ================================================================== *)
(** ** Vocabulary of the specification *)
(* ================================================================== *)

Module Spec.

(** *** Spans and canonical entity lists *)

(** A span is non-empty: [start < end]. *)
Definition wellFormed (e : PIIEntity) : Prop := ent_start e < ent_end e.

(** The half-open interval test [a.start < b.end && b.start < a.end]. *)
Definition halfOpenOverlap (a b : PIIEntity) : bool :=
  (ent_start a <? ent_end b) && (ent_start b <? ent_end a).

(** No overlap and no containment: of two entities, the one that starts
    first ends before the other starts. *)
Definition NonOverlapping (l : list PIIEntity) : Prop :=
  ∀ a b, a ∈ l → b ∈ l → ent_start a < ent_start b → ent_end a ≤ ent_start b.

(** No two positions of the list hold spans that share a character. *)
Definition PairwiseDisjoint (l : list PIIEntity) : Prop :=
  ∀ i j a b, i ≠ j → l !! i = Some a → l !! j = Some b →
             ent_end a ≤ ent_start b ∨ ent_end b ≤ ent_start a.

(** A start-ascending list of non-empty, non-overlapping spans lying
    between position [pos] and the end of a text of length [len]. *)
Fixpoint canonicalFrom (pos len : nat) (es : list PIIEntity) : Prop :=
  match es with
  | [] => pos ≤ len
  | e :: rest =>
      pos ≤ ent_start e ∧ ent_start e < ent_end e ∧ canonicalFrom (ent_end e) len rest
  end.

Definition Canonical (text : jsstring) (es : list PIIEntity) : Prop :=
  canonicalFrom 0 (length text) es.

(** The maximal entity-free substrings of the text, left to right: the
    part before the first span, the parts between consecutive spans and
    the part after the last one. *)
Fixpoint entityFreeRegions (pos : nat) (text : jsstring) (es : list PIIEntity)
  : list jsstring :=
  match es with
  | [] => [drop pos text]
  | e :: rest =>
      substring pos (ent_start e) text :: entityFreeRegions (ent_end e) text rest
  end.

(** [g0 ++ r1 ++ g1 ++ ... ++ rn ++ gn] *)
Fixpoint interleave (regions replacements : list jsstring) : jsstring :=
  match regions with
  | [] => []
  | g :: regions' =>
      match replacements with
      | [] => g
      | r :: replacements' => g ++ r ++ interleave regions' replacements'
      end
  end.

(** Replacing one span: [t.slice(0, start) + r + t.slice(end)]. *)
Definition splice (t : jsstring) (er : PIIEntity * jsstring) : jsstring :=
  take (ent_start er.1) t ++ er.2 ++ drop (ent_end er.1) t.

(** [e] is the first element of [l] that carries its span. *)
Definition firstWithSpan (l : list PIIEntity) (e : PIIEntity) : Prop :=
  ∃ i, l !! i = Some e
       ∧ ∀ j e', j < i → l !! j = Some e' → Dashboard.spanKey e' ≠ Dashboard.spanKey e.

(** *** Placeholder numbering *)

(** The server's token [[<TYPE>_<nn>]]. *)
Definition serverPlaceholder (e : PIIEntity) (n : nat) : jsstring :=
  lit "[" ++ lit (ent_type e) ++ lit "_" ++ padStart 2 48%Z (toStringDec n)
  ++ lit "]".

(** The numbers handed to the entities of one type. *)
Definition numbersOfType (t : string) (es : list PIIEntity) (nums : list nat)
  : list nat :=
  snd <$> filter (λ en, ent_type en.1 = t) (zip es nums).

(** The successive values of [entityNum] along a list, starting from
    the counters [counts]. *)
Fixpoint entityNums (counts : gmap string nat) (es : list PIIEntity) : list nat :=
  match es with
  | [] => []
  | e :: rest =>
      let n := default 0 (counts !! ent_type e) + 1 in
      n :: entityNums (<[ent_type e := n]> counts) rest
  end.

(** The Dashboard's tokens along a document: the [NAME] entities are
    numbered [k+1], [k+2], ... in order of appearance, every other
    entity gets its bare type. *)
Fixpoint dashboardPlaceholders (k : nat) (es : list PIIEntity) : list jsstring :=
  match es with
  | [] => []
  | e :: rest =>
      if (ent_type e =? "NAME")%string
      then (lit "[NAME_" ++ toStringDec (S k) ++ lit "]")
           :: dashboardPlaceholders (S k) rest
      else (lit "[" ++ lit (ent_type e) ++ lit "]")
           :: dashboardPlaceholders k rest
  end.

(** The strategy names of the Dashboard's [switch]. *)
Definition dashboardMethods : list string :=
  [ "Smart Placeholders"; "Complete Removal"; "Tokenization"; "Masking" ].

(** *** Checksum *)

(** The decimal digits of a string, non-digits dropped. *)
Definition digitsOf (number : jsstring) : list Z :=
  (λ c, (c - 48)%Z) <$> filter (λ c, isDigit c = true) number.

(** A doubled digit, less 9 when it exceeds 9. *)
Definition luhnDouble (d : Z) : Z :=
  if (2 * d >? 9)%Z then (2 * d - 9)%Z else (2 * d)%Z.

(** The checksum over the digits counted from the rightmost one
    (index 0): every second digit, that is every odd index, is doubled. *)
Definition luhnSum (digits : list Z) : Z :=
  foldr Z.add 0%Z
    (imap (λ i d, if Nat.odd i then luhnDouble d else d) (reverse digits)).

(** *** Name structure *)

(** One capital letter followed by one or more lower-case letters. *)
Definition capitalizedWord (part : jsstring) : bool :=
  match part with
  | c :: rest => isUpper c && negb (bool_decide (rest = [])) && forallb isLower rest
  | [] => false
  end.

(** 2 or 3 white-space separated parts, each of 2 to 15 characters and
    capitalized. *)
Definition structurallyValid (name : jsstring) : bool :=
  let parts := splitSpaces (trim name) in
  (2 <=? length parts) && (length parts <=? 3)
  && forallb (λ part, (2 <=? length part) && (length part <=? 15)
                      && capitalizedWord part) parts.

(** *** Hash tokens *)

(** [0-9A-F] *)
Definition isUpperHex (c : Z) : bool :=
  isDigit c || ((65 <=? c) && (c <=? 70))%Z.
Definition isLowerHex (c : Z) : bool :=
  isDigit c || ((97 <=? c) && (c <=? 102))%Z.

End Spec.

(* ================================================================== *)
(** ** Sample collaborators *)
(* ================================================================== *)

(** Concrete stand-ins for the host's pattern scan, the recognizer and
    the random source, used to run the pipelines on sample texts. *)
Module Samples.
Import Ner.

(** A scan that reports the listed matches: key, [match.index] and
    [match[0]]. *)
Definition scanOf (hits : list (string * (nat * jsstring)))
  : string → jsstring → list (nat * jsstring) :=
  λ type _, snd <$> filter (λ hit, hit.1 = type) hits.

(** A recognizer that loads and returns the listed entries. *)
Definition modelOf (output : list NerOutput)
  : result (jsstring → result (list NerOutput)) :=
  Ok (λ _, Ok output).

(** A recognizer whose model cannot be loaded, and one whose call
    fails. *)
Definition modelUnavailable : result (jsstring → result (list NerOutput)) :=
  Err (Rejected "failed to fetch model").
Definition modelFailing : result (jsstring → result (list NerOutput)) :=
  Ok (λ _, Err (Rejected "inference failed")).

(** A random source whose [k]-th draw spells [k]. *)
Definition countingRnd : nat → jsstring := toStringDec.

(** A server-side scan that reports nothing, and a store that accepts
    every write. *)
Definition emptyScan : jsstring → result (list PIIEntity) := λ _, Ok [].
Definition acceptingStore
  : jsstring → ProcessPii.ProcessingResult → string → result () :=
  λ _ _ _, Ok ().

End Samples.

(* ================================================================== *)
(** ** Category counts and CSV fields *)
(* ================================================================== *)

Module Reports.

(** The JSON spelling of a risk category. *)
Definition categoryName (c : Category) : string :=
  match c with
  | high => "high"
  | medium => "medium"
  | low => "low"
  end.

(** [entities.reduce((counts, e) => { counts[e.category] =
    (counts[e.category] || 0) + 1; return counts }, {})]: the
    [entityCounts] member of the [process-pii] response and the
    [categoryCounts] it stores. *)
Definition countStep (counts : gmap string nat) (e : PIIEntity) : gmap string nat :=
  <[categoryName (ent_category e) :=
      default 0 (counts !! categoryName (ent_category e)) + 1]> counts.

Definition countByCategory (entities : list PIIEntity) : gmap string nat :=
  fold_left countStep entities ∅.

(** [entities.filter(e => e.category === c).length]: the Dashboard's
    [highRiskEntities], [mediumRiskEntities], [lowRiskEntities] and the
    export function's [stats.high], [stats.medium], [stats.low]. *)
Definition countOf (c : Category) (entities : list PIIEntity) : nat :=
  length (filter (λ e, ent_category e = c) entities).

(** [text.replace] of every double quote (unit 34) by two of them,
    and the quoted field both CSV writers build from it. *)
Definition doubleQuotes (text : jsstring) : jsstring :=
  text ≫= λ c, if (c =? 34)%Z then [34; 34]%Z else [c].

Definition csvField (text : jsstring) : jsstring :=
  [34%Z] ++ doubleQuotes text ++ [34%Z].

Section DashboardCsv.
(** [Math.round(e.confidence * 100)] printed as a number: floating
    point, supplied by the host. *)
Variable percent : Q → jsstring.

(** The [csv] branch of the Dashboard's [onExport]. *)
Definition dashboardCsvRow (e : PIIEntity) : jsstring :=
  join (lit ",")
    [ lit (ent_type e); csvField (ent_text e); percent (ent_confidence e) ++ lit "%";
      lit (categoryName (ent_category e)); toStringDec (ent_start e);
      toStringDec (ent_end e) ].

Definition dashboardCsv (entities : list PIIEntity) : jsstring :=
  join [10%Z]
    (join (lit ",") (lit <$> ["type"; "text"; "confidence"; "category"; "start"; "end"])
     :: (dashboardCsvRow <$> entities)).
End DashboardCsv.

End Reports.

(* ================================================================== *)
(** ** The [export-results] edge function *)
(* ================================================================== *)

Module ExportResults.
Import Reports.

Record ExportOptions : Type := mkOptions {
  includeMetadata : bool;
  includeStatistics : bool;
  includeOriginalText : bool;
  includeEntityDetails : bool;
  customFilename : option jsstring;
  notes : option jsstring;
  confidenceThreshold : option Q;
  selectedCategories : option (list string)
}.

(** The [result] member of the request; [processingTime] and
    [confidence] are only printed by the report writers. *)
Record ProcessingResult : Type := mkResult {
  exp_originalText : jsstring;
  exp_entities : list PIIEntity;
  exp_redactedText : jsstring
}.

(** The request body: every member may be absent. *)
Record ExportRequest : Type := mkExport {
  exp_format : option string;
  exp_options : option ExportOptions;
  exp_result : option ProcessingResult;
  exp_userId : option jsstring
}.

Record Request : Type := mkRequest {
  req_method : string;
  req_json : result ExportRequest
}.

(** [stats] without [avgConfidence], a floating-point mean. *)
Record ExportStats : Type := mkStats {
  stats_total : nat;
  stats_high : nat;
  stats_medium : nat;
  stats_low : nat
}.

Inductive Response : Type :=
| Preflight
| ErrorResponse (status : nat) (error : jsstring)
| FileResponse (content filename : jsstring) (mimeType : string)
    (entitiesExported totalEntities : nat).

(** [error.message] *)
Definition message (e : JsError) : jsstring :=
  match e with
  | RangeError msg | TypeError msg | Rejected msg => lit msg
  end.

(** [!options?.selectedCategories?.length ||
     options.selectedCategories.includes(entity.category)] *)
Definition categoryMatch (options : option ExportOptions) (entity : PIIEntity)
  : bool :=
  match options ≫= selectedCategories with
  | None | Some [] => true
  | Some categories =>
      bool_decide (categoryName (ent_category entity) ∈ categories)
  end.

Definition computeStats (filteredEntities : list PIIEntity) : ExportStats :=
  {| stats_total := length filteredEntities;
     stats_high := countOf high filteredEntities;
     stats_medium := countOf medium filteredEntities;
     stats_low := countOf low filteredEntities |}.

(** The formats of the [switch]. *)
Definition supportedFormats : list string :=
  [ "txt"; "json"; "csv"; "xml"; "pdf"; "docx" ].

Section Handler.
(** [threshold / 100] in floating point. *)
Variable div100 : Q → Q.
(** [`${entity.confidence}`]: the host's rendering of a double. *)
Variable showNumber : Q → jsstring.
(** [new Date().toISOString().split('T')[0]] *)
Variable today : jsstring.
(** The text, JSON and XML writers print dates and floating-point
    numbers; each begins by reading [options.includeMetadata]. *)
Variable generateTextReport generateJSONReport generateXMLReport :
  ProcessingResult → list PIIEntity → ExportOptions → ExportStats → jsstring.

(** [!options?.confidenceThreshold ||
     entity.confidence >= (options.confidenceThreshold / 100)] *)
Definition confidenceMatch (options : option ExportOptions) (entity : PIIEntity)
  : bool :=
  match options ≫= confidenceThreshold with
  | None => true
  | Some threshold =>
      Qeq_bool threshold 0 || confGe (ent_confidence entity) (div100 threshold)
  end.

Definition filterEntities (options : option ExportOptions)
    (entities : list PIIEntity) : list PIIEntity :=
  filter (λ entity, categoryMatch options entity && confidenceMatch options entity = true)
         entities.

Definition csvHeader : jsstring :=
  lit "Entity Type,Text Content,Start Position,End Position,Confidence Score,Risk Category"
  ++ [10%Z].

Definition csvRow (entity : PIIEntity) : jsstring :=
  lit (ent_type entity) ++ lit "," ++ csvField (ent_text entity) ++ lit ","
  ++ toStringDec (ent_start entity) ++ lit "," ++ toStringDec (ent_end entity)
  ++ lit "," ++ showNumber (ent_confidence entity) ++ lit ","
  ++ lit (categoryName (ent_category entity)) ++ [10%Z].

Definition generateCSVReport (entities : list PIIEntity) : jsstring :=
  fold_left (λ csv entity, csv ++ csvRow entity) entities csvHeader.

Definition generateStructuredReport (result : ProcessingResult)
    (entities : list PIIEntity) (options : ExportOptions) (stats : ExportStats)
    (format : string) : jsstring :=
  (if (format =? "pdf")%string
   then lit "%PDF-1.4" ++ [10%Z] ++ lit "% Mock PDF content for demonstration" ++ [10%Z]
   else lit "PK" ++ [3; 4; 20; 0; 0; 0; 8; 0; 10]%Z
        ++ lit "% Mock DOCX content for demonstration" ++ [10%Z])
  ++ [10%Z] ++ lit "=== PII REDACTION REPORT ===" ++ [10; 10]%Z
  ++ generateTextReport result entities options stats.

(** Reading a member of an absent [options] is a [TypeError]. *)
Definition theOptions (options : option ExportOptions) : result ExportOptions :=
  match options with
  | Some o => Ok o
  | None => Err (TypeError "Cannot read properties of undefined (reading 'includeMetadata')")
  end.

(** The [switch (format)]: the content and its MIME type.  A thrown
    [Error] rejects with its message. *)
Definition render (format : string) (result : ProcessingResult)
    (filteredEntities : list PIIEntity) (options : option ExportOptions)
    (stats : ExportStats) : Js.result (jsstring * string) :=
  if (format =? "txt")%string then
    o ← theOptions options;
    Ok (generateTextReport result filteredEntities o stats, "text/plain")
  else if (format =? "json")%string then
    o ← theOptions options;
    Ok (generateJSONReport result filteredEntities o stats, "application/json")
  else if (format =? "csv")%string then
    Ok (generateCSVReport filteredEntities, "text/csv")
  else if (format =? "xml")%string then
    o ← theOptions options;
    Ok (generateXMLReport result filteredEntities o stats, "application/xml")
  else if (format =? "pdf")%string || (format =? "docx")%string then
    o ← theOptions options;
    Ok (generateStructuredReport result filteredEntities o stats format,
        if (format =? "pdf")%string then "application/pdf"
        else "application/vnd.openxmlformats-officedocument.wordprocessingml.document")
  else Err (Rejected ("Unsupported format: " ++ format)).

(** [options?.customFilename || defaultFilename] *)
Definition filenameOf (options : option ExportOptions) (result : ProcessingResult)
  : jsstring :=
  match options ≫= customFilename with
  | Some (c :: name) => c :: name
  | _ => lit "pii-redaction-report-" ++ toStringDec (length (exp_entities result))
         ++ lit "entities-" ++ today
  end.

Definition missingParameters : Response :=
  ErrorResponse 400 (lit "Missing required parameters").

(** The body of the [try] block. *)
Definition export (r : ExportRequest) : Js.result Response :=
  match exp_format r, exp_result r, exp_userId r with
  | Some format, Some result, Some userId =>
      if bool_decide (format = EmptyString) || bool_decide (userId = [])
      then Ok missingParameters
      else
        let filename := filenameOf (exp_options r) result in
        let filteredEntities := filterEntities (exp_options r) (exp_entities result) in
        let stats := computeStats filteredEntities in
        '(content, mimeType) ←
          render format result filteredEntities (exp_options r) stats;
        Ok (FileResponse content (filename ++ lit "." ++ lit format) mimeType
              (length filteredEntities) (length (exp_entities result)))
  | _, _, _ => Ok missingParameters
  end.

Definition serve (req : Request) : Response :=
  if (req_method req =? "OPTIONS")%string then Preflight
  else
    match r ← req_json req; export r with
    | Ok response => response
    | Err e => ErrorResponse 500 (lit "Export failed: " ++ message e)
    end.

End Handler.

End ExportResults.

(* ================================================================== *)
(** ** Text extraction and file upload *)
(* ================================================================== *)

Module Upload.

Inductive Method : Type := ocr | textExtraction | direct.

Record OCRResult : Type := mkOCR {
  ocr_text : jsstring;
  ocr_confidence : Q;
  ocr_method : Method
}.

Section Extract.
(** The libraries behind [extractTextWithOCR], as the outcomes of their
    calls on the file at hand: the text layer read with pdf.js (every
    page followed by a line feed), the recognition of the rendered first
    page at its [k]-th attempt ([data.text] and [data.confidence / 100]),
    mammoth's raw text, [file.text()] and the recognition of the file as
    an image. *)
Variable pdfTextLayer : result jsstring.
Variable pdfPageOcr : nat → result (jsstring * Q).
Variable docxRawText : result jsstring.
Variable fileText : result jsstring.
Variable imageOcr : result (jsstring * Q).

(** [extractFromPDFWithOCR], called for the [attempt]-th time. *)
Definition extractFromPDFWithOCR (attempt : nat) : result OCRResult :=
  match pdfPageOcr attempt with
  | Ok (fullText, totalConfidence) =>
      Ok {| ocr_text := fullText; ocr_confidence := totalConfidence;
            ocr_method := ocr |}
  | Err _ => Err (Rejected "Failed to extract text from PDF using OCR")
  end.

(** [extractFromPDF]: the [catch] also receives a rejection of the
    fallback awaited inside the [try]. *)
Definition extractFromPDF : result OCRResult :=
  match pdfTextLayer with
  | Ok fullText =>
      if negb (bool_decide (trim fullText = []))
      then Ok {| ocr_text := trim fullText; ocr_confidence := 0.95;
                 ocr_method := textExtraction |}
      else
        match extractFromPDFWithOCR 0 with
        | Ok r => Ok r
        | Err _ => extractFromPDFWithOCR 1
        end
  | Err _ => extractFromPDFWithOCR 0
  end.

Definition extractFromDocx : result OCRResult :=
  match docxRawText with
  | Ok value =>
      Ok {| ocr_text := value; ocr_confidence := 0.98;
            ocr_method := textExtraction |}
  | Err _ => Err (Rejected "Failed to extract text from Word document")
  end.

Definition extractFromText : result OCRResult :=
  text ← fileText;
  Ok {| ocr_text := text; ocr_confidence := 1.0; ocr_method := direct |}.

Definition extractFromImage : result OCRResult :=
  '(text, confidence) ← imageOcr;
  Ok {| ocr_text := text; ocr_confidence := confidence; ocr_method := ocr |}.

Definition extractTextWithOCR (fileType : string) : result OCRResult :=
  let attempt :=
    if (fileType =? "application/pdf")%string then extractFromPDF
    else if (fileType
             =? "application/vnd.openxmlformats-officedocument.wordprocessingml.document")%string
    then extractFromDocx
    else if (fileType =? "text/plain")%string then extractFromText
    else if String.prefix "image/" fileType then extractFromImage
    else extractFromImage in
  match attempt with
  | Ok r => Ok r
  | Err _ => Err (Rejected "Failed to extract text from document")
  end.

End Extract.

(** What [handleFileUpload] leaves behind: nothing for an empty file
    list, the [OCR Failed] notice with its description, or the
    [OCR Complete] notice after [handleTextSubmit] has run. *)
Inductive UploadOutcome : Type :=
| NoFile
| OcrFailed (description : string)
| OcrComplete (processing : Dashboard.Outcome).

(** [error.message] *)
Definition errorMessage (e : JsError) : string :=
  match e with
  | RangeError msg | TypeError msg | Rejected msg => msg
  end.

Section Handler.
Context {File : Type}.
(** [extractTextWithOCR] on a file, and [handleTextSubmit]. *)
Variable extract : File → result OCRResult.
Variable handleTextSubmit : jsstring → Dashboard.Outcome.

Definition handleFileUpload (files : list File) : UploadOutcome :=
  match files with
  | [] => NoFile
  | file :: _ =>
      match extract file with
      | Ok ocrResult =>
          if bool_decide (ocr_text ocrResult = [])
             || bool_decide (trim (ocr_text ocrResult) = [])
          then OcrFailed "No text could be extracted from the file"
          else OcrComplete (handleTextSubmit (ocr_text ocrResult))
      | Err e => OcrFailed (errorMessage e)
      end
  end.

End Handler.

End Upload.

(* ================================================================== *)
(** ** Further vocabulary for stating properties *)
(* ================================================================== *)

Module Laws.

(** Equality of entities is decidable. *)
#[export] Instance Q_eq_dec : EqDecision Q.
Proof. solve_decision. Defined.
#[export] Instance PIIEntity_eq_dec : EqDecision PIIEntity.
Proof. solve_decision. Defined.

(** A string of ASCII units; on these [Js.toUpperCase] is the host's
    [toUpperCase]. *)
Definition isAscii (s : jsstring) : bool :=
  forallb (λ c, (0 <=? c) && (c <? 128))%Z s.

(** The number written by a list of decimal digits. *)
Definition digitsValue (digits : list Z) : Z :=
  fold_left (λ acc d, (10 * acc + d)%Z) digits 0%Z.

(** Nine digits [AAA GG SSSS] whose area is none of 000, 666, 900-999
    and whose group and serial are not zero. *)
Definition validSSNDigits (digits : list Z) : bool :=
  let area := digitsValue (take 3 digits) in
  let group := digitsValue (take 2 (drop 3 digits)) in
  let serial := digitsValue (drop 5 digits) in
  (length digits =? 9)
  && negb (area =? 0)%Z && negb (area =? 666)%Z && (area <? 900)%Z
  && negb (group =? 0)%Z && negb (serial =? 0)%Z.

(** The polynomial [c0 * 31^(n-1) + ... + c(n-1)] over the integers. *)
Definition polyHash (text : jsstring) : Z :=
  fold_left (λ h c, (31 * h + c)%Z) text 0%Z.

(** A reader for one quoted CSV field at the head of [s]: the field's
    text and what follows the closing quote. *)
Fixpoint readQuotedBody (s : jsstring) : option (jsstring * jsstring) :=
  match s with
  | [] => None
  | c :: s' =>
      if (c =? 34)%Z then
        match s' with
        | c' :: s'' =>
            if (c' =? 34)%Z
            then (λ tr, (34%Z :: tr.1, tr.2)) <$> readQuotedBody s''
            else Some ([], s')
        | [] => Some ([], [])
        end
      else (λ tr, (c :: tr.1, tr.2)) <$> readQuotedBody s'
  end.

Definition readQuoted (s : jsstring) : option (jsstring * jsstring) :=
  match s with
  | c :: s' => if (c =? 34)%Z then readQuotedBody s' else None
  | [] => None
  end.

(** The conditions under which Contextual Masking throws: a name with
    an empty part, or a [+] phone number without [(] shorter than six
    units. *)
Definition maskingThrows (entity : PIIEntity) : bool :=
  let type := ent_type entity in
  let text := ent_text entity in
  (((type =? "PERSON")%string || (type =? "FULL_NAME")%string)
   && existsb (λ part, bool_decide (part = [])) (splitOn 32 text))
  || (((type =? "PHONE_NUMBER")%string || (type =? "INTERNATIONAL_PHONE")%string)
      && negb (includesChar 40 text) && includesChar 43 text
      && (length text <? 6)).

(** A name part with every unit but the first replaced by a block, and
    the user part of an e-mail address with every unit but the first and
    the last replaced (all of them when it has at most two). *)
Definition maskedPart (part : jsstring) : jsstring :=
  take 1 part ++ replicate (length part - 1) 9608%Z.

Definition maskedUser (user : jsstring) : jsstring :=
  if 2 <? length user
  then take 1 user ++ replicate (length user - 2) 9608%Z
       ++ drop (length user - 1) user
  else replicate (length user) 9608%Z.

(** The span lengths of a list of entities, summed. *)
Definition coveredLength (es : list PIIEntity) : nat :=
  foldr (λ e n, (ent_end e - ent_start e) + n) 0 es.

End Laws.

Import Regex OcrProcessor Spec.

(* ================================================================== *)
(** * Properties *)
(* ================================================================== *)

(** ** The runtime fragment on small inputs *)

Section RuntimeExamples.

Example sortBy_is_stable :
  sortBy (λ a b : nat * string, (Z.of_nat a.1 - Z.of_nat b.1)%Z)
         [(3, "a"); (1, "b"); (3, "c"); (1, "d"); (2, "e")]
  = [(1, "b"); (1, "d"); (2, "e"); (3, "a"); (3, "c")].
Proof. reflexivity. Qed.

Example splitSpaces_runs : splitSpaces (lit "Mary  Ann Lee") = lit <$> ["Mary"; "Ann"; "Lee"].
Proof. reflexivity. Qed.

Example splitSpaces_trailing : splitSpaces (lit "a ") = [lit "a"; []].
Proof. reflexivity. Qed.

Example trim_both_ends : trim (lit "  Jane Doe ") = lit "Jane Doe".
Proof. reflexivity. Qed.

Example splitOn_at : splitOn 64 (lit "john@example.com") = lit <$> ["john"; "example.com"].
Proof. reflexivity. Qed.

Example splitOn_empty : splitOn 64 [] = [[]].
Proof. reflexivity. Qed.

Example sliceLast_short : sliceLast 4 (lit "789") = lit "789".
Proof. reflexivity. Qed.

Example jsRepeat_negative : isOk (jsRepeat (lit "X") (-1)) = false.
Proof. reflexivity. Qed.

Example toInt32_wraps : toInt32 2147483648 = (-2147483648)%Z.
Proof. reflexivity. Qed.

Example padStart_number : padStart 2 48%Z (toStringDec 7) = lit "07".
Proof. reflexivity. Qed.

Example padStart_long_number : padStart 2 48%Z (toStringDec 123) = lit "123".
Proof. reflexivity. Qed.

(** [/:$/], [/\b(id|number|code|ref|reference)\b/i] and the honorific
    pattern on a few contexts. *)
Example colon_at_end :
  test (cat [str ":"; Eol]) (lit "Name:") = true
  ∧ test (cat [str ":"; Eol]) (lit "Name: ") = false.
Proof. split; reflexivity. Qed.

Example word_boundaries :
  test (cat [Wb; wordsI ["id"; "number"; "code"; "ref"; "reference"]; Wb])
       (lit " ID 42") = true
  ∧ test (cat [Wb; wordsI ["id"; "number"; "code"; "ref"; "reference"]; Wb])
         (lit " ideas") = false.
Proof. split; reflexivity. Qed.

Example honorific_before_name :
  stronglyAccepted (lit "Dr. Jane Doe will see you now") 4 = true
  ∧ stronglyAccepted (lit "Then Jane Doe will see you now") 5 = false.
Proof. split; reflexivity. Qed.

(** The national-identifier validator on the usual samples. *)
Example isValidSSN_samples :
  isValidSSN (lit "123-45-6789") = true
  ∧ isValidSSN (lit "000-12-3456") = false
  ∧ isValidSSN (lit "666-12-3456") = false
  ∧ isValidSSN (lit "900-12-3456") = false
  ∧ isValidSSN (lit "123-00-4567") = false
  ∧ isValidSSN (lit "123-45-0000") = false
  ∧ isValidSSN (lit "123-45-678") = false.
Proof. repeat split; reflexivity. Qed.

Example isValidCreditCard_separators :
  isValidCreditCard (lit "4111 1111 1111 1111") = true
  ∧ isValidCreditCard (lit "411111111111") = false.
Proof. split; reflexivity. Qed.

End RuntimeExamples.

(** ** The stable sort *)

Section SortFacts.
Context {A : Type} (cmp : A → A → Z) (key : A → Z).
Hypothesis cmp_key : ∀ a b, cmp a b = (key a - key b)%Z.

Lemma insertSorted_perm x l : insertSorted cmp x l ≡ₚ x :: l.
Proof.
  induction l as [|y l IH]; simpl; [done|].
  destruct (cmp y x <=? 0)%Z; [|done].
  rewrite IH. apply Permutation_swap.
Qed.

Lemma sortBy_perm l : sortBy cmp l ≡ₚ l.
Proof.
  unfold sortBy.
  enough (∀ acc, fold_left (λ acc x, insertSorted cmp x acc) l acc ≡ₚ acc ++ l) as H
    by apply (H []).
  induction l as [|x l IH]; intros acc; simpl.
  - by rewrite app_nil_r.
  - rewrite IH, insertSorted_perm. simpl. apply Permutation_middle.
Qed.

Lemma elem_of_sortBy x l : x ∈ sortBy cmp l ↔ x ∈ l.
Proof. by rewrite sortBy_perm. Qed.

Lemma length_sortBy l : length (sortBy cmp l) = length l.
Proof. by rewrite sortBy_perm. Qed.

Lemma insertSorted_sorted x l :
  StronglySorted (λ a b, (key a ≤ key b)%Z) l →
  StronglySorted (λ a b, (key a ≤ key b)%Z) (insertSorted cmp x l).
Proof.
  induction 1 as [|y l Hs IH Hy]; simpl.
  - repeat constructor.
  - rewrite cmp_key. destruct (Z.leb_spec (key y - key x) 0).
    + constructor; [done|].
      rewrite insertSorted_perm. constructor; [lia|done].
    + constructor; [by constructor|].
      constructor; [lia|].
      eapply Forall_impl; [exact Hy|]. simpl. intros; lia.
Qed.

Lemma sortBy_sorted l : StronglySorted (λ a b, (key a ≤ key b)%Z) (sortBy cmp l).
Proof.
  unfold sortBy.
  enough (∀ acc, StronglySorted (λ a b, (key a ≤ key b)%Z) acc →
            StronglySorted (λ a b, (key a ≤ key b)%Z)
              (fold_left (λ acc x, insertSorted cmp x acc) l acc)) as H
    by (apply H; constructor).
  induction l as [|x l IH]; intros acc Hacc; simpl; [done|].
  by apply IH, insertSorted_sorted.
Qed.

(** An element at least as large as everything sorted so far goes last:
    the sort is stable. *)
Lemma insertSorted_last x l :
  Forall (λ y, (key y ≤ key x)%Z) l → insertSorted cmp x l = l ++ [x].
Proof.
  induction 1 as [|y l Hy _ IH]; simpl; [done|].
  rewrite cmp_key. destruct (Z.leb_spec (key y - key x) 0); [|lia].
  by rewrite IH.
Qed.

(** An element strictly below everything sorted so far goes first. *)
Lemma insertSorted_first x l :
  Forall (λ y, (key x < key y)%Z) l → insertSorted cmp x l = x :: l.
Proof.
  destruct 1 as [|y l Hy _]; simpl; [done|].
  rewrite cmp_key. destruct (Z.leb_spec (key y - key x) 0); [lia|done].
Qed.

Lemma sortBy_of_sorted l :
  StronglySorted (λ a b, (key a ≤ key b)%Z) l → sortBy cmp l = l.
Proof.
  unfold sortBy.
  enough (∀ acc, StronglySorted (λ a b, (key a ≤ key b)%Z) (acc ++ l) →
            fold_left (λ acc x, insertSorted cmp x acc) l acc = acc ++ l) as H
    by apply (H []).
  induction l as [|x l IH]; intros acc Hs; simpl.
  - by rewrite app_nil_r.
  - rewrite insertSorted_last.
    + rewrite IH; rewrite <- app_assoc; done.
    + apply Forall_forall. intros y Hy.
      apply (StronglySorted_app_1_elem_of (λ a b, (key a ≤ key b)%Z) acc (x :: l));
        [exact Hs|done|by left].
Qed.

(** Sorting a strictly descending list reverses it. *)
Lemma sortBy_of_strictly_descending l :
  StronglySorted (λ a b, (key b < key a)%Z) l → sortBy cmp l = reverse l.
Proof.
  unfold sortBy.
  enough (∀ acc, StronglySorted (λ a b, (key b < key a)%Z) l →
            Forall (λ y, Forall (λ x, (key x < key y)%Z) l) acc →
            fold_left (λ acc x, insertSorted cmp x acc) l acc = reverse l ++ acc) as H.
  { intros Hs. rewrite (H [] Hs); [by rewrite app_nil_r|constructor]. }
  induction l as [|x l IH]; intros acc Hs Hacc; simpl; [done|].
  inversion Hs as [|? ? Hs' Hx]; subst.
  rewrite insertSorted_first.
  - rewrite IH.
    + by rewrite reverse_cons, <- app_assoc.
    + done.
    + constructor; [done|].
      eapply Forall_impl; [exact Hacc|]. simpl. by intros y [_ ?]%Forall_cons_1.
  - eapply Forall_impl; [exact Hacc|]. simpl. by intros y [? _]%Forall_cons_1.
Qed.

End SortFacts.

(** ** The payment-card checksum *)

Section Luhn.

Lemma luhnStep_digit sum isEven c :
  luhnStep (sum, isEven) c =
  ((sum + (if isEven then luhnDouble (c - 48) else (c - 48)))%Z, negb isEven).
Proof.
  unfold luhnStep, luhnDouble. destruct isEven; [|done].
  replace ((c - 48) * 2)%Z with (2 * (c - 48))%Z by lia.
  by destruct (2 * (c - 48) >? 9)%Z.
Qed.

(** The loop computes the positional sum; [isEven] is the parity of the
    number of digits consumed so far. *)
Lemma fold_luhnStep cs sum isEven :
  (fold_left luhnStep cs (sum, isEven)).1 =
  (sum + foldr Z.add 0
           (imap (λ i d, if xorb isEven (Nat.odd i) then luhnDouble d else d)
                 ((λ c, c - 48) <$> cs)))%Z.
Proof.
  revert sum isEven. induction cs as [|c cs IH]; intros sum isEven.
  - simpl. lia.
  - change (fold_left luhnStep (c :: cs) (sum, isEven))
      with (fold_left luhnStep cs (luhnStep (sum, isEven) c)).
    rewrite luhnStep_digit, IH, fmap_cons, imap_cons.
    cbn [foldr]. rewrite xorb_false_r, Z.add_assoc. do 2 f_equal.
    apply imap_ext. intros i d _. cbn [compose].
    rewrite Nat.odd_succ, <- Nat.negb_odd.
    by destruct isEven, (Nat.odd i).
Qed.

End Luhn.

(** C8. [isValidCreditCard] strips the non-digits, rejects fewer than 13
    or more than 19 digits, and otherwise accepts exactly when the Luhn
    sum (every second digit from the rightmost doubled, 9 subtracted
    from doubled values above 9) is divisible by 10; 4111111111111111
    passes and 4111111111111112 fails. *)
Theorem isValidCreditCard_luhn :
  (∀ number,
     isValidCreditCard number =
     let digits := digitsOf number in
     if (length digits <? 13) || (19 <? length digits) then false
     else (luhnSum digits mod 10 =? 0)%Z)
  ∧ isValidCreditCard (lit "4111111111111111") = true
  ∧ isValidCreditCard (lit "4111111111111112") = false.
Proof.
  split; [|split; reflexivity].
  intros number. unfold isValidCreditCard, digitsOf, luhnSum. simpl.
  rewrite length_fmap.
  destruct ((length (filter _ number) <? 13) || (19 <? length (filter _ number)));
    [done|].
  pose proof (fold_luhnStep (reverse (filter (λ c, isDigit c = true) number)) 0 false) as H.
  destruct (fold_left luhnStep _ _) as [sum b]. simpl in H. subst sum.
  by rewrite fmap_reverse.
Qed.

(** ** Regular expressions *)

Section RegexFacts.

Lemma elem_of_reach step fuel front j :
  j ∈ reach step fuel front ↔
  ∃ n i, n ≤ fuel ∧ i ∈ front ∧ iterates step n i j.
Proof.
  revert front. induction fuel as [|fuel IH]; intros front; simpl.
  - split.
    + intros Hj. exists 0, j. by repeat split.
    + intros (n & i & Hn & Hi & Hit). assert (n = 0) as -> by lia.
      simpl in Hit. by subst.
  - rewrite elem_of_app, IH. split.
    + intros [Hj | (n & i & Hn & Hi & Hit)].
      * exists 0, j. repeat split; [lia|done].
      * apply elem_of_remove_dups, list_elem_of_bind in Hi as (i0 & Hi & Hi0).
        exists (S n), i0. repeat split; [lia|done|]. simpl. eauto.
    + intros (n & i & Hn & Hi & Hit). destruct n as [|n]; simpl in Hit.
      * left. by subst.
      * destruct Hit as (k & Hk & Hit). right. exists n, k.
        repeat split; [lia| |done].
        apply elem_of_remove_dups, list_elem_of_bind. eauto.
Qed.

Lemma elem_of_ends_Chr p s i j :
  j ∈ ends (Chr p) s i ↔ j = S i ∧ ∃ c, s !! i = Some c ∧ p c = true.
Proof.
  simpl. destruct (s !! i) as [c|] eqn:Hc; [destruct (p c) eqn:Hp|].
  - rewrite list_elem_of_singleton. split; [intros ->; eauto|by intros [-> _]].
  - rewrite elem_of_nil. split; [done|]. intros [_ (c' & [= <-] & ?)]. congruence.
  - rewrite elem_of_nil. split; [done|]. by intros [_ (c' & [=] & ?)].
Qed.

Lemma elem_of_ends_Cat r1 r2 s i j :
  j ∈ ends (Cat r1 r2) s i ↔ ∃ k, k ∈ ends r1 s i ∧ j ∈ ends r2 s k.
Proof. simpl. rewrite list_elem_of_bind. split; intros (k & ? & ?); eauto. Qed.

(** A run of units of one class. *)
Lemma iterates_Chr p s n i j :
  iterates (ends (Chr p) s) n i j ↔
  j = i + n ∧ ∀ k, i ≤ k < j → ∃ c, s !! k = Some c ∧ p c = true.
Proof.
  revert i. induction n as [|n IH]; intros i; simpl iterates.
  - split.
    + intros ->. split; [lia|]. intros k ?. lia.
    + intros [? _]. lia.
  - split.
    + intros (k & Hk & Hit). apply elem_of_ends_Chr in Hk as [-> Hc].
      apply IH in Hit as [-> Hall]. split; [lia|].
      intros k Hk. destruct (decide (k = i)) as [->|]; [done|].
      apply Hall. lia.
    + intros [-> Hall]. exists (S i). split.
      * apply elem_of_ends_Chr. split; [done|]. apply Hall. lia.
      * apply IH. split; [lia|]. intros k Hk. apply Hall. lia.
Qed.

Lemma elem_of_ends_Star_Chr p s i j :
  j ∈ ends (Star (Chr p)) s i ↔
  i ≤ j ∧ ∀ k, i ≤ k < j → ∃ c, s !! k = Some c ∧ p c = true.
Proof.
  change (ends (Star (Chr p)) s i)
    with (reach (ends (Chr p) s) (S (length s)) [i]).
  rewrite elem_of_reach. split.
  - intros (n & i' & _ & ->%list_elem_of_singleton & [-> Hall]%iterates_Chr).
    split; [lia|done].
  - intros [Hij Hall]. exists (j - i), i.
    assert (j - i ≤ S (length s)) as Hj.
    { destruct (decide (j = i)) as [->|]; [lia|].
      destruct (Hall (j - 1)) as (c & Hc & _); [lia|].
      apply lookup_lt_Some in Hc. lia. }
    repeat split; [lia|by apply list_elem_of_singleton|].
    apply iterates_Chr. split; [lia|done].
Qed.

Lemma test_true r s :
  test r s = true ↔ ∃ i j, i ≤ length s ∧ j ∈ ends r s i.
Proof.
  unfold test. rewrite existsb_exists. split.
  - intros (i & Hi & Hne). apply in_seq in Hi.
    apply negb_true_iff, bool_decide_eq_false in Hne.
    destruct (ends r s i) as [|j l] eqn:He; [done|].
    exists i, j. split; [lia|]. rewrite He. by left.
  - intros (i & j & Hi & Hj). exists i. split; [apply in_seq; lia|].
    apply negb_true_iff, bool_decide_eq_false. intros He.
    rewrite He in Hj. by apply elem_of_nil in Hj.
Qed.

End RegexFacts.

(** ** The name filter *)

Section NameFilter.

Lemma forallb_lookup {A} (p : A → bool) (l : list A) :
  forallb p l = true ↔ ∀ k c, l !! k = Some c → p c = true.
Proof.
  rewrite forallb_forall. split.
  - intros H k c Hk. apply H, list_elem_of_In, list_elem_of_lookup. eauto.
  - intros H c [k Hk]%list_elem_of_In%list_elem_of_lookup. eauto.
Qed.

Lemma forallb_pointwise {A} (p q : A → bool) (l : list A) :
  (∀ x, p x = q x) → forallb p l = forallb q l.
Proof. intros H. induction l as [|x l IH]; simpl; [done|]. by rewrite H, IH. Qed.

(** [/^[A-Z][a-z]+$/] accepts exactly the capitalized words. *)
Lemma titleCasePattern_test part :
  test titleCasePattern part = capitalizedWord part.
Proof.
  apply eq_iff_eq_true. rewrite test_true.
  unfold titleCasePattern, plus. cbn [cat]. split.
  - intros (i & j & _ & Hj).
    apply elem_of_ends_Cat in Hj as (k0 & Hk0 & Hj).
    apply elem_of_ends_Cat in Hj as (k1 & Hk1 & Hj).
    apply elem_of_ends_Cat in Hj as (k3 & Hk3 & Hj).
    apply elem_of_ends_Cat in Hk3 as (k2 & Hk2 & Hk3).
    simpl in Hk0. destruct i as [|i]; simpl in Hk0; [|by apply elem_of_nil in Hk0].
    apply list_elem_of_singleton in Hk0 as ->.
    apply elem_of_ends_Chr in Hk1 as [-> (c & Hc & Hup)].
    apply elem_of_ends_Chr in Hk2 as [-> (c1 & Hc1 & Hlo1)].
    apply elem_of_ends_Star_Chr in Hk3 as [Hk3 Hall].
    simpl in Hj. destruct (Nat.eqb_spec k3 (length part)) as [->|];
      [|by apply elem_of_nil in Hj].
    destruct part as [|c' rest]; [done|]. simpl in Hc. injection Hc as ->.
    simpl. rewrite Hup. simpl. apply andb_true_iff. split.
    + destruct rest; [done|]. done.
    + apply forallb_lookup. intros k x Hx.
      destruct k as [|k]; [simpl in Hc1; congruence|].
      destruct (Hall (S (S k))) as (y & Hy & Hlo).
      { apply lookup_lt_Some in Hx. simpl in *. lia. }
      simpl in Hy. congruence.
  - intros Hcap. destruct part as [|c rest]; [done|]. simpl in Hcap.
    apply andb_true_iff in Hcap as [[Hup Hne]%andb_true_iff Hall].
    apply negb_true_iff, bool_decide_eq_false in Hne.
    destruct rest as [|c1 rest]; [done|].
    rewrite forallb_lookup in Hall.
    exists 0, (length (c :: c1 :: rest)). split; [lia|].
    apply elem_of_ends_Cat. exists 0. split; [by left|].
    apply elem_of_ends_Cat. exists 1. split; [apply elem_of_ends_Chr; eauto|].
    apply elem_of_ends_Cat. exists (length (c :: c1 :: rest)). split.
    + apply elem_of_ends_Cat. exists 2. split.
      * apply elem_of_ends_Chr. split; [done|]. exists c1. split; [done|].
        by apply (Hall 0).
      * apply elem_of_ends_Star_Chr. split; [simpl; lia|].
        intros k [Hk1 Hk2].
        destruct (lookup_lt_is_Some_2 (c :: c1 :: rest) k Hk2) as [x Hx].
        exists x. split; [done|].
        destruct k as [|k]; [lia|]. by apply (Hall k).
    + simpl. rewrite Nat.eqb_refl. by left.
Qed.

Lemma validNamePart_spec part :
  validNamePart part
  = (2 <=? length part) && (length part <=? 15) && capitalizedWord part.
Proof.
  unfold validNamePart. rewrite titleCasePattern_test.
  by destruct (2 <=? length part), (capitalizedWord part), (length part <=? 15).
Qed.

End NameFilter.

(** C9. The name filter is an ordered cascade: a document-structure or
    role rejection wins over every acceptance rule; "John Smith" in
    "Document Type: John Smith" is rejected and "Dr. Jane Doe" in
    "Dr. Jane Doe will see you now" is accepted; and a candidate on which
    none of the four context rules fires is accepted exactly when it has
    2 or 3 white-space separated parts, each of 2 to 15 characters and
    of the form capital letter followed by lower-case letters. *)
Theorem isValidPersonName_cascade :
  (∀ name fullText position,
     documentRejected name fullText position = true
     ∨ roleRejected name fullText position = true →
     isValidPersonName name fullText position = false)
  ∧ isValidPersonName (lit "John Smith") (lit "Document Type: John Smith") 15 = false
  ∧ isValidPersonName (lit "Dr. Jane Doe") (lit "Dr. Jane Doe will see you now") 0 = true
  ∧ (∀ name fullText position,
       documentRejected name fullText position = false →
       roleRejected name fullText position = false →
       stronglyAccepted fullText position = false →
       test titlePrefixPattern name = false →
       isValidPersonName name fullText position = structurallyValid name).
Proof.
  split; [|split; [|split]].
  - intros name fullText position [H|H]; unfold isValidPersonName; rewrite H;
      [done|]. by destruct (documentRejected name fullText position).
  - by vm_compute.
  - by vm_compute.
  - intros name fullText position Hdoc Hrole Hstrong Htitle.
    unfold isValidPersonName, structurallyValid.
    rewrite Hdoc, Hrole, Hstrong, Htitle.
    rewrite (forallb_pointwise _ _ _ validNamePart_spec).
    set (parts := splitSpaces (trim name)).
    destruct (Nat.ltb_spec (length parts) 2), (Nat.ltb_spec 3 (length parts)),
      (Nat.leb_spec 2 (length parts)), (Nat.leb_spec (length parts) 3);
      try lia; simpl; try done.
    destruct (forallb _ parts); simpl; [|done].
    by destruct (bool_decide _).
Qed.

(** The hypotheses of the structural stage are met by "Jane Doe" in a
    neutral sentence. *)
Lemma isValidPersonName_cascade_witness :
  isValidPersonName (lit "Jane Doe") (lit "Then Jane Doe will see you now") 5
  = structurallyValid (lit "Jane Doe")
  ∧ isValidPersonName (lit "Jane Doe")
      (lit "Our form: Jane Doe will see you now") 10 = false.
Proof.
  split.
  - apply (proj2 (proj2 (proj2 isValidPersonName_cascade)));
      vm_compute; reflexivity.
  - apply (proj1 isValidPersonName_cascade). left. vm_compute. reflexivity.
Defined.

(** ** Hash tokens *)

Section HashFacts.
Import ProcessPii.

Lemma lowerHex_string_of_uint u :
  Forall (λ c, isLowerHex c = true)
         (lit (HexadecimalString.NilEmpty.string_of_uint u)).
Proof.
  induction u; simpl; try (constructor; [by vm_compute|]); try done.
Qed.

Lemma lowerHex_toStringHex n : Forall (λ c, isLowerHex c = true) (toStringHex n).
Proof.
  unfold toStringHex, HexadecimalString.NilZero.string_of_uint.
  destruct (N.to_hex_uint (Z.to_N n)) eqn:E; try apply lowerHex_string_of_uint.
  by repeat constructor.
Qed.

Lemma upperUnit_hex c : isLowerHex c = true → isUpperHex (upperUnit c) = true.
Proof.
  unfold isLowerHex, isUpperHex, upperUnit, isLower, isDigit.
  destruct (Z.leb_spec 48 c), (Z.leb_spec c 57), (Z.leb_spec 97 c),
    (Z.leb_spec c 102), (Z.leb_spec c 122); simpl; try done; try lia;
    intros _;
    repeat match goal with
           | |- context [(?a <=? ?b)%Z] => destruct (Z.leb_spec a b)
           end; simpl; try done; lia.
Qed.

(** [padStart(8, '0')] followed by [slice(0, 8)] leaves exactly eight
    units, whatever the length of the digits. *)
Lemma length_pad_slice s : length (sliceTo 8 (padStart 8 48%Z s)) = 8.
Proof.
  unfold sliceTo, padStart.
  rewrite length_take, length_app, length_replicate. lia.
Qed.

Lemma hashStr_upperHex n :
  Forall (λ c, isUpperHex c = true)
         (toUpperCase (sliceTo 8 (padStart 8 48%Z (toStringHex n)))).
Proof.
  unfold toUpperCase, sliceTo, padStart. apply Forall_fmap, Forall_take.
  apply Forall_app. split.
  - apply Forall_replicate. by vm_compute.
  - eapply Forall_impl; [apply lowerHex_toStringHex|].
    intros c. apply upperUnit_hex.
Qed.

End HashFacts.

(** C10. [generateCryptographicHash] returns [[HASH_<TYPE>_<H>]] with
    [H] exactly eight upper-case hexadecimal characters; the token of the
    Cryptographic Hash strategy depends only on the entity's text and
    type, so repeated occurrences of one value get one token, whereas
    the Dashboard's Tokenization draws a fresh value at each occurrence. *)
Theorem generateCryptographicHash_form :
  (∀ text entityType,
     ∃ H, ProcessPii.generateCryptographicHash text entityType
          = lit "[HASH_" ++ lit entityType ++ lit "_" ++ H ++ lit "]"
          ∧ length H = 8
          ∧ Forall (λ c, isUpperHex c = true) H)
  ∧ (∀ e1 e2 n1 n2,
       ent_text e1 = ent_text e2 → ent_type e1 = ent_type e2 →
       ProcessPii.replacementOf "Cryptographic Hash" e1 n1
       = ProcessPii.replacementOf "Cryptographic Hash" e2 n2
       ∧ ProcessPii.replacementOf "Cryptographic Hash" e1 n1
         = Ok (ProcessPii.generateCryptographicHash (ent_text e1) (ent_type e1)))
  ∧ (∀ rnd nameIndexMap e k1 k2,
       rnd k1 ≠ rnd k2 →
       (Dashboard.replacementFor rnd "Tokenization" nameIndexMap k1 e).1
       ≠ (Dashboard.replacementFor rnd "Tokenization" nameIndexMap k2 e).1).
Proof.
  split; [|split].
  - intros text entityType. eexists. split; [reflexivity|]. split.
    + unfold toUpperCase. rewrite length_fmap. apply length_pad_slice.
    + apply hashStr_upperHex.
  - intros e1 e2 n1 n2 Htext Htype.
    unfold ProcessPii.replacementOf. simpl. by rewrite Htext, Htype.
  - intros rnd nameIndexMap e k1 k2 Hne. simpl. intros H.
    by injection H.
Qed.

(** Two occurrences of one address hash to one token, and two draws of
    the random source give two tokens. *)
Lemma generateCryptographicHash_form_witness :
  ProcessPii.replacementOf "Cryptographic Hash"
    (mkEntity "EMAIL_ADDRESS" (lit "a@b.co") 5 11 0.96 high) 1
  = ProcessPii.replacementOf "Cryptographic Hash"
    (mkEntity "EMAIL_ADDRESS" (lit "a@b.co") 30 36 0.96 high) 2
  ∧ (Dashboard.replacementFor (λ k, toStringDec k) "Tokenization" ∅ 0
       (mkEntity "EMAIL" (lit "a@b.co") 5 11 0.98 high)).1
    ≠ (Dashboard.replacementFor (λ k, toStringDec k) "Tokenization" ∅ 1
       (mkEntity "EMAIL" (lit "a@b.co") 5 11 0.98 high)).1.
Proof.
  split.
  - apply (proj1 (proj2 generateCryptographicHash_form)); reflexivity.
  - apply (proj2 (proj2 generateCryptographicHash_form)). by vm_compute.
Defined.

(** ** The server-side overlap filter *)

Section OverlapFilter.
Import ProcessPii.

Lemma confGt_spec a b : confGt a b = true ↔ (b < a)%Q.
Proof.
  unfold confGt. rewrite negb_true_iff, <- not_true_iff_false, Qle_bool_iff.
  split; [apply Qnot_le_lt|apply Qlt_not_le].
Qed.

Lemma confGt_false a b : confGt a b = false ↔ (a <= b)%Q.
Proof. unfold confGt. by rewrite negb_false_iff, Qle_bool_iff. Qed.

(** For a candidate that starts no earlier than an accepted entity, the
    three-clause test of the code is the half-open interval test, and
    both say that the candidate starts inside the accepted span. *)
Lemma overlapsWith_sorted entity existing :
  wellFormed entity → wellFormed existing →
  ent_start existing ≤ ent_start entity →
  overlapsWith entity existing = halfOpenOverlap entity existing
  ∧ overlapsWith entity existing = (ent_start entity <? ent_end existing).
Proof.
  unfold wellFormed, overlapsWith, halfOpenOverlap. intros He Hx Hle.
  destruct (Nat.leb_spec (ent_start existing) (ent_start entity)),
    (Nat.ltb_spec (ent_start entity) (ent_end existing)),
    (Nat.ltb_spec (ent_start existing) (ent_end entity)),
    (Nat.leb_spec (ent_end entity) (ent_end existing)),
    (Nat.leb_spec (ent_start entity) (ent_start existing)),
    (Nat.leb_spec (ent_end existing) (ent_end entity));
    simpl; try done; lia.
Qed.

Lemma findIndex_Some {A} (p : A → bool) xs i :
  findIndex p xs = Some i →
  ∃ x, xs !! i = Some x ∧ p x = true
       ∧ ∀ j y, j < i → xs !! j = Some y → p y = false.
Proof.
  revert i. induction xs as [|x xs IH]; intros i; simpl; [done|].
  destruct (p x) eqn:Hp.
  - intros [= <-]. exists x. repeat split; [done|]. intros; lia.
  - destruct (findIndex p xs) as [i'|]; [|done]. simpl. intros [= <-].
    destruct (IH i' eq_refl) as (y & Hy & Hpy & Hfirst).
    exists y. repeat split; [done..|].
    intros [|j] z Hj Hz; simpl in Hz; [congruence|]. eapply Hfirst; [|done]. lia.
Qed.

Lemma findIndex_ext {A} (p q : A → bool) xs :
  Forall (λ x, p x = q x) xs → findIndex p xs = findIndex q xs.
Proof. induction 1 as [|x xs Hx _ IH]; simpl; [done|]. by rewrite Hx, IH. Qed.

Lemma existsb_ext_Forall {A} (p q : A → bool) xs :
  Forall (λ x, p x = q x) xs → existsb p xs = existsb q xs.
Proof. induction 1 as [|x xs Hx _ IH]; simpl; [done|]. by rewrite Hx, IH. Qed.

Lemma findIndex_existsb {A} (p : A → bool) xs :
  existsb p xs = true → is_Some (findIndex p xs).
Proof.
  induction xs as [|x xs IH]; simpl; [done|].
  destruct (p x); simpl; [eauto|]. intros [i Hi]%IH. rewrite Hi. eauto.
Qed.

Lemma existsb_false_Forall {A} (p : A → bool) xs :
  existsb p xs = false → Forall (λ x, p x = false) xs.
Proof.
  induction xs as [|x xs IH]; simpl; [constructor|].
  intros [? ?]%orb_false_iff. constructor; eauto.
Qed.

(** What one round of the loop does, read with the half-open test. *)
Lemma filterStep_no_overlap filteredEntities entity :
  existsb (overlapsWith entity) filteredEntities = false →
  filterStep filteredEntities entity = filteredEntities ++ [entity].
Proof. unfold filterStep. by intros ->. Qed.

Lemma filterStep_overlap filteredEntities entity i existing :
  findIndex (overlapsWith entity) filteredEntities = Some i →
  filteredEntities !! i = Some existing →
  filterStep filteredEntities entity =
  if confGt (ent_confidence entity) (ent_confidence existing)
  then <[i := entity]> filteredEntities else filteredEntities.
Proof.
  intros Hi Hx. unfold filterStep. rewrite Hi, Hx.
  destruct (findIndex_Some _ _ _ Hi) as (x & Hx' & Hp & _).
  assert (existsb (overlapsWith entity) filteredEntities = true) as ->; [|done].
  apply existsb_exists. exists x. split; [|done].
  apply list_elem_of_In, list_elem_of_lookup. eauto.
Qed.

(** The accepted list stays pairwise disjoint. *)
Lemma filterStep_disjoint filteredEntities entity :
  Forall wellFormed filteredEntities → wellFormed entity →
  Forall (λ x, ent_start x ≤ ent_start entity) filteredEntities →
  PairwiseDisjoint filteredEntities →
  PairwiseDisjoint (filterStep filteredEntities entity).
Proof.
  intros Hwf He Hle Hdis.
  assert (∀ k x, filteredEntities !! k = Some x →
            wellFormed x ∧ ent_start x ≤ ent_start entity
            ∧ overlapsWith entity x = (ent_start entity <? ent_end x)) as Hat.
  { intros k x Hk. rewrite Forall_lookup in Hwf, Hle.
    specialize (Hwf k x Hk). specialize (Hle k x Hk). simpl in Hle.
    repeat split; [done..|]. by apply overlapsWith_sorted. }
  destruct (existsb (overlapsWith entity) filteredEntities) eqn:Hex.
  - destruct (findIndex_existsb _ _ Hex) as [i Hi].
    destruct (findIndex_Some _ _ _ Hi) as (x & Hx & Hp & _).
    rewrite (filterStep_overlap _ _ _ _ Hi Hx).
    destruct (confGt _ _); [|done].
    destruct (Hat i x Hx) as (Hwx & Hlx & Hox). rewrite Hox in Hp.
    apply Nat.ltb_lt in Hp. unfold wellFormed in *.
    intros j1 j2 a b Hne Ha Hb.
    apply list_lookup_insert_Some in Ha as [(<- & <- & _)|[Hj1 Ha]];
      apply list_lookup_insert_Some in Hb as [(<- & <- & _)|[Hj2 Hb]];
      try done.
    + destruct (Hat j2 b Hb) as (Hwb & Hlb & _).
      destruct (Hdis i j2 x b Hj2 Hx Hb); lia.
    + destruct (Hat j1 a Ha) as (Hwa & Hla & _).
      destruct (Hdis i j1 x a Hj1 Hx Ha); lia.
    + exact (Hdis j1 j2 a b Hne Ha Hb).
  - rewrite (filterStep_no_overlap _ _ Hex).
    apply existsb_false_Forall in Hex. rewrite Forall_lookup in Hex.
    intros j1 j2 a b Hne Ha Hb.
    apply lookup_app_Some in Ha as [Ha|[Hj1 Ha]];
      apply lookup_app_Some in Hb as [Hb|[Hj2 Hb]].
    + by eapply Hdis.
    + apply list_lookup_singleton_Some in Hb as [_ <-].
      destruct (Hat j1 a Ha) as (_ & _ & Ho). specialize (Hex j1 a Ha).
      simpl in Hex. rewrite Ho in Hex. apply Nat.ltb_ge in Hex. lia.
    + apply list_lookup_singleton_Some in Ha as [_ <-].
      destruct (Hat j2 b Hb) as (_ & _ & Ho). specialize (Hex j2 b Hb).
      simpl in Hex. rewrite Ho in Hex. apply Nat.ltb_ge in Hex. lia.
    + apply list_lookup_singleton_Some in Ha as [Ha _].
      apply list_lookup_singleton_Some in Hb as [Hb _]. lia.
Qed.

(** Only candidates are ever accepted. *)
Lemma filterStep_elem_of filteredEntities entity x :
  x ∈ filterStep filteredEntities entity → x ∈ filteredEntities ∨ x = entity.
Proof.
  unfold filterStep. destruct (existsb _ _); simpl.
  - destruct (findIndex _ _) as [i|]; [|by left].
    destruct (filteredEntities !! i) as [y|] eqn:Hy; [|by left].
    destruct (confGt _ _); [|by left].
    intros [k Hk]%list_elem_of_lookup.
    apply list_lookup_insert_Some in Hk as [(_ & <- & _)|[_ Hk]]; [by right|].
    left. apply list_elem_of_lookup. eauto.
  - rewrite elem_of_app, list_elem_of_singleton. tauto.
Qed.

Lemma fold_filterStep_inv rest filteredEntities :
  StronglySorted (λ a b, ent_start a ≤ ent_start b) rest →
  Forall wellFormed rest → Forall wellFormed filteredEntities →
  (∀ x y, x ∈ filteredEntities → y ∈ rest → ent_start x ≤ ent_start y) →
  PairwiseDisjoint filteredEntities →
  PairwiseDisjoint (fold_left filterStep rest filteredEntities)
  ∧ ∀ x, x ∈ fold_left filterStep rest filteredEntities →
         x ∈ filteredEntities ∨ x ∈ rest.
Proof.
  revert filteredEntities.
  induction rest as [|e rest IH]; intros acc Hs Hrest Hacc Hle Hdis; simpl.
  - split; [done|]. by left.
  - apply StronglySorted_inv in Hs as [Hs He].
    apply Forall_cons in Hrest as [Hwe Hrest].
    assert (∀ x, x ∈ filterStep acc e → x ∈ acc ∨ x = e) as Hin
      by apply filterStep_elem_of.
    destruct (IH (filterStep acc e)) as [Hd Hsub]; try done.
    + apply Forall_forall. intros x [Hx| ->]%Hin; [|done].
      by eapply Forall_forall in Hacc.
    + intros x y [Hx| ->]%Hin Hy.
      * apply Hle; [done|by right].
      * by eapply Forall_forall in He.
    + apply filterStep_disjoint; try done.
      apply Forall_forall. intros x Hx. apply Hle; [done|by left].
    + split; [done|]. intros x [[Hx| ->]%Hin|Hx]%Hsub.
      * by left.
      * right. by left.
      * right. by right.
Qed.

Lemma PairwiseDisjoint_NonOverlapping l :
  Forall wellFormed l → PairwiseDisjoint l → NonOverlapping l.
Proof.
  intros Hwf Hdis a b [i Ha]%list_elem_of_lookup [j Hb]%list_elem_of_lookup Hlt.
  destruct (decide (i = j)) as [->|Hne].
  - rewrite Ha in Hb. injection Hb as ->. lia.
  - rewrite Forall_lookup in Hwf. pose proof (Hwf j b Hb) as Hwb.
    unfold wellFormed in Hwb. destruct (Hdis i j a b Hne Ha Hb); lia.
Qed.

Lemma byStart_key a b :
  byStart a b = (Z.of_nat (ent_start a) - Z.of_nat (ent_start b))%Z.
Proof. done. Qed.

Lemma sortBy_byStart_sorted l :
  StronglySorted (λ a b, ent_start a ≤ ent_start b) (sortBy byStart l).
Proof.
  pose proof (sortBy_sorted byStart (λ e, Z.of_nat (ent_start e)) byStart_key l) as H.
  induction H as [|x l' _ IH Hx]; constructor; [done|].
  eapply Forall_impl; [exact Hx|]. simpl. intros; lia.
Qed.

(** The result of the filter: the accepted entities are candidates with
    pairwise disjoint spans. *)
Lemma filterOverlaps_sound entities :
  Forall wellFormed entities →
  NonOverlapping (filterOverlaps entities)
  ∧ Forall wellFormed (filterOverlaps entities)
  ∧ (∀ x, x ∈ filterOverlaps entities → x ∈ entities).
Proof.
  intros Hwf. unfold filterOverlaps.
  destruct (fold_filterStep_inv (sortBy byStart entities) []) as [Hd Hsub].
  - apply sortBy_byStart_sorted.
  - by rewrite sortBy_perm.
  - constructor.
  - intros x y Hx. by apply elem_of_nil in Hx.
  - intros i j a b _ Ha. by rewrite lookup_nil in Ha.
  - assert (∀ x, x ∈ fold_left filterStep (sortBy byStart entities) [] → x ∈ entities)
      as Hin.
    { intros x [Hx|Hx]%Hsub; [by apply elem_of_nil in Hx|].
      by apply elem_of_sortBy in Hx. }
    assert (Forall wellFormed (fold_left filterStep (sortBy byStart entities) []))
      as Hwf'.
    { apply Forall_forall. intros x Hx%Hin. by eapply Forall_forall in Hwf. }
    split; [|split].
    + intros a b Ha%elem_of_sortBy Hb%elem_of_sortBy.
      by apply (PairwiseDisjoint_NonOverlapping _ Hwf' Hd).
    + by rewrite sortBy_perm.
    + intros x Hx%elem_of_sortBy. by apply Hin.
Qed.

End OverlapFilter.

(** ** The Dashboard merge *)

Section DashboardMerge.
Import Dashboard.

Lemma firstWithSpan_cons_ne x l e :
  spanKey x ≠ spanKey e → firstWithSpan (x :: l) e ↔ firstWithSpan l e.
Proof.
  intros Hne. split.
  - intros ([|i] & Hi & Hfirst); simpl in Hi; [congruence|].
    exists i. split; [done|]. intros j e' Hj He'. apply (Hfirst (S j)); [lia|done].
  - intros (i & Hi & Hfirst). exists (S i). split; [done|].
    intros [|j] e' Hj He'; simpl in He'; [congruence|].
    apply (Hfirst j); [lia|done].
Qed.

Lemma fold_mergeStep l mergedMap k e :
  (k, e) ∈ fold_left mergeStep l mergedMap ↔
  (k, e) ∈ mergedMap
  ∨ (k = spanKey e ∧ (k ∉ mergedMap.*1) ∧ firstWithSpan l e).
Proof.
  revert mergedMap. induction l as [|x l IH]; intros acc; simpl.
  - split; [by left|]. intros [?|(_ & _ & i & Hi & _)]; [done|].
    by rewrite lookup_nil in Hi.
  - rewrite IH. unfold mergeStep. case_bool_decide as Hx.
    + split; (intros [?|(-> & Hk & Hf)]; [by left|right]);
        (repeat split; [done..|]);
        apply (firstWithSpan_cons_ne x); try done; congruence.
    + rewrite elem_of_app, list_elem_of_singleton. split.
      * intros [[?|[= -> ->]]|(-> & Hk & Hf)]; [by left| |].
        -- right. repeat split; [done|]. exists 0. split; [done|]. intros; lia.
        -- right. rewrite fmap_app, not_elem_of_app in Hk. destruct Hk as [Hk Hk'].
           simpl in Hk'. rewrite list_elem_of_singleton in Hk'.
           repeat split; [done|]. apply firstWithSpan_cons_ne; [congruence|done].
      * intros [?|(-> & Hk & Hf)]; [by left; left|].
        destruct (decide (spanKey x = spanKey e)) as [Heq|Hne].
        -- left. right. destruct Hf as ([|i] & Hi & Hfirst); simpl in Hi.
           ++ congruence.
           ++ by destruct (Hfirst 0 x); [lia|done|].
        -- right. repeat split.
           ++ rewrite fmap_app, not_elem_of_app. split; [done|].
              simpl. rewrite list_elem_of_singleton. congruence.
           ++ by apply (firstWithSpan_cons_ne x).
Qed.

Lemma fold_mergeStep_NoDup l mergedMap :
  NoDup mergedMap.*1 → NoDup (fold_left mergeStep l mergedMap).*1.
Proof.
  revert mergedMap. induction l as [|x l IH]; intros acc Hacc; simpl; [done|].
  apply IH. unfold mergeStep. case_bool_decide as Hx; [done|].
  rewrite fmap_app. apply NoDup_app. repeat split; [done| |apply NoDup_singleton].
  intros k Hk ->%list_elem_of_singleton. done.
Qed.

Lemma fold_mergeStep_keys l mergedMap :
  Forall (λ ke, ke.1 = spanKey ke.2) mergedMap →
  Forall (λ ke, ke.1 = spanKey ke.2) (fold_left mergeStep l mergedMap).
Proof.
  revert mergedMap. induction l as [|x l IH]; intros acc Hacc; simpl; [done|].
  apply IH. unfold mergeStep. case_bool_decide; [done|].
  apply Forall_app. split; [done|]. by repeat constructor.
Qed.

(** The merge keeps, for every span, the first entity that carries it,
    and nothing else. *)
Lemma elem_of_mergeEntities regexEntities nerNameEntities e :
  e ∈ mergeEntities regexEntities nerNameEntities
  ↔ firstWithSpan (regexEntities ++ nerNameEntities) e.
Proof.
  unfold mergeEntities. rewrite list_elem_of_fmap. split.
  - intros ([k e'] & -> & Hin). apply fold_mergeStep in Hin as [Hin|(_ & _ & ?)];
      [by apply elem_of_nil in Hin|done].
  - intros Hf. exists (spanKey e, e). split; [done|].
    apply fold_mergeStep. right. repeat split; [|done]. apply not_elem_of_nil.
Qed.

Lemma mergeEntities_spans regexEntities nerNameEntities :
  NoDup (spanKey <$> mergeEntities regexEntities nerNameEntities).
Proof.
  unfold mergeEntities.
  pose proof (fold_mergeStep_NoDup (regexEntities ++ nerNameEntities) []
                (NoDup_nil_2)) as Hnd.
  pose proof (fold_mergeStep_keys (regexEntities ++ nerNameEntities) []
                (Forall_nil_2 _)) as Hk.
  rewrite <- list_fmap_compose.
  erewrite list_fmap_ext; [exact Hnd|].
  intros i [k e] Hi. rewrite Forall_lookup in Hk. symmetry. exact (Hk i _ Hi).
Qed.

End DashboardMerge.

(** ** Merged entity lists *)

Section MergeFacts.
Import Dashboard.

Lemma NoDup_fmap_eq {A B} `{EqDecision B} (f : A → B) (l : list A) x y :
  NoDup (f <$> l) → x ∈ l → y ∈ l → f x = f y → x = y.
Proof.
  intros Hnd [i Hi]%list_elem_of_lookup [j Hj]%list_elem_of_lookup Hf.
  assert (i = j) as ->; [|congruence].
  eapply NoDup_lookup; [exact Hnd| |]; rewrite list_lookup_fmap.
  - by rewrite Hi.
  - rewrite Hj. simpl. by rewrite Hf.
Qed.

Lemma firstWithSpan_exists l e :
  e ∈ l → ∃ e', firstWithSpan l e' ∧ spanKey e' = spanKey e.
Proof.
  induction l as [|x l IH]; [by intros ?%elem_of_nil|].
  destruct (decide (spanKey x = spanKey e)) as [Heq|Hne].
  - intros _. exists x. split; [|done]. exists 0. split; [done|]. intros; lia.
  - intros [->|Hin]%elem_of_cons; [done|].
    destruct (IH Hin) as (e' & Hf & He'). exists e'. split; [|done].
    apply firstWithSpan_cons_ne; [congruence|done].
Qed.

Lemma firstWithSpan_app_l l1 l2 e :
  firstWithSpan l1 e → firstWithSpan (l1 ++ l2) e ∧ e ∈ l1.
Proof.
  intros (i & Hi & Hfirst). split.
  - exists i. split; [by apply lookup_app_l_Some|].
    intros j e' Hj He'. apply (Hfirst j); [done|].
    rewrite lookup_app_l in He'; [done|]. apply lookup_lt_Some in Hi. lia.
  - apply list_elem_of_lookup. eauto.
Qed.

(** When a pattern-based and a model-based entity carry the same span,
    the entity kept for that span is a pattern-based one. *)
Lemma mergeEntities_prefers_regex regexEntities nerNameEntities p m :
  p ∈ regexEntities → m ∈ nerNameEntities → spanKey m = spanKey p →
  ∃ p', p' ∈ regexEntities ∧ spanKey p' = spanKey p
        ∧ p' ∈ mergeEntities regexEntities nerNameEntities
        ∧ ∀ e, e ∈ mergeEntities regexEntities nerNameEntities →
               spanKey e = spanKey p → e = p'.
Proof.
  intros Hp _ _. destruct (firstWithSpan_exists _ _ Hp) as (p' & Hf & Hk).
  destruct (firstWithSpan_app_l _ nerNameEntities _ Hf) as [Hf' Hin].
  apply elem_of_mergeEntities in Hf'.
  exists p'. repeat split; [done..|].
  intros e He Hke.
  eapply (NoDup_fmap_eq spanKey); [apply mergeEntities_spans|done..|congruence].
Qed.

End MergeFacts.

(** C1 (as amended). The server-side overlap filter returns a list in
    which no two entities overlap, for every list of candidates with
    non-empty spans; the Dashboard merge only removes an entity whose
    span equals that of an earlier one, so its list has pairwise distinct
    spans. *)
Theorem merged_lists_spans :
  (∀ entities,
     Forall wellFormed entities →
     NonOverlapping (ProcessPii.filterOverlaps entities))
  ∧ (∀ regexEntities nerNameEntities,
       NoDup (Dashboard.spanKey
                <$> Dashboard.mergeEntities regexEntities nerNameEntities)).
Proof.
  split.
  - intros entities Hwf. by apply filterOverlaps_sound.
  - apply mergeEntities_spans.
Qed.

Lemma merged_lists_spans_witness :
  NonOverlapping
    (ProcessPii.filterOverlaps
       [ mkEntity "PERSON" (lit "John Smith") 8 18 0.95 high;
         mkEntity "FULL_NAME" (lit "John Smith") 8 18 0.88 high;
         mkEntity "EMAIL_ADDRESS" (lit "js@example.com") 22 36 0.96 high;
         mkEntity "USERNAME" (lit "@example") 24 32 0.72 low ]).
Proof.
  apply (proj1 merged_lists_spans).
  repeat constructor; unfold wellFormed; simpl; lia.
Defined.

(** On "Dr. John Smith called." the pattern scan reports the name with
    its title and the recognizer the bare name: both survive the
    Dashboard merge although the first contains the second. *)
Lemma dashboard_merge_keeps_overlap :
  Dashboard.handleTextSubmit
    (Samples.scanOf [("name", (0, lit "Dr. John Smith"))])
    (Samples.modelOf
       [Ner.mkNerOutput (lit "PER") (Some 0.99%Q) (lit "John Smith") 4 14])
    Samples.countingRnd "Smart Placeholders" (lit "Dr. John Smith called.")
  = Dashboard.ProcessingComplete
      {| Dashboard.originalText := lit "Dr. John Smith called.";
         Dashboard.redactedText := lit "[NAME_1]alled.";
         Dashboard.entities :=
           [ mkEntity "NAME" (lit "Dr. John Smith") 0 14 0.95 high;
             mkEntity "NAME" (lit "John Smith") 4 14 0.99 high ];
         Dashboard.method := "Smart Placeholders" |}
  ∧ ¬ NonOverlapping
        [ mkEntity "NAME" (lit "Dr. John Smith") 0 14 0.95 high;
          mkEntity "NAME" (lit "John Smith") 4 14 0.99 high ].
Proof.
  split; [by vm_compute|].
  intros H.
  specialize (H (mkEntity "NAME" (lit "Dr. John Smith") 0 14 0.95 high)
                (mkEntity "NAME" (lit "John Smith") 4 14 0.99 high)).
  simpl in H. assert (14 ≤ 4) as Habs; [|lia].
  apply H; [left|right; left|lia].
Qed.

(** C7 (as amended). In the server-side filter a candidate that overlaps
    an accepted entity under the half-open test replaces the first such
    entity exactly when its confidence is strictly higher and is dropped
    otherwise, ties included; a candidate that overlaps nothing is
    appended.  The Dashboard merge treats only identical spans as a
    conflict and always keeps the earlier-inserted entity, hence the
    pattern-based one, whatever the confidences. *)
Theorem overlap_resolution :
  (∀ filteredEntities entity i existing,
     wellFormed entity → Forall wellFormed filteredEntities →
     Forall (λ x, ent_start x ≤ ent_start entity) filteredEntities →
     ProcessPii.findIndex (halfOpenOverlap entity) filteredEntities = Some i →
     filteredEntities !! i = Some existing →
     ((ent_confidence existing < ent_confidence entity)%Q →
      ProcessPii.filterStep filteredEntities entity
      = <[i := entity]> filteredEntities)
     ∧ ((ent_confidence entity <= ent_confidence existing)%Q →
        ProcessPii.filterStep filteredEntities entity = filteredEntities))
  ∧ (∀ filteredEntities entity,
       wellFormed entity → Forall wellFormed filteredEntities →
       Forall (λ x, ent_start x ≤ ent_start entity) filteredEntities →
       existsb (halfOpenOverlap entity) filteredEntities = false →
       ProcessPii.filterStep filteredEntities entity
       = filteredEntities ++ [entity])
  ∧ (∀ regexEntities nerNameEntities e,
       e ∈ Dashboard.mergeEntities regexEntities nerNameEntities
       ↔ firstWithSpan (regexEntities ++ nerNameEntities) e)
  ∧ (∀ regexEntities nerNameEntities p m,
       p ∈ regexEntities → m ∈ nerNameEntities →
       Dashboard.spanKey m = Dashboard.spanKey p →
       ∃ p', p' ∈ regexEntities ∧ Dashboard.spanKey p' = Dashboard.spanKey p
             ∧ p' ∈ Dashboard.mergeEntities regexEntities nerNameEntities
             ∧ ∀ e, e ∈ Dashboard.mergeEntities regexEntities nerNameEntities →
                    Dashboard.spanKey e = Dashboard.spanKey p → e = p').
Proof.
  assert (∀ filteredEntities entity,
            wellFormed entity → Forall wellFormed filteredEntities →
            Forall (λ x, ent_start x ≤ ent_start entity) filteredEntities →
            Forall (λ x, ProcessPii.overlapsWith entity x = halfOpenOverlap entity x)
                   filteredEntities) as Hsame.
  { intros acc e He Hwf Hle. rewrite Forall_lookup in Hwf, Hle.
    apply Forall_lookup. intros k x Hk.
    apply overlapsWith_sorted; [done|by eapply Hwf|by eapply (Hle k)]. }
  split; [|split; [|split]].
  - intros acc e i x He Hwf Hle Hi Hx.
    rewrite <- (findIndex_ext _ _ _ (Hsame acc e He Hwf Hle)) in Hi.
    rewrite (filterStep_overlap _ _ _ _ Hi Hx). split.
    + intros Hlt%confGt_spec. by rewrite Hlt.
    + intros Hle'%confGt_false. by rewrite Hle'.
  - intros acc e He Hwf Hle Hex. apply filterStep_no_overlap.
    by rewrite (existsb_ext_Forall _ _ _ (Hsame acc e He Hwf Hle)).
  - apply elem_of_mergeEntities.
  - apply mergeEntities_prefers_regex.
Qed.

(** A lower-confidence [FULL_NAME] candidate over an accepted [PERSON]
    span is dropped; the recognizer's entity over a pattern-based span is
    dropped as well. *)
Lemma overlap_resolution_witness :
  ProcessPii.filterStep
    [mkEntity "PERSON" (lit "John Smith") 8 18 0.95 high]
    (mkEntity "FULL_NAME" (lit "John Smith") 8 18 0.88 high)
  = [mkEntity "PERSON" (lit "John Smith") 8 18 0.95 high]
  ∧ ProcessPii.filterStep
      [mkEntity "SSN" (lit "123-45-6789") 0 11 0.99 high]
      (mkEntity "POSTAL_CODE" (lit "90210") 12 17 0.75 low)
    = [mkEntity "SSN" (lit "123-45-6789") 0 11 0.99 high;
       mkEntity "POSTAL_CODE" (lit "90210") 12 17 0.75 low]
  ∧ ∃ p', p' ∈ [mkEntity "NAME" (lit "John Smith") 7 17 0.95 high]
          ∧ p' ∈ Dashboard.mergeEntities
                   [mkEntity "NAME" (lit "John Smith") 7 17 0.95 high]
                   [mkEntity "NAME" (lit "John Smith") 7 17 0.99 high].
Proof.
  split; [|split].
  - apply (proj1 overlap_resolution _ _ 0
             (mkEntity "PERSON" (lit "John Smith") 8 18 0.95 high));
      try (repeat constructor; unfold wellFormed; simpl; lia); try reflexivity.
    by vm_compute.
  - apply (proj1 (proj2 overlap_resolution));
      try (repeat constructor; unfold wellFormed; simpl; lia); reflexivity.
  - destruct (proj2 (proj2 (proj2 overlap_resolution))
                [mkEntity "NAME" (lit "John Smith") 7 17 0.95 high]
                [mkEntity "NAME" (lit "John Smith") 7 17 0.99 high]
                (mkEntity "NAME" (lit "John Smith") 7 17 0.95 high)
                (mkEntity "NAME" (lit "John Smith") 7 17 0.99 high))
      as (p' & Hin & _ & Hmerged & _); [by left|by left|reflexivity|].
    exists p'. by split.
Defined.

(** On "we met John Smith today" the pattern scan and the recognizer
    report the same span; the Dashboard keeps the pattern-based entity
    although the recognizer's confidence is strictly higher. *)
Lemma dashboard_merge_ignores_confidence :
  Dashboard.handleTextSubmit
    (Samples.scanOf [("name", (7, lit "John Smith"))])
    (Samples.modelOf
       [Ner.mkNerOutput (lit "PER") (Some 0.99%Q) (lit "John Smith") 7 17])
    Samples.countingRnd "Smart Placeholders" (lit "we met John Smith today")
  = Dashboard.ProcessingComplete
      {| Dashboard.originalText := lit "we met John Smith today";
         Dashboard.redactedText := lit "we met [NAME_1] today";
         Dashboard.entities :=
           [ mkEntity "NAME" (lit "John Smith") 7 17 0.95 high ];
         Dashboard.method := "Smart Placeholders" |}
  ∧ Dashboard.mergeEntities
      [mkEntity "NAME" (lit "John Smith") 7 17 0.95 high]
      [mkEntity "NAME" (lit "John Smith") 7 17 0.99 high]
    = [mkEntity "NAME" (lit "John Smith") 7 17 0.95 high]
  ∧ (0.95 < 0.99)%Q.
Proof. split; [by vm_compute|]. split; [by vm_compute|]. reflexivity. Qed.

(** ** Right-to-left rewriting *)

Section Rewriting.

Lemma canonicalFrom_le pos len es : canonicalFrom pos len es → pos ≤ len.
Proof.
  revert pos. induction es as [|e es IH]; intros pos; simpl; [done|].
  intros (Hp & He & Hrest). apply IH in Hrest. lia.
Qed.

(** The starts of a canonical list increase strictly. *)
Lemma canonicalFrom_starts pos len es :
  canonicalFrom pos len es →
  Forall (λ e, pos ≤ ent_start e) es
  ∧ StronglySorted (λ a b, ent_start a < ent_start b) es.
Proof.
  revert pos. induction es as [|e es IH]; intros pos; simpl.
  - intros _. split; constructor.
  - intros (Hp & He & Hrest). destruct (IH _ Hrest) as [Hall Hs]. split.
    + constructor; [done|]. eapply Forall_impl; [exact Hall|]. simpl. intros; lia.
    + constructor; [done|]. eapply Forall_impl; [exact Hall|]. simpl. intros; lia.
Qed.

(** Splicing the replacements in, last span first, touches nothing
    before position [pos] and leaves the entity-free regions in place. *)
Lemma splice_descending text es rs pos :
  canonicalFrom pos (length text) es → length rs = length es →
  fold_left splice (reverse (zip es rs)) text
  = take pos text ++ interleave (entityFreeRegions pos text es) rs.
Proof.
  revert rs pos. induction es as [|e es IH]; intros rs pos Hc Hlen.
  - destruct rs; simpl in Hlen; [|lia]. simpl. by rewrite take_drop.
  - destruct rs as [|r rs]; simpl in Hlen; [lia|]. simpl in Hc.
    destruct Hc as (Hp & He & Hrest).
    pose proof (canonicalFrom_le _ _ _ Hrest) as Hend.
    cbn [zip zip_with]. rewrite reverse_cons, fold_left_app. cbn [fold_left].
    rewrite (IH rs (ent_end e)) by (done || lia).
    unfold splice at 1. cbn [fst snd entityFreeRegions interleave].
    rewrite take_app_le by (rewrite length_take; lia).
    rewrite take_take, Nat.min_l by lia.
    rewrite drop_app_length' by (rewrite length_take; lia).
    unfold substring. rewrite Nat.min_l, Nat.max_r by lia.
    rewrite !app_assoc. do 2 f_equal.
    rewrite take_take_drop. f_equal. lia.
Qed.

Lemma zip_reverse {A B} (l : list A) (k : list B) :
  length l = length k → zip (reverse l) (reverse k) = reverse (zip l k).
Proof.
  revert k. induction l as [|x l IH]; intros [|y k] Hlen; try done.
  simpl in Hlen. cbn [zip zip_with]. rewrite !reverse_cons.
  rewrite zip_with_app by (rewrite !length_reverse; lia).
  by rewrite IH by lia.
Qed.

End Rewriting.

(** ** The server's [applyRedaction] *)

Section ServerRedaction.
Import ProcessPii.

Lemma mapM_length {A B} (f : A → result B) l ys :
  mapM f l = Ok ys → length ys = length l.
Proof.
  revert ys. induction l as [|x l IH]; intros ys; simpl.
  - by intros [= <-].
  - destruct (f x) as [y|]; simpl; [|done].
    destruct (mapM f l) as [ys'|]; simpl; [|done].
    intros [= <-]. simpl. by rewrite (IH ys').
Qed.

Lemma mapM_Ok {A B} (f : A → B) l : mapM (λ x, Ok (f x)) l = Ok (f <$> l).
Proof. induction l as [|x l IH]; simpl; [done|]. by rewrite IH. Qed.

Lemma mapM_ext {A B} (f g : A → result B) l :
  (∀ x, f x = g x) → mapM f l = mapM g l.
Proof. intros H. induction l as [|x l IH]; simpl; [done|]. by rewrite H, IH. Qed.

Lemma length_entityNums counts l : length (entityNums counts l) = length l.
Proof.
  revert counts. induction l as [|e l IH]; intros counts; simpl; [done|].
  by rewrite IH.
Qed.

Lemma redactStep_splice method st e :
  redactStep method st e
  = (r ← replacementOf method e (default 0 (entityCounts st !! ent_type e) + 1);
     Ok {| redactedText := splice (redactedText st) (e, r);
           entityCounts :=
             <[ent_type e := default 0 (entityCounts st !! ent_type e) + 1]>
               (entityCounts st) |}).
Proof. done. Qed.

(** The loop, as the replacements it draws followed by the splices. *)
Lemma foldM_redactStep method l st :
  redactedText <$> foldM (redactStep method) l st
  = (λ rs, fold_left splice (zip l rs) (redactedText st))
      <$> mapM (λ en, replacementOf method en.1 en.2)
               (zip l (entityNums (entityCounts st) l)).
Proof.
  revert st. induction l as [|e l IH]; intros st; [done|].
  cbn [foldM entityNums]. rewrite redactStep_splice.
  change (zip (e :: l) (?n :: ?ns)) with ((e, n) :: zip l ns).
  cbn [mapM fst snd].
  destruct (replacementOf method e _) as [r|err]; [|done].
  cbn [mbind result_bind]. rewrite IH. cbn [redactedText entityCounts].
  by destruct (mapM _ _) as [rs|err].
Qed.

Lemma byStartDesc_key a b :
  byStartDesc a b = ((- Z.of_nat (ent_start a)) - (- Z.of_nat (ent_start b)))%Z.
Proof. unfold byStartDesc. lia. Qed.

Lemma sortBy_byStartDesc_canonical pos len es :
  canonicalFrom pos len es → sortBy byStartDesc es = reverse es.
Proof.
  intros [_ Hs]%canonicalFrom_starts.
  apply (sortBy_of_strictly_descending _ _ byStartDesc_key).
  induction Hs as [|x l _ IH Hx]; constructor; [done|].
  eapply Forall_impl; [exact Hx|]. simpl. intros; lia.
Qed.

(** On a canonical list the redacted text is the entity-free regions
    interleaved with the replacements, the replacements being drawn
    from the last entity to the first. *)
Lemma applyRedaction_canonical text es method :
  Canonical text es →
  applyRedaction text es method
  = (λ rs, interleave (entityFreeRegions 0 text es) (reverse rs))
      <$> mapM (λ en, replacementOf method en.1 en.2)
               (zip (reverse es) (entityNums ∅ (reverse es))).
Proof.
  intros Hc. unfold applyRedaction.
  rewrite (sortBy_byStartDesc_canonical _ _ _ Hc).
  pose proof (foldM_redactStep method (reverse es)
                {| redactedText := text; entityCounts := ∅ |}) as H.
  cbn [redactedText entityCounts] in H.
  destruct (foldM _ _ _) as [st|err]; simpl in H.
  - destruct (mapM _ _) as [rs|] eqn:Hrs; [|done]. simpl in H. injection H as H.
    simpl. f_equal. rewrite H.
    apply mapM_length in Hrs. rewrite length_zip, length_entityNums in Hrs.
    rewrite Nat.min_id, length_reverse in Hrs.
    rewrite <- (reverse_involutive rs) at 1.
    rewrite zip_reverse by (by rewrite length_reverse).
    rewrite (splice_descending text es (reverse rs) 0 Hc)
      by (by rewrite length_reverse).
    by rewrite take_0.
  - by destruct (mapM _ _).
Qed.

(** The numbers drawn for one type are consecutive. *)
Lemma entityNums_of_type counts l t :
  numbersOfType t l (entityNums counts l)
  = seq (default 0 (counts !! t) + 1) (length (filter (λ e, ent_type e = t) l)).
Proof.
  unfold numbersOfType. revert counts.
  induction l as [|e l IH]; intros counts; [done|].
  cbn [entityNums zip zip_with]. rewrite filter_cons, (filter_cons _ e). simpl.
  destruct (decide (ent_type e = t)) as [<-|Hne].
  - cbn [fmap list_fmap length seq]. rewrite IH, lookup_insert_eq. simpl.
    do 2 f_equal. lia.
  - by rewrite IH, lookup_insert_ne.
Qed.

Lemma numbersOfType_reverse t l nums :
  length l = length nums →
  numbersOfType t (reverse l) (reverse nums) = reverse (numbersOfType t l nums).
Proof.
  intros Hlen. unfold numbersOfType.
  by rewrite zip_reverse, filter_reverse, fmap_reverse.
Qed.

Lemma foldM_isOk {A S} (body : S → A → result S) l s :
  (∀ s x, isOk (body s x) = true) → isOk (foldM body l s) = true.
Proof.
  intros Hbody. revert s. induction l as [|x l IH]; intros s; simpl; [done|].
  specialize (Hbody s x). destruct (body s x) as [s'|]; [|done]. apply IH.
Qed.

(** Every strategy but Contextual Masking always yields a replacement. *)
Lemma replacementOf_isOk method entity entityNum :
  method ≠ "Contextual Masking" →
  isOk (replacementOf method entity entityNum) = true.
Proof.
  intros Hne. unfold replacementOf.
  destruct (String.eqb_spec method "Contextual Masking"); [done|].
  by repeat destruct (_ =? _)%string.
Qed.

Lemma applyRedaction_isOk text es method :
  method ≠ "Contextual Masking" → isOk (applyRedaction text es method) = true.
Proof.
  intros Hne. unfold applyRedaction.
  pose proof (foldM_isOk (redactStep method) (sortBy byStartDesc es)
                {| redactedText := text; entityCounts := ∅ |}) as H.
  destruct (foldM _ _ _); [done|]. apply H.
  intros s x. unfold redactStep.
  pose proof (replacementOf_isOk method x
                (default 0 (entityCounts s !! ent_type x) + 1) Hne) as Hr.
  by destruct (replacementOf _ _ _).
Qed.

(** An unknown strategy name selects the [default] branch. *)
Lemma replacementOf_unsupported method entity entityNum :
  method ∉ supportedMethods →
  replacementOf method entity entityNum = Ok (lit "[REDACTED]").
Proof.
  intros Hnot. unfold replacementOf.
  repeat match goal with
         | |- context [(method =? ?s)%string] =>
             destruct (String.eqb_spec method s) as [->|_];
             [exfalso; apply Hnot; unfold supportedMethods; set_solver|]
         end.
  done.
Qed.

End ServerRedaction.

(** ** The server pipeline, end to end *)

Section ServerPipeline.
Import ProcessPii.

Lemma PairwiseDisjoint_perm l k :
  l ≡ₚ k → PairwiseDisjoint k → PairwiseDisjoint l.
Proof.
  intros [_ (f & Hinj & Hf)]%Permutation_inj Hd i j a b Hne Ha Hb.
  rewrite Hf in Ha, Hb. apply (Hd (f i) (f j)); [|done..].
  intros Heq. by apply Hinj in Heq.
Qed.

Lemma canonicalFrom_intro pos len l :
  pos ≤ len →
  Forall (λ e, pos ≤ ent_start e ∧ ent_start e < ent_end e ∧ ent_end e ≤ len) l →
  StronglySorted (λ a b, ent_start a ≤ ent_start b) l →
  PairwiseDisjoint l →
  canonicalFrom pos len l.
Proof.
  revert pos. induction l as [|e l IH]; intros pos Hpos Hall Hs Hd; [done|].
  apply Forall_cons in Hall as [(Hp & Hw & He) Hall].
  apply StronglySorted_inv in Hs as [Hs Hle].
  simpl. split; [done|]. split; [done|]. apply IH; [done| |done|].
  - rewrite Forall_lookup in Hall, Hle. apply Forall_lookup. intros k y Hy.
    destruct (Hall k y Hy) as (_ & Hwy & Hey). specialize (Hle k y Hy). simpl in Hle.
    repeat split; [|done..].
    destruct (Hd 0 (S k) e y) as [?|?]; [lia|done|done|lia|lia].
  - intros i j a b Hne Ha Hb. apply (Hd (S i) (S j)); [lia|done..].
Qed.

(** The list handed to redaction is canonical for the text as soon as
    the scan reports non-empty spans inside the text. *)
Lemma filterOverlaps_canonical text entities :
  Forall (λ e, ent_start e < ent_end e ∧ ent_end e ≤ length text) entities →
  Canonical text (filterOverlaps entities).
Proof.
  intros Hall.
  assert (Forall wellFormed entities) as Hwf.
  { eapply Forall_impl; [exact Hall|]. by intros e [? _]. }
  unfold filterOverlaps.
  destruct (fold_filterStep_inv (sortBy byStart entities) []) as [Hd Hsub].
  - apply sortBy_byStart_sorted.
  - by rewrite sortBy_perm.
  - constructor.
  - intros x y Hx. by apply elem_of_nil in Hx.
  - intros i j a b _ Ha. by rewrite lookup_nil in Ha.
  - apply canonicalFrom_intro; [lia| |apply sortBy_byStart_sorted|].
    + apply Forall_forall. intros x [Hx|Hx]%elem_of_sortBy%Hsub;
        [by apply elem_of_nil in Hx|].
      apply elem_of_sortBy in Hx. rewrite Forall_forall in Hall.
      destruct (Hall x Hx). repeat split; [lia|done..].
    + eapply PairwiseDisjoint_perm; [apply sortBy_perm|done].
Qed.

(** Detection followed by redaction: whatever the scan finds, the text
    outside the retained spans reaches the response unchanged. *)
Lemma detectPII_applyRedaction scanPatterns text method entities out :
  (∀ candidates, scanPatterns text = Ok candidates →
     Forall (λ e, ent_start e < ent_end e ∧ ent_end e ≤ length text) candidates) →
  detectPII scanPatterns text = Ok entities →
  applyRedaction text entities method = Ok out →
  NonOverlapping entities
  ∧ ∃ replacements,
      length replacements = length entities
      ∧ out = interleave (entityFreeRegions 0 text entities) replacements.
Proof.
  intros Hscan Hdet Hred. unfold detectPII in Hdet.
  destruct (scanPatterns text) as [candidates|] eqn:Hc; [|done].
  simpl in Hdet. injection Hdet as <-.
  specialize (Hscan candidates eq_refl).
  split.
  - apply filterOverlaps_sound.
    eapply Forall_impl; [exact Hscan|]. by intros e [? _].
  - pose proof (filterOverlaps_canonical text candidates Hscan) as Hcan.
    rewrite (applyRedaction_canonical _ _ _ Hcan) in Hred.
    destruct (mapM _ _) as [rs|] eqn:Hrs; [|done].
    simpl in Hred. injection Hred as <-.
    exists (reverse rs). split; [|done].
    apply mapM_length in Hrs.
    rewrite length_zip, length_entityNums, Nat.min_id, length_reverse in Hrs.
    by rewrite length_reverse.
Qed.

End ServerPipeline.

(** ** The Dashboard's redaction *)

Section DashboardRedaction.
Import Dashboard.
Context (rnd : nat → jsstring).

Lemma substring_0 b (s : jsstring) : substring 0 b s = take b s.
Proof. unfold substring. simpl. by rewrite Nat.sub_0_r. Qed.

Lemma dashboard_redactStep_splice selectedMethod nameIndexMap t calls e :
  redactStep rnd selectedMethod nameIndexMap (t, calls) e
  = let rc := replacementFor rnd selectedMethod nameIndexMap calls e in
    (splice t (e, rc.1), rc.2).
Proof.
  unfold redactStep, splice, sliceFrom. rewrite substring_0.
  by destruct (replacementFor _ _ _ _ _).
Qed.

(** The loop is a sequence of splices, one replacement per entity. *)
Lemma dashboard_fold_redactStep selectedMethod nameIndexMap l t calls :
  ∃ rs, length rs = length l
        ∧ (fold_left (redactStep rnd selectedMethod nameIndexMap) l (t, calls)).1
          = fold_left splice (zip l rs) t.
Proof.
  revert t calls. induction l as [|e l IH]; intros t calls.
  - by exists [].
  - cbn [fold_left]. rewrite dashboard_redactStep_splice. cbn zeta.
    destruct (IH (splice t (e, (replacementFor rnd selectedMethod nameIndexMap calls e).1))
                 (replacementFor rnd selectedMethod nameIndexMap calls e).2)
      as (rs & Hlen & Hrs).
    exists ((replacementFor rnd selectedMethod nameIndexMap calls e).1 :: rs).
    split; [simpl; lia|]. by rewrite Hrs.
Qed.

(** A strategy whose replacement ignores the random source. *)
Lemma fold_redactStep_pure selectedMethod nameIndexMap (f : PIIEntity → jsstring) l t calls :
  (∀ c e, replacementFor rnd selectedMethod nameIndexMap c e = (f e, c)) →
  (fold_left (redactStep rnd selectedMethod nameIndexMap) l (t, calls)).1
  = fold_left splice (zip l (f <$> l)) t.
Proof.
  intros Hf. revert t. induction l as [|e l IH]; intros t; [done|].
  cbn [fold_left]. rewrite dashboard_redactStep_splice, Hf. cbn zeta. cbn [fst snd].
  by rewrite IH.
Qed.

Lemma dashboard_byStartDesc_key a b :
  byStartDesc a b = ((- Z.of_nat (ent_start a)) - (- Z.of_nat (ent_start b)))%Z.
Proof. unfold byStartDesc. lia. Qed.

Lemma dashboard_sortBy_canonical pos len es :
  canonicalFrom pos len es → sortBy byStartDesc es = reverse es.
Proof.
  intros [_ Hs]%canonicalFrom_starts.
  apply (sortBy_of_strictly_descending _ _ dashboard_byStartDesc_key).
  induction Hs as [|x l _ IH Hx]; constructor; [done|].
  eapply Forall_impl; [exact Hx|]. simpl. intros; lia.
Qed.

Lemma redact_canonical selectedMethod text es :
  Canonical text es →
  ∃ rs, length rs = length es
        ∧ redact rnd selectedMethod text es
          = interleave (entityFreeRegions 0 text es) rs.
Proof.
  intros Hc. unfold redact. rewrite (dashboard_sortBy_canonical _ _ _ Hc).
  destruct (dashboard_fold_redactStep selectedMethod (nameIndexMapOf es)
              (reverse es) text 0) as (rs & Hlen & ->).
  rewrite length_reverse in Hlen.
  exists (reverse rs). split; [by rewrite length_reverse|].
  rewrite <- (reverse_involutive rs) at 1.
  rewrite zip_reverse by (by rewrite length_reverse).
  rewrite (splice_descending text es (reverse rs) 0 Hc)
    by (by rewrite length_reverse).
  by rewrite take_0.
Qed.

Lemma redact_pure_canonical selectedMethod (f : PIIEntity → jsstring) text es :
  (∀ c e, replacementFor rnd selectedMethod (nameIndexMapOf es) c e = (f e, c)) →
  Canonical text es →
  redact rnd selectedMethod text es
  = interleave (entityFreeRegions 0 text es) (f <$> es).
Proof.
  intros Hf Hc. unfold redact. rewrite (dashboard_sortBy_canonical _ _ _ Hc).
  rewrite (fold_redactStep_pure _ _ f) by done.
  rewrite fmap_reverse, zip_reverse by (by rewrite length_fmap).
  rewrite (splice_descending text es (f <$> es) 0 Hc) by (by rewrite length_fmap).
  by rewrite take_0.
Qed.

(** *** [nameIndexMap] *)

Lemma setNameIndexes_other i names m key :
  key ∉ spanKey <$> names → setNameIndexes i names m !! key = m !! key.
Proof.
  revert i m. induction names as [|x names IH]; intros i m Hnot; [done|].
  rewrite fmap_cons, not_elem_of_cons in Hnot. destruct Hnot as [Hne Hnot].
  simpl. rewrite IH by done. by rewrite lookup_insert_ne.
Qed.

Lemma setNameIndexes_lookup i names m j e :
  NoDup (spanKey <$> names) → names !! j = Some e →
  setNameIndexes i names m !! spanKey e = Some (i + j + 1).
Proof.
  revert i m j. induction names as [|x names IH]; intros i m j Hnd Hj; [done|].
  rewrite fmap_cons in Hnd. apply NoDup_cons in Hnd as [Hx Hnd].
  destruct j as [|j]; simpl in Hj.
  - injection Hj as ->. simpl. rewrite setNameIndexes_other by done.
    rewrite lookup_insert_eq. f_equal. lia.
  - simpl. rewrite (IH _ _ j) by done. f_equal. lia.
Qed.

Lemma sorted_starts_distinct_spans l :
  StronglySorted (λ a b, ent_start a < ent_start b) l → NoDup (spanKey <$> l).
Proof.
  induction 1 as [|x l _ IH Hx]; [constructor|].
  rewrite fmap_cons. apply NoDup_cons. split; [|done].
  intros (y & Hk & Hy)%list_elem_of_fmap.
  rewrite Forall_forall in Hx. specialize (Hx y Hy).
  unfold spanKey in Hk. injection Hk as Hk _. lia.
Qed.

Lemma sorted_starts_filter (P : PIIEntity → Prop) `{∀ x, Decision (P x)} l :
  StronglySorted (λ a b, ent_start a < ent_start b) l →
  StronglySorted (λ a b, ent_start a < ent_start b) (filter P l).
Proof.
  induction 1 as [|x l _ IH Hx]; [constructor|].
  rewrite filter_cons. destruct (decide (P x)); [|done].
  constructor; [done|].
  apply Forall_forall. intros y [_ Hy]%list_elem_of_filter.
  by eapply Forall_forall in Hx.
Qed.

Lemma byStartAsc_key a b :
  byStartAsc a b = (Z.of_nat (ent_start a) - Z.of_nat (ent_start b))%Z.
Proof. done. Qed.

(** In a canonical list the [NAME] entities are already in order. *)
Lemma nameEntitiesInOrder_canonical pos len es :
  canonicalFrom pos len es →
  nameEntitiesInOrder es = filter (λ e, ent_type e = "NAME") es
  ∧ NoDup (spanKey <$> filter (λ e, ent_type e = "NAME") es).
Proof.
  intros [_ Hs]%canonicalFrom_starts.
  pose proof (sorted_starts_filter (λ e, ent_type e = "NAME") es Hs) as Hf.
  split; [|by apply sorted_starts_distinct_spans].
  unfold nameEntitiesInOrder.
  apply (sortBy_of_sorted _ _ byStartAsc_key).
  induction Hf as [|x l _ IH Hx]; constructor; [done|].
  eapply Forall_impl; [exact Hx|]. simpl. intros; lia.
Qed.

(** With every [NAME] entity mapped to its rank, the placeholders are
    those of [dashboardPlaceholders]. *)
Lemma smartPlaceholder_ranks nameIndexMap k es :
  (∀ j e, filter (λ e, ent_type e = "NAME") es !! j = Some e →
          nameIndexMap !! spanKey e = Some (k + j + 1)) →
  smartPlaceholder nameIndexMap <$> es = dashboardPlaceholders k es.
Proof.
  revert k. induction es as [|e es IH]; intros k Hrank; [done|].
  rewrite fmap_cons. cbn [dashboardPlaceholders]. unfold smartPlaceholder at 1.
  rewrite filter_cons in Hrank.
  destruct (String.eqb_spec (ent_type e) "NAME") as [Heq|Hne].
  - destruct (decide (ent_type e = "NAME")); [|done].
    unfold nameIndex. rewrite (Hrank 0 e eq_refl).
    replace (k + 0 + 1) with (S k) by lia. f_equal.
    apply IH. intros j e' Hj. rewrite (Hrank (S j) e' Hj). f_equal. lia.
  - destruct (decide (ent_type e = "NAME")); [done|].
    f_equal. by apply IH.
Qed.

Lemma redact_smart_placeholders text es :
  Canonical text es →
  redact rnd "Smart Placeholders" text es
  = interleave (entityFreeRegions 0 text es) (dashboardPlaceholders 0 es).
Proof.
  intros Hc.
  rewrite (redact_pure_canonical _ (smartPlaceholder (nameIndexMapOf es))) by done.
  f_equal. apply smartPlaceholder_ranks. intros j e Hj.
  destruct (nameEntitiesInOrder_canonical _ _ _ Hc) as [Hnames Hnd].
  unfold nameIndexMapOf. rewrite Hnames.
  by apply setNameIndexes_lookup.
Qed.

(** An unknown strategy name falls through to the placeholder branch. *)
Lemma replacementFor_unsupported selectedMethod nameIndexMap calls e :
  selectedMethod ∉ dashboardMethods →
  replacementFor rnd selectedMethod nameIndexMap calls e
  = replacementFor rnd "Smart Placeholders" nameIndexMap calls e.
Proof.
  intros Hnot. unfold replacementFor.
  repeat match goal with
         | |- context [(selectedMethod =? ?s)%string] =>
             destruct (String.eqb_spec selectedMethod s) as [->|_];
             [exfalso; apply Hnot; unfold dashboardMethods; set_solver|]
         end.
  done.
Qed.

Lemma redact_unsupported selectedMethod text es :
  selectedMethod ∉ dashboardMethods →
  redact rnd selectedMethod text es = redact rnd "Smart Placeholders" text es.
Proof.
  intros Hnot. unfold redact. f_equal.
  generalize (text, 0). induction (sortBy byStartDesc es) as [|e l IH];
    intros st; [done|].
  cbn [fold_left]. rewrite <- IH. f_equal.
  destruct st as [t c]. unfold redactStep.
  by rewrite replacementFor_unsupported.
Qed.

End DashboardRedaction.

(** ** Redaction theorems *)

Section RedactionFacts.

Lemma zip_with_uncurry {A B C} (f : A → B → C) l k :
  (λ ab, f ab.1 ab.2) <$> zip l k = zip_with f l k.
Proof.
  revert k. induction l as [|x l IH]; intros [|y k]; try done.
  cbn [zip zip_with fmap list_fmap]. f_equal. apply IH.
Qed.

Lemma fmap_const_replicate {A B} (c : B) (l : list A) :
  (λ _, c) <$> l = replicate (length l) c.
Proof. induction l as [|x l IH]; simpl; [done|]. by rewrite <- IH. Qed.

Lemma reverse_replicate {A} n (c : A) : reverse (replicate n c) = replicate n c.
Proof.
  induction n as [|n IH]; [done|].
  cbn [replicate]. rewrite reverse_cons, IH.
  clear IH. induction n as [|n IH]; [done|]. simpl. by rewrite IH.
Qed.

(** The regions are the complement of the spans: put the entities' own
    text back and the original text reappears. *)
Lemma interleave_original pos text es :
  canonicalFrom pos (length text) es →
  interleave (entityFreeRegions pos text es)
             ((λ e, substring (ent_start e) (ent_end e) text) <$> es)
  = drop pos text.
Proof.
  revert pos. induction es as [|e es IH]; intros pos; [done|].
  intros (Hp & He & Hrest). cbn [entityFreeRegions fmap list_fmap interleave].
  rewrite (IH _ Hrest). unfold substring.
  rewrite !Nat.min_l, !Nat.max_r by lia.
  transitivity (take (ent_start e - pos) (drop pos text)
                ++ drop (ent_start e - pos) (drop pos text));
    [|apply take_drop].
  f_equal. rewrite drop_drop.
  replace (pos + (ent_start e - pos)) with (ent_start e) by lia.
  transitivity (take (ent_end e - ent_start e) (drop (ent_start e) text)
                ++ drop (ent_end e - ent_start e) (drop (ent_start e) text));
    [|apply take_drop].
  f_equal. rewrite drop_drop. f_equal. lia.
Qed.

End RedactionFacts.

(** C3. For a canonical entity list over the text, the redacted text
    is the original text's entity-free regions, verbatim and in order,
    with one replacement between consecutive regions; this holds for
    every strategy of the server (whenever it returns, which every
    strategy but Contextual Masking always does) and of the Dashboard. *)
Theorem redaction_preserves_entity_free_regions :
  (∀ text es method out,
     Canonical text es →
     ProcessPii.applyRedaction text es method = Ok out →
     ∃ replacements,
       length replacements = length es
       ∧ out = interleave (entityFreeRegions 0 text es) replacements)
  ∧ (∀ text es method,
       method ≠ "Contextual Masking" →
       ∃ out, ProcessPii.applyRedaction text es method = Ok out)
  ∧ (∀ rnd selectedMethod text es,
       Canonical text es →
       ∃ replacements,
         length replacements = length es
         ∧ Dashboard.redact rnd selectedMethod text es
           = interleave (entityFreeRegions 0 text es) replacements)
  ∧ (∀ text es,
       Canonical text es →
       interleave (entityFreeRegions 0 text es)
                  ((λ e, substring (ent_start e) (ent_end e) text) <$> es)
       = text).
Proof.
  split; [|split; [|split]].
  - intros text es method out Hc Hout.
    rewrite (applyRedaction_canonical _ _ _ Hc) in Hout.
    destruct (mapM _ _) as [rs|] eqn:Hrs; [|done].
    simpl in Hout. injection Hout as <-.
    exists (reverse rs). split; [|done].
    apply mapM_length in Hrs.
    rewrite length_zip, length_entityNums, Nat.min_id, length_reverse in Hrs.
    by rewrite length_reverse.
  - intros text es method Hne.
    pose proof (applyRedaction_isOk text es method Hne) as H.
    destruct (ProcessPii.applyRedaction text es method) as [out|]; [eauto|done].
  - intros rnd selectedMethod text es Hc. by apply redact_canonical.
  - intros text es Hc. by rewrite (interleave_original 0 text es Hc).
Qed.

Lemma redaction_preserves_entity_free_regions_witness :
  (∃ replacements,
     length replacements = 2
     ∧ lit "Mail a***@b.co or c***@d.org now"
       = interleave
           (entityFreeRegions 0 (lit "Mail a@b.co or c@d.org now")
              [ mkEntity "EMAIL_ADDRESS" (lit "a@b.co") 5 11 0.96 high;
                mkEntity "EMAIL_ADDRESS" (lit "c@d.org") 15 22 0.96 high ])
           replacements)
  ∧ (∃ out,
       ProcessPii.applyRedaction (lit "Mail a@b.co or c@d.org now")
         [ mkEntity "EMAIL_ADDRESS" (lit "a@b.co") 5 11 0.96 high;
           mkEntity "EMAIL_ADDRESS" (lit "c@d.org") 15 22 0.96 high ]
         "Synthetic Data" = Ok out)
  ∧ (∃ replacements,
       length replacements = 2
       ∧ Dashboard.redact Samples.countingRnd "Tokenization"
           (lit "Mail a@b.co or c@d.org now")
           [ mkEntity "EMAIL" (lit "a@b.co") 5 11 0.98 high;
             mkEntity "EMAIL" (lit "c@d.org") 15 22 0.98 high ]
         = interleave
             (entityFreeRegions 0 (lit "Mail a@b.co or c@d.org now")
                [ mkEntity "EMAIL" (lit "a@b.co") 5 11 0.98 high;
                  mkEntity "EMAIL" (lit "c@d.org") 15 22 0.98 high ])
             replacements).
Proof.
  split; [|split].
  - apply (proj1 redaction_preserves_entity_free_regions
             (lit "Mail a@b.co or c@d.org now")
             [ mkEntity "EMAIL_ADDRESS" (lit "a@b.co") 5 11 0.96 high;
               mkEntity "EMAIL_ADDRESS" (lit "c@d.org") 15 22 0.96 high ]
             "Partial Visibility").
    + unfold Canonical. simpl. lia.
    + vm_compute. reflexivity.
  - apply (proj1 (proj2 redaction_preserves_entity_free_regions)). discriminate.
  - apply (proj1 (proj2 (proj2 redaction_preserves_entity_free_regions))
             Samples.countingRnd "Tokenization"
             (lit "Mail a@b.co or c@d.org now")
             [ mkEntity "EMAIL" (lit "a@b.co") 5 11 0.98 high;
               mkEntity "EMAIL" (lit "c@d.org") 15 22 0.98 high ]).
    unfold Canonical. simpl. lia.
Defined.

(** C2 (as amended). Under Smart Placeholders the server emits, for
    entities typed by keys of [PII_PATTERNS] (the types [detectPII]
    assigns), [[<TYPE>_<nn>]], the number zero-padded to two digits, and
    the entities of each type receive the numbers 1 to k, each once,
    independently of the other types; the Dashboard numbers only the
    [NAME] entities, from 1 in ascending start order, through a map
    filled before any rewriting, emits [[NAME_<i>]] without padding and
    the bare [[<TYPE>]] for every other type. *)
Theorem smart_placeholder_numbering :
  (∀ text es,
     Canonical text es →
     Forall (λ e, ent_type e ∈ ProcessPii.piiPatternTypes) es →
     ∃ nums,
       length nums = length es
       ∧ ProcessPii.applyRedaction text es "Smart Placeholders"
         = Ok (interleave (entityFreeRegions 0 text es)
                          (zip_with serverPlaceholder es nums))
       ∧ ∀ t, numbersOfType t es nums
              ≡ₚ seq 1 (length (filter (λ e, ent_type e = t) es)))
  ∧ (∀ rnd text es,
       Canonical text es →
       Dashboard.redact rnd "Smart Placeholders" text es
       = interleave (entityFreeRegions 0 text es) (dashboardPlaceholders 0 es)).
Proof.
  split.
  - intros text es Hc _.
    exists (reverse (entityNums ∅ (reverse es))).
    assert (length (entityNums ∅ (reverse es)) = length es) as Hlen
      by (by rewrite length_entityNums, length_reverse).
    split; [by rewrite length_reverse|]. split.
    + rewrite (applyRedaction_canonical _ _ _ Hc).
      rewrite (mapM_ext _ (λ en, Ok (serverPlaceholder en.1 en.2))) by done.
      rewrite mapM_Ok. simpl. do 2 f_equal.
      rewrite <- (reverse_involutive (entityNums ∅ (reverse es))) at 1.
      rewrite zip_reverse by (by rewrite !length_reverse).
      rewrite fmap_reverse, reverse_involutive.
      apply zip_with_uncurry.
    + intros t.
      rewrite <- (reverse_involutive es) at 1.
      rewrite numbersOfType_reverse by (by rewrite length_reverse).
      rewrite entityNums_of_type, lookup_empty. simpl.
      rewrite filter_reverse, length_reverse. apply reverse_Permutation.
  - intros rnd text es Hc. by apply redact_smart_placeholders.
Qed.

Lemma smart_placeholder_numbering_witness :
  (∃ nums,
     length nums = 3
     ∧ ProcessPii.applyRedaction (lit "Ann Lee: a@b.co or c@d.org")
         [ mkEntity "PERSON" (lit "Ann Lee") 0 7 0.95 high;
           mkEntity "EMAIL_ADDRESS" (lit "a@b.co") 9 15 0.96 high;
           mkEntity "EMAIL_ADDRESS" (lit "c@d.org") 19 26 0.96 high ]
         "Smart Placeholders"
       = Ok (interleave
               (entityFreeRegions 0 (lit "Ann Lee: a@b.co or c@d.org")
                  [ mkEntity "PERSON" (lit "Ann Lee") 0 7 0.95 high;
                    mkEntity "EMAIL_ADDRESS" (lit "a@b.co") 9 15 0.96 high;
                    mkEntity "EMAIL_ADDRESS" (lit "c@d.org") 19 26 0.96 high ])
               (zip_with serverPlaceholder
                  [ mkEntity "PERSON" (lit "Ann Lee") 0 7 0.95 high;
                    mkEntity "EMAIL_ADDRESS" (lit "a@b.co") 9 15 0.96 high;
                    mkEntity "EMAIL_ADDRESS" (lit "c@d.org") 19 26 0.96 high ]
                  nums)))
  ∧ Dashboard.redact Samples.countingRnd "Smart Placeholders"
      (lit "Ann Lee mailed a@b.co and Bob Ray")
      [ mkEntity "NAME" (lit "Ann Lee") 0 7 0.95 high;
        mkEntity "EMAIL" (lit "a@b.co") 15 21 0.98 high;
        mkEntity "NAME" (lit "Bob Ray") 26 33 0.95 high ]
    = lit "[NAME_1] mailed [EMAIL] and [NAME_2]".
Proof.
  split.
  - destruct (proj1 smart_placeholder_numbering
                (lit "Ann Lee: a@b.co or c@d.org")
                [ mkEntity "PERSON" (lit "Ann Lee") 0 7 0.95 high;
                  mkEntity "EMAIL_ADDRESS" (lit "a@b.co") 9 15 0.96 high;
                  mkEntity "EMAIL_ADDRESS" (lit "c@d.org") 19 26 0.96 high ])
      as (nums & Hlen & Hout & _).
    + unfold Canonical. simpl. lia.
    + repeat constructor; apply (bool_decide_unpack _); by vm_compute.
    + exists nums. by split.
  - rewrite (proj2 smart_placeholder_numbering).
    + reflexivity.
    + unfold Canonical. simpl. lia.
Defined.

(** With two e-mail addresses the server numbers the later one 01 and
    the earlier one 02, and the Dashboard numbers neither. *)
Lemma two_emails_not_numbered_in_order :
  ProcessPii.applyRedaction (lit "Mail a@b.co or c@d.org now")
    [ mkEntity "EMAIL_ADDRESS" (lit "a@b.co") 5 11 0.96 high;
      mkEntity "EMAIL_ADDRESS" (lit "c@d.org") 15 22 0.96 high ]
    "Smart Placeholders"
  = Ok (lit "Mail [EMAIL_ADDRESS_02] or [EMAIL_ADDRESS_01] now")
  ∧ ProcessPii.applyRedaction (lit "Mail a@b.co or c@d.org now")
      [ mkEntity "EMAIL_ADDRESS" (lit "a@b.co") 5 11 0.96 high;
        mkEntity "EMAIL_ADDRESS" (lit "c@d.org") 15 22 0.96 high ]
      "Smart Placeholders"
    ≠ Ok (lit "Mail [EMAIL_ADDRESS_01] or [EMAIL_ADDRESS_02] now")
  ∧ Dashboard.redact Samples.countingRnd "Smart Placeholders"
      (lit "Mail a@b.co or c@d.org now")
      [ mkEntity "EMAIL" (lit "a@b.co") 5 11 0.98 high;
        mkEntity "EMAIL" (lit "c@d.org") 15 22 0.98 high ]
    = lit "Mail [EMAIL] or [EMAIL] now".
Proof. split; [by vm_compute|]. split; [by vm_compute|by vm_compute]. Qed.

(** C4 (as amended). A strategy name outside the supported set does not
    make redaction fail: the server replaces every span by the fixed
    token [[REDACTED]], and the Dashboard treats the name as Smart
    Placeholders. *)
Theorem unknown_strategy_falls_back :
  (∀ text es method,
     method ∉ ProcessPii.supportedMethods →
     (∃ out, ProcessPii.applyRedaction text es method = Ok out)
     ∧ (Canonical text es →
        ProcessPii.applyRedaction text es method
        = Ok (interleave (entityFreeRegions 0 text es)
                         (replicate (length es) (lit "[REDACTED]")))))
  ∧ (∀ rnd text es selectedMethod,
       selectedMethod ∉ dashboardMethods →
       Dashboard.redact rnd selectedMethod text es
       = Dashboard.redact rnd "Smart Placeholders" text es).
Proof.
  split.
  - intros text es method Hnot. split.
    + assert (method ≠ "Contextual Masking") as Hne.
      { intros ->. apply Hnot. unfold ProcessPii.supportedMethods. set_solver. }
      pose proof (applyRedaction_isOk text es method Hne) as H.
      destruct (ProcessPii.applyRedaction text es method) as [out|]; [eauto|done].
    + intros Hc. rewrite (applyRedaction_canonical _ _ _ Hc).
      rewrite (mapM_ext _ (λ _, Ok (lit "[REDACTED]")))
        by (intros [e n]; by apply replacementOf_unsupported).
      rewrite mapM_Ok, fmap_const_replicate. simpl. do 2 f_equal.
      rewrite reverse_replicate. f_equal.
      by rewrite length_zip, length_entityNums, Nat.min_id, length_reverse.
  - intros rnd text es selectedMethod Hnot. by apply redact_unsupported.
Qed.

Lemma unknown_strategy_falls_back_witness :
  (∃ out,
     ProcessPii.applyRedaction (lit "Mail a@b.co or c@d.org now")
       [ mkEntity "EMAIL_ADDRESS" (lit "a@b.co") 5 11 0.96 high;
         mkEntity "EMAIL_ADDRESS" (lit "c@d.org") 15 22 0.96 high ]
       "Complete Removal" = Ok out)
  ∧ Dashboard.redact Samples.countingRnd "Contextual Masking"
      (lit "Mail a@b.co or c@d.org now")
      [ mkEntity "EMAIL" (lit "a@b.co") 5 11 0.98 high;
        mkEntity "EMAIL" (lit "c@d.org") 15 22 0.98 high ]
    = Dashboard.redact Samples.countingRnd "Smart Placeholders"
        (lit "Mail a@b.co or c@d.org now")
        [ mkEntity "EMAIL" (lit "a@b.co") 5 11 0.98 high;
          mkEntity "EMAIL" (lit "c@d.org") 15 22 0.98 high ].
Proof.
  split.
  - apply (proj1 unknown_strategy_falls_back).
    apply (bool_decide_unpack _). by vm_compute.
  - apply (proj2 unknown_strategy_falls_back).
    apply (bool_decide_unpack _). by vm_compute.
Defined.

(** The server accepts the unknown name "Complete Removal" (a strategy
    of the Dashboard only) and answers with [[REDACTED]] tokens; the
    Dashboard accepts "Contextual Masking" (a strategy of the server
    only) and answers with placeholders. *)
Lemma unknown_strategy_does_not_fail :
  ProcessPii.applyRedaction (lit "Mail a@b.co or c@d.org now")
    [ mkEntity "EMAIL_ADDRESS" (lit "a@b.co") 5 11 0.96 high;
      mkEntity "EMAIL_ADDRESS" (lit "c@d.org") 15 22 0.96 high ]
    "Complete Removal"
  = Ok (lit "Mail [REDACTED] or [REDACTED] now")
  ∧ ("Complete Removal" ∉ ProcessPii.supportedMethods)
  ∧ Dashboard.redact Samples.countingRnd "Contextual Masking"
      (lit "Mail a@b.co or c@d.org now")
      [ mkEntity "EMAIL" (lit "a@b.co") 5 11 0.98 high;
        mkEntity "EMAIL" (lit "c@d.org") 15 22 0.98 high ]
    = lit "Mail [EMAIL] or [EMAIL] now"
  ∧ ("Contextual Masking" ∉ dashboardMethods).
Proof.
  split; [by vm_compute|].
  split; [apply (bool_decide_unpack _); by vm_compute|].
  split; [by vm_compute|].
  apply (bool_decide_unpack _); by vm_compute.
Qed.

(** ** The handlers *)

Section Handlers.
Import Ner Dashboard.

Lemma getPersonEntities_nonblank loadPipeline text :
  trim text ≠ [] →
  getPersonEntities loadPipeline text
  = (ner ← loadPipeline;
     output ← ner text;
     Ok (dedupeBySpan ∅
           (omap (λ ent,
                    let group := toUpperCase (ner_group ent) in
                    if bool_decide (group = lit "PER")
                       || bool_decide (group = lit "PERSON")
                    then Some {| person_text := ner_word ent;
                                 person_start := ner_start ent;
                                 person_end := ner_end ent;
                                 person_confidence := clampScore (ner_score ent) |}
                    else None) output))).
Proof.
  intros Hne. unfold getPersonEntities.
  rewrite (bool_decide_eq_false_2 (trim text = [])) by done.
  rewrite bool_decide_eq_false_2; [done|]. by intros ->.
Qed.

Lemma handleTextSubmit_nonblank execAll loadPipeline rnd selectedMethod text :
  trim text ≠ [] →
  handleTextSubmit execAll loadPipeline rnd selectedMethod text
  = match getPersonEntities loadPipeline text with
    | Ok nerPersons =>
        let entities :=
          mergeEntities (detectEnhancedPII execAll text)
                        (nerNameEntity <$> nerPersons) in
        ProcessingComplete
          {| originalText := text;
             redactedText := redact rnd selectedMethod text entities;
             entities := entities;
             method := selectedMethod |}
    | Err _ => ProcessingFailed
    end.
Proof.
  intros Hne. unfold handleTextSubmit.
  rewrite bool_decide_eq_false_2 by done.
  by destruct (getPersonEntities loadPipeline text).
Qed.

End Handlers.

(** C5 (as amended). Empty input is turned away before detection runs:
    the server answers 400 "Text is required" when the text member is
    missing or empty, and the Dashboard stops with its "No Text
    Provided" notice when the text is empty or blank.  Redaction over an
    empty entity list returns the text unchanged. *)
Theorem empty_text_is_turned_away :
  (∀ scanPatterns persist req body,
     ProcessPii.req_method req ≠ "OPTIONS" →
     ProcessPii.req_json req = Ok body →
     ProcessPii.isTruthyText (ProcessPii.body_text body) = false →
     ProcessPii.serve scanPatterns persist req
     = ProcessPii.ErrorResponse 400 "Text is required")
  ∧ (∀ execAll loadPipeline rnd selectedMethod text,
       trim text = [] →
       Dashboard.handleTextSubmit execAll loadPipeline rnd selectedMethod text
       = Dashboard.NoTextProvided)
  ∧ (∀ text method, ProcessPii.applyRedaction text [] method = Ok text)
  ∧ (∀ rnd selectedMethod text, Dashboard.redact rnd selectedMethod text [] = text).
Proof.
  split; [|split; [|split]].
  - intros scanPatterns persist req body Hm Hjson Hfalsy.
    unfold ProcessPii.serve. rewrite Hjson.
    destruct (String.eqb_spec (ProcessPii.req_method req) "OPTIONS"); [done|].
    simpl. unfold ProcessPii.process. by rewrite Hfalsy.
  - intros execAll loadPipeline rnd selectedMethod text Hblank.
    unfold Dashboard.handleTextSubmit. by rewrite bool_decide_eq_true_2.
  - done.
  - done.
Qed.

Lemma empty_text_is_turned_away_witness :
  ProcessPii.serve Samples.emptyScan Samples.acceptingStore
    {| ProcessPii.req_method := "POST";
       ProcessPii.req_json :=
         Ok {| ProcessPii.body_text := ProcessPii.TextFalsy;
               ProcessPii.body_documentId := None;
               ProcessPii.body_redactionMethod := Some "Smart Placeholders" |} |}
  = ProcessPii.ErrorResponse 400 "Text is required"
  ∧ Dashboard.handleTextSubmit (Samples.scanOf []) (Samples.modelOf [])
      Samples.countingRnd "Smart Placeholders" (lit "   ")
    = Dashboard.NoTextProvided.
Proof.
  split.
  - eapply (proj1 empty_text_is_turned_away); [by vm_compute|reflexivity..].
  - apply (proj1 (proj2 empty_text_is_turned_away)). reflexivity.
Defined.

(** A request whose text is the empty string is answered with an error
    response, not with a result; the Dashboard produces no result for
    it either. *)
Lemma empty_text_is_an_error :
  ProcessPii.serve Samples.emptyScan Samples.acceptingStore
    {| ProcessPii.req_method := "POST";
       ProcessPii.req_json :=
         Ok {| ProcessPii.body_text := ProcessPii.TextString [];
               ProcessPii.body_documentId := None;
               ProcessPii.body_redactionMethod := None |} |}
  = ProcessPii.ErrorResponse 400 "Text is required"
  ∧ (∀ result,
       ProcessPii.serve Samples.emptyScan Samples.acceptingStore
         {| ProcessPii.req_method := "POST";
            ProcessPii.req_json :=
              Ok {| ProcessPii.body_text := ProcessPii.TextString [];
                    ProcessPii.body_documentId := None;
                    ProcessPii.body_redactionMethod := None |} |}
       ≠ ProcessPii.ResultResponse result)
  ∧ Dashboard.handleTextSubmit (Samples.scanOf []) (Samples.modelOf [])
      Samples.countingRnd "Smart Placeholders" []
    = Dashboard.NoTextProvided.
Proof. split; [done|]. split; [done|done]. Qed.

(** C6 (as amended). When the recognizer cannot be loaded or its call
    fails, [getPersonEntities] fails, and [handleTextSubmit] catches
    the failure, reports "Processing Failed" and produces no result:
    the pattern-based entities are discarded with it and nothing is
    rethrown.  A recognizer that returns no person lets the pipeline
    complete on the pattern-based entities alone. *)
Theorem recognizer_failure_aborts_processing :
  (∀ loadPipeline text e,
     trim text ≠ [] → loadPipeline = Err e →
     Ner.getPersonEntities loadPipeline text = Err e)
  ∧ (∀ model text e,
       trim text ≠ [] → model text = Err e →
       Ner.getPersonEntities (Ok model) text = Err e)
  ∧ (∀ execAll loadPipeline rnd selectedMethod text e,
       trim text ≠ [] →
       Ner.getPersonEntities loadPipeline text = Err e →
       Dashboard.handleTextSubmit execAll loadPipeline rnd selectedMethod text
       = Dashboard.ProcessingFailed)
  ∧ (∀ execAll loadPipeline rnd selectedMethod text,
       trim text ≠ [] →
       Ner.getPersonEntities loadPipeline text = Ok [] →
       ∃ result,
         Dashboard.handleTextSubmit execAll loadPipeline rnd selectedMethod text
         = Dashboard.ProcessingComplete result
         ∧ Dashboard.entities result
           = Dashboard.mergeEntities (detectEnhancedPII execAll text) []).
Proof.
  split; [|split; [|split]].
  - intros loadPipeline text e Hne ->. by rewrite getPersonEntities_nonblank.
  - intros model text e Hne Hcall. rewrite getPersonEntities_nonblank by done.
    simpl. by rewrite Hcall.
  - intros execAll loadPipeline rnd selectedMethod text e Hne Hner.
    rewrite handleTextSubmit_nonblank by done. by rewrite Hner.
  - intros execAll loadPipeline rnd selectedMethod text Hne Hner.
    rewrite handleTextSubmit_nonblank by done. rewrite Hner. eauto.
Qed.

Lemma recognizer_failure_aborts_processing_witness :
  Ner.getPersonEntities Samples.modelUnavailable (lit "Mail a@b.co now")
  = Err (Rejected "failed to fetch model")
  ∧ Ner.getPersonEntities Samples.modelFailing (lit "Mail a@b.co now")
    = Err (Rejected "inference failed")
  ∧ Dashboard.handleTextSubmit
      (Samples.scanOf [("email", (5, lit "a@b.co"))]) Samples.modelFailing
      Samples.countingRnd "Smart Placeholders" (lit "Mail a@b.co now")
    = Dashboard.ProcessingFailed
  ∧ ∃ result,
      Dashboard.handleTextSubmit
        (Samples.scanOf [("email", (5, lit "a@b.co"))]) (Samples.modelOf [])
        Samples.countingRnd "Smart Placeholders" (lit "Mail a@b.co now")
      = Dashboard.ProcessingComplete result.
Proof.
  split; [|split; [|split]].
  - apply (proj1 recognizer_failure_aborts_processing); [by vm_compute|reflexivity].
  - apply (proj1 (proj2 recognizer_failure_aborts_processing));
      [by vm_compute|reflexivity].
  - apply (proj1 (proj2 (proj2 recognizer_failure_aborts_processing))
             _ _ _ _ _ (Rejected "inference failed"));
      [by vm_compute|reflexivity].
  - destruct (proj2 (proj2 (proj2 recognizer_failure_aborts_processing))
                (Samples.scanOf [("email", (5, lit "a@b.co"))])
                (Samples.modelOf []) Samples.countingRnd "Smart Placeholders"
                (lit "Mail a@b.co now")) as (result & Hres & _);
      [by vm_compute|reflexivity|].
    by exists result.
Defined.

(** With the recognizer unavailable the e-mail address found by the
    pattern scan is lost: the Dashboard reports a failure, while the
    same text with a working recognizer is redacted. *)
Lemma recognizer_failure_loses_pattern_entities :
  Dashboard.handleTextSubmit
    (Samples.scanOf [("email", (5, lit "a@b.co"))]) Samples.modelUnavailable
    Samples.countingRnd "Smart Placeholders" (lit "Mail a@b.co now")
  = Dashboard.ProcessingFailed
  ∧ Dashboard.handleTextSubmit
      (Samples.scanOf [("email", (5, lit "a@b.co"))]) (Samples.modelOf [])
      Samples.countingRnd "Smart Placeholders" (lit "Mail a@b.co now")
    = Dashboard.ProcessingComplete
        {| Dashboard.originalText := lit "Mail a@b.co now";
           Dashboard.redactedText := lit "Mail [EMAIL] now";
           Dashboard.entities :=
             [ mkEntity "EMAIL" (lit "a@b.co") 5 11 0.98 high ];
           Dashboard.method := "Smart Placeholders" |}.
Proof. split; by vm_compute. Qed.

(* ================================================================== *)
(** * Further properties of the code *)
(* ================================================================== *)

Import Reports Laws.


Section ValidatorFacts.

Lemma isDigit_range c : isDigit c = true ↔ (48 ≤ c ≤ 57)%Z.
Proof. unfold isDigit. rewrite andb_true_iff, !Z.leb_le. done. Qed.

Lemma cleaned_digits (s : jsstring) :
  Forall (λ c, (48 ≤ c ≤ 57)%Z) (filter (λ c, isDigit c = true) s).
Proof.
  apply Forall_forall. intros c [Hc _]%list_elem_of_filter.
  by apply isDigit_range.
Qed.

End ValidatorFacts.

(** X1. [isValidSSN] accepts exactly the strings whose digits, all other
    characters dropped, are nine in number with an area that is none of
    000, 666 and 900-999, a group other than 00 and a serial other than
    0000. *)
Theorem isValidSSN_numeric ssn : isValidSSN ssn = validSSNDigits (digitsOf ssn).
Proof.
  unfold isValidSSN, validSSNDigits, digitsOf.
  pose proof (cleaned_digits ssn) as Hd.
  set (cleaned := filter _ ssn) in *. clearbody cleaned.
  rewrite length_fmap.
  destruct (length cleaned =? 9) eqn:Hlen; simpl; [|done].
  apply Nat.eqb_eq in Hlen.
  do 9 (destruct cleaned as [|? cleaned]; [done|]).
  destruct cleaned; [|done]. clear Hlen.
  repeat match goal with H : Forall _ (_ :: _) |- _ => apply Forall_cons in H as [? H] end.
  clear Hd.
  change (lit "000") with [48;48;48]%Z.
  change (lit "666") with [54;54;54]%Z.
  change (lit "9") with [57]%Z.
  change (lit "00") with [48;48]%Z.
  change (lit "0000") with [48;48;48;48]%Z.
  cbn [substring Nat.min Nat.max Nat.sub take drop fmap list_fmap digitsValue fold_left].
  repeat case_bool_decide; simpl;
    repeat match goal with
           | |- context [(?a =? ?b)%Z] => destruct (Z.eqb_spec a b)
           | |- context [(?a <? ?b)%Z] => destruct (Z.ltb_spec a b)
           end;
    simpl; try done;
    try (simplify_eq; lia);
    exfalso;
    match goal with H : _ ≠ _ |- _ => apply H; repeat f_equal; lia end.
Qed.


(** X2. Characters that are not decimal digits do not influence
    [isValidCreditCard] or [isValidSSN], wherever they stand. *)
Theorem validators_ignore_separators s1 c s2 :
  isDigit c = false →
  isValidCreditCard (s1 ++ c :: s2) = isValidCreditCard (s1 ++ s2)
  ∧ isValidSSN (s1 ++ c :: s2) = isValidSSN (s1 ++ s2).
Proof.
  intros Hc.
  assert (filter (λ c, isDigit c = true) (s1 ++ c :: s2)
          = filter (λ c, isDigit c = true) (s1 ++ s2)) as Heq.
  { rewrite !filter_app, filter_cons_False; [done|]. by rewrite Hc. }
  unfold isValidCreditCard, isValidSSN. by rewrite Heq.
Qed.

Lemma validators_ignore_separators_witness :
  isValidCreditCard (lit "4111" ++ 45%Z :: lit "111111111111")
  = isValidCreditCard (lit "4111" ++ lit "111111111111")
  ∧ isValidSSN (lit "4111" ++ 45%Z :: lit "111111111111")
    = isValidSSN (lit "4111" ++ lit "111111111111").
Proof.
  apply (validators_ignore_separators (lit "4111") 45 (lit "111111111111")).
  reflexivity.
Defined.

Section LuhnErrors.

Lemma luhn_sum_split a d b :
  (fold_left luhnStep (reverse (a ++ d :: b)) (0%Z, false)).1
  = let st := fold_left luhnStep (reverse b) (0%Z, false) in
    ((st.1 + (if st.2 then luhnDouble (d - 48) else (d - 48)%Z))
     + (fold_left luhnStep (reverse a) (0%Z, negb st.2)).1)%Z.
Proof.
  rewrite reverse_app, reverse_cons, <- app_assoc, !fold_left_app. simpl.
  destruct (fold_left luhnStep (reverse b) (0%Z, false)) as [sb eb].
  rewrite luhnStep_digit, fold_luhnStep.
  rewrite (fold_luhnStep (reverse a) 0). simpl. lia.
Qed.

End LuhnErrors.

(** X3. Replacing one digit of a number accepted by [isValidCreditCard] by a
    different digit gives a number it rejects. *)
Theorem luhn_detects_single_digit_error s1 d d' s2 :
  isDigit d = true → isDigit d' = true → d ≠ d' →
  isValidCreditCard (s1 ++ d :: s2) = true →
  isValidCreditCard (s1 ++ d' :: s2) = false.
Proof.
  intros Hd Hd' Hne. unfold isValidCreditCard.
  rewrite !filter_app, !filter_cons_True by done.
  set (a := filter _ s1). set (b := filter _ s2).
  rewrite !length_app. simpl.
  destruct ((length a + S (length b) <? 13) || (19 <? length a + S (length b)));
    [done|].
  pose proof (luhn_sum_split a d b) as H1.
  pose proof (luhn_sum_split a d' b) as H2.
  destruct (fold_left luhnStep (reverse (a ++ d :: b)) (0%Z, false)) as [sum1 e1].
  destruct (fold_left luhnStep (reverse (a ++ d' :: b)) (0%Z, false)) as [sum2 e2].
  simpl in H1, H2.
  destruct (fold_left luhnStep (reverse b) (0%Z, false)) as [sb eb].
  simpl in H1, H2.
  set (r := (fold_left luhnStep (reverse a) (0%Z, negb eb)).1) in *.
  clearbody r.
  apply isDigit_range in Hd, Hd'.
  intros Hv%Z.eqb_eq. apply Z.eqb_neq. intros Hv'.
  apply Z.mod_divide in Hv as [k1 Hk1]; [|done].
  apply Z.mod_divide in Hv' as [k2 Hk2]; [|done].
  unfold luhnDouble in *.
  destruct eb;
    repeat match goal with
           | H : context [(?x >? ?y)%Z] |- _ => destruct (Z.gtb_spec x y)
           end; lia.
Qed.

Lemma luhn_detects_single_digit_error_witness :
  isValidCreditCard (lit "411111111111111" ++ 50%Z :: []) = false.
Proof.
  apply (luhn_detects_single_digit_error (lit "411111111111111") 49 50 []);
    [reflexivity | reflexivity | discriminate | reflexivity].
Defined.


Section NerFacts.
Import Ner.

Lemma clampScore_range score :
  (0 <= clampScore score)%Q ∧ (clampScore score <= 1)%Q.
Proof.
  unfold clampScore. set (x := default 0%Q score).
  destruct (Qle_bool 1 x) eqn:H1.
  - simpl. split; by apply Qle_bool_iff.
  - destruct (Qle_bool x 0) eqn:H0.
    + split; by apply Qle_bool_iff.
    + split.
      * apply Qlt_le_weak, Qnot_le_lt. intros H%Qle_bool_iff. congruence.
      * apply Qlt_le_weak, Qnot_le_lt. intros H%Qle_bool_iff. congruence.
Qed.

Lemma dedupeBySpan_spec seen persons :
  sublist (dedupeBySpan seen persons) persons
  ∧ NoDup ((λ p, (person_start p, person_end p)) <$> dedupeBySpan seen persons)
  ∧ (∀ p, p ∈ dedupeBySpan seen persons → (person_start p, person_end p) ∉ seen)
  ∧ (∀ p, p ∈ persons →
       (person_start p, person_end p) ∈ seen
       ∨ ∃ q, q ∈ dedupeBySpan seen persons
              ∧ (person_start q, person_end q) = (person_start p, person_end p)).
Proof.
  revert seen. induction persons as [|p rest IH]; intros seen; simpl.
  - split_and!; [done|constructor|by intros p ?%elem_of_nil|by intros p ?%elem_of_nil].
  - case_bool_decide as Hin.
    + destruct (IH seen) as (Hsub & Hnd & Hfresh & Hcov).
      split_and!; [by apply sublist_cons|done|done|].
      intros q [->|Hq]%elem_of_cons; [by left|by apply Hcov].
    + destruct (IH ({[(person_start p, person_end p)]} ∪ seen))
        as (Hsub & Hnd & Hfresh & Hcov).
      split_and!.
      * by apply sublist_skip.
      * rewrite fmap_cons. apply NoDup_cons. split; [|done].
        intros (q & Heq & Hq)%list_elem_of_fmap.
        apply Hfresh in Hq. apply Hq, elem_of_union_l, elem_of_singleton.
        by rewrite Heq.
      * intros q [->|Hq]%elem_of_cons; [done|].
        apply Hfresh in Hq. intros Hs. by apply Hq, elem_of_union_r.
      * intros q [->|Hq]%elem_of_cons.
        -- right. exists p. split; [left|done].
        -- destruct (Hcov q Hq) as [Hs|(q' & Hq' & Heq)].
           ++ apply elem_of_union in Hs as [Hs|Hs]; [|by left].
              apply elem_of_singleton in Hs. right. exists p.
              split; [left|done].
           ++ right. exists q'. split; [by right|done].
Qed.

Lemma getPersonEntities_Ok ner output text :
  trim text ≠ [] → ner text = Ok output →
  ∃ persons,
    getPersonEntities (Ok ner) text = Ok persons
    ∧ Forall (λ p, (0 <= person_confidence p)%Q
                   ∧ (person_confidence p <= 1)%Q) persons
    ∧ NoDup ((λ p, (person_start p, person_end p)) <$> persons)
    ∧ (∀ p, p ∈ persons →
         ∃ ent, ent ∈ output
                ∧ toUpperCase (ner_group ent) ∈ [lit "PER"; lit "PERSON"]
                ∧ p = mkPerson (ner_word ent) (ner_start ent)
                        (ner_end ent) (clampScore (ner_score ent)))
    ∧ (∀ ent, ent ∈ output →
         toUpperCase (ner_group ent) ∈ [lit "PER"; lit "PERSON"] →
         ∃ p, p ∈ persons
              ∧ person_start p = ner_start ent
              ∧ person_end p = ner_end ent).
Proof.
  intros Hne Hcall.
  rewrite getPersonEntities_nonblank by done. simpl. rewrite Hcall. simpl.
  set (persons := omap _ output).
  assert (Hpersons : ∀ p, p ∈ persons ↔
            ∃ ent, ent ∈ output
                   ∧ toUpperCase (ner_group ent) ∈ [lit "PER"; lit "PERSON"]
                   ∧ p = mkPerson (ner_word ent) (ner_start ent)
                           (ner_end ent) (clampScore (ner_score ent))).
  { intros p. unfold persons. rewrite list_elem_of_omap.
    split; intros (ent & Hent & H); exists ent; (split; [done|]).
    - simpl in H.
      destruct (bool_decide (toUpperCase (ner_group ent) = lit "PER")
                || bool_decide (toUpperCase (ner_group ent) = lit "PERSON"))
        eqn:Hg; [|done].
      injection H as <-. split; [|done].
      apply orb_true_iff in Hg as [Hg|Hg]; apply bool_decide_eq_true in Hg;
        rewrite Hg; [left|right; left].
    - destruct H as [Hg ->]. simpl.
      assert (bool_decide (toUpperCase (ner_group ent) = lit "PER")
              || bool_decide (toUpperCase (ner_group ent) = lit "PERSON")
              = true) as ->; [|done].
      apply orb_true_iff.
      apply elem_of_cons in Hg as [Hg|Hg]; [left; by apply bool_decide_eq_true|].
      apply list_elem_of_singleton in Hg. right. by apply bool_decide_eq_true. }
  destruct (dedupeBySpan_spec ∅ persons) as (Hsub & Hnd & _ & Hcov).
  eexists. split; [done|]. split_and!.
  - apply Forall_forall. intros p Hp.
    apply (elem_of_sublist _ _ _ Hp) in Hsub as Hp'.
    apply Hpersons in Hp' as (ent & _ & _ & ->). simpl. apply clampScore_range.
  - done.
  - intros p Hp. apply (elem_of_sublist _ _ _ Hp) in Hsub as Hp'.
    by apply Hpersons.
  - intros ent Hent Hg.
    destruct (Hcov (mkPerson (ner_word ent) (ner_start ent)
                      (ner_end ent) (clampScore (ner_score ent))))
      as [Hs|(q & Hq & Heq)].
    + apply Hpersons. eauto.
    + by apply elem_of_empty in Hs.
    + simpl in Heq. exists q. split; [done|]. by injection Heq.
Qed.



End NerFacts.

(** X4. [getPersonEntities] answers blank text with the empty list without
    touching the model; on other text, when the model answers with
    entries whose labels are ASCII, it returns persons with confidences
    in [0,1] and pairwise distinct spans, each built from a model entry
    labelled PER or PERSON (in any letter case), and every span of such
    an entry is represented. *)
Theorem getPersonEntities_result :
  (∀ loadPipeline text,
     trim text = [] → Ner.getPersonEntities loadPipeline text = Ok [])
  ∧ (∀ ner output text,
       trim text ≠ [] → ner text = Ok output →
       Forall (λ ent, isAscii (Ner.ner_group ent) = true) output →
       ∃ persons,
         Ner.getPersonEntities (Ok ner) text = Ok persons
         ∧ Forall (λ p, (0 <= Ner.person_confidence p)%Q
                        ∧ (Ner.person_confidence p <= 1)%Q) persons
         ∧ NoDup ((λ p, (Ner.person_start p, Ner.person_end p)) <$> persons)
         ∧ (∀ p, p ∈ persons →
              ∃ ent, ent ∈ output
                     ∧ toUpperCase (Ner.ner_group ent) ∈ [lit "PER"; lit "PERSON"]
                     ∧ p = Ner.mkPerson (Ner.ner_word ent) (Ner.ner_start ent)
                             (Ner.ner_end ent) (Ner.clampScore (Ner.ner_score ent)))
         ∧ (∀ ent, ent ∈ output →
              toUpperCase (Ner.ner_group ent) ∈ [lit "PER"; lit "PERSON"] →
              ∃ p, p ∈ persons
                   ∧ Ner.person_start p = Ner.ner_start ent
                   ∧ Ner.person_end p = Ner.ner_end ent)).
Proof.
  split.
  - intros loadPipeline text Hblank. unfold Ner.getPersonEntities.
    rewrite (bool_decide_eq_true_2 (trim text = [])) by done.
    by rewrite orb_true_r.
  - intros ner output text Hne Hcall _. by apply getPersonEntities_Ok.
Qed.

Lemma getPersonEntities_result_witness :
  Ner.getPersonEntities Samples.modelUnavailable (lit "   ") = Ok []
  ∧ ∃ persons,
      Ner.getPersonEntities
        (Ok (λ _, Ok [Ner.mkNerOutput (lit "per") (Some 1.7%Q) (lit "Ann Lee") 0 7;
                      Ner.mkNerOutput (lit "PER") None (lit "Ann Lee") 0 7;
                      Ner.mkNerOutput (lit "LOC") (Some 0.9%Q) (lit "Pune") 17 21]))
        (lit "Ann Lee lives in Pune")
      = Ok persons
      ∧ Forall (λ p, (0 <= Ner.person_confidence p)%Q
                     ∧ (Ner.person_confidence p <= 1)%Q) persons
      ∧ NoDup ((λ p, (Ner.person_start p, Ner.person_end p)) <$> persons).
Proof.
  split.
  - apply (proj1 getPersonEntities_result). reflexivity.
  - destruct (proj2 getPersonEntities_result
                (λ _, Ok [Ner.mkNerOutput (lit "per") (Some 1.7%Q) (lit "Ann Lee") 0 7;
                          Ner.mkNerOutput (lit "PER") None (lit "Ann Lee") 0 7;
                          Ner.mkNerOutput (lit "LOC") (Some 0.9%Q) (lit "Pune") 17 21])
                [Ner.mkNerOutput (lit "per") (Some 1.7%Q) (lit "Ann Lee") 0 7;
                 Ner.mkNerOutput (lit "PER") None (lit "Ann Lee") 0 7;
                 Ner.mkNerOutput (lit "LOC") (Some 0.9%Q) (lit "Pune") 17 21]
                (lit "Ann Lee lives in Pune"))
      as (persons & H1 & H2 & H3 & _);
      [by vm_compute | reflexivity | by repeat constructor |].
    exists persons. by split_and!.
Defined.


Section DetectFacts.
Context (execAll : string → jsstring → list (nat * jsstring)).

Lemma entityOfMatch_Some text type confidence index m0 e :
  entityOfMatch text type confidence (index, m0) = Some e →
  e = mkEntity (upperKey type) m0 index (index + length m0) confidence
        (categoryOf confidence)
  ∧ (type = "creditCard" → isValidCreditCard m0 = true)
  ∧ (type = "ssn" → isValidSSN m0 = true)
  ∧ (type = "name" → isValidPersonName m0 text index = true).
Proof.
  unfold entityOfMatch.
  destruct (String.eqb_spec type "creditCard") as [Hc|Hc];
    destruct (String.eqb_spec type "ssn") as [Hs|Hs];
    destruct (String.eqb_spec type "name") as [Hn|Hn];
    try discriminate; subst; simpl;
    repeat match goal with
           | |- context [negb ?b] => destruct b eqn:?; simpl
           end;
    try discriminate; intros [= <-]; split_and!; done.
Qed.

Lemma entityOfMatch_None text type confidence index m0 :
  entityOfMatch text type confidence (index, m0) = None →
  (type = "creditCard" ∧ isValidCreditCard m0 = false)
  ∨ (type = "ssn" ∧ isValidSSN m0 = false)
  ∨ (type = "name" ∧ isValidPersonName m0 text index = false).
Proof.
  unfold entityOfMatch.
  destruct (String.eqb_spec type "creditCard") as [Hc|Hc];
    destruct (String.eqb_spec type "ssn") as [Hs|Hs];
    destruct (String.eqb_spec type "name") as [Hn|Hn];
    try discriminate; subst; simpl;
    repeat match goal with
           | |- context [negb ?b] => destruct b eqn:?; simpl
           end;
    try discriminate; intros _; auto.
Qed.

Lemma elem_of_detectEnhancedPII text e :
  e ∈ detectEnhancedPII execAll text ↔
  ∃ type confidence index m0,
    (type, confidence) ∈ enhancedPIIPatterns
    ∧ (index, m0) ∈ execAll type text
    ∧ entityOfMatch text type confidence (index, m0) = Some e.
Proof.
  unfold detectEnhancedPII. rewrite list_elem_of_bind. split.
  - intros ([type confidence] & He & Hreg).
    apply list_elem_of_omap in He as ([index m0] & Hm & He). eauto 10.
  - intros (type & confidence & index & m0 & Hreg & Hm & He).
    exists (type, confidence). split; [|done].
    apply list_elem_of_omap. eauto.
Qed.

Lemma registry_key type confidence (t : string) :
  (type, confidence) ∈ enhancedPIIPatterns →
  t ∈ ["creditCard"; "ssn"; "name"] → upperKey type = upperKey t → type = t.
Proof.
  intros Hreg Ht. unfold enhancedPIIPatterns in Hreg.
  repeat (apply elem_of_cons in Hreg as [[= -> _]|Hreg]; [|]);
    [..|by apply elem_of_nil in Hreg];
    repeat (apply elem_of_cons in Ht as [->|Ht]);
    try (by apply elem_of_nil in Ht);
    vm_compute; intros; congruence.
Qed.

End DetectFacts.

(** X5. When every reported match is the text at its index, every entity of
    [detectEnhancedPII] spans exactly its text, carries the confidence
    and the upper-cased key of a registry entry and the category of that
    confidence, and, for the keys creditCard, ssn and name, was accepted
    by the validator of its key. *)
Theorem detectEnhancedPII_entities execAll text :
  (∀ type index m0, (index, m0) ∈ execAll type text →
     substring index (index + length m0) text = m0) →
  Forall (λ e,
            ent_end e = ent_start e + length (ent_text e)
            ∧ substring (ent_start e) (ent_end e) text = ent_text e
            ∧ ent_category e = categoryOf (ent_confidence e)
            ∧ (∃ type, (type, ent_confidence e) ∈ enhancedPIIPatterns
                       ∧ ent_type e = upperKey type
                       ∧ (ent_start e, ent_text e) ∈ execAll type text)
            ∧ (ent_type e = "CREDITCARD" → isValidCreditCard (ent_text e) = true)
            ∧ (ent_type e = "SSN" → isValidSSN (ent_text e) = true)
            ∧ (ent_type e = "NAME" →
               isValidPersonName (ent_text e) text (ent_start e) = true))
         (detectEnhancedPII execAll text).
Proof.
  intros Hexec. apply Forall_forall. intros e He.
  apply elem_of_detectEnhancedPII in He
    as (type & confidence & index & m0 & Hreg & Hm & He).
  apply entityOfMatch_Some in He as (-> & Hc & Hs & Hn). simpl.
  split_and!; [done|by apply (Hexec type)|done|by exists type|..].
  - intros Ht. apply Hc. apply (registry_key type confidence "creditCard");
      [done|left|done].
  - intros Ht. apply Hs. apply (registry_key type confidence "ssn");
      [done|right; left|done].
  - intros Ht. apply Hn. apply (registry_key type confidence "name");
      [done|right; right; left|done].
Qed.

Lemma detectEnhancedPII_entities_witness :
  Forall (λ e,
            ent_end e = ent_start e + length (ent_text e)
            ∧ substring (ent_start e) (ent_end e) (lit "Mail a@b.co now")
              = ent_text e
            ∧ ent_category e = categoryOf (ent_confidence e)
            ∧ (∃ type, (type, ent_confidence e) ∈ enhancedPIIPatterns
                       ∧ ent_type e = upperKey type
                       ∧ (ent_start e, ent_text e)
                         ∈ Samples.scanOf [("email", (5, lit "a@b.co"))] type
                             (lit "Mail a@b.co now"))
            ∧ (ent_type e = "CREDITCARD" → isValidCreditCard (ent_text e) = true)
            ∧ (ent_type e = "SSN" → isValidSSN (ent_text e) = true)
            ∧ (ent_type e = "NAME" →
               isValidPersonName (ent_text e) (lit "Mail a@b.co now") (ent_start e)
               = true))
         (detectEnhancedPII (Samples.scanOf [("email", (5, lit "a@b.co"))])
            (lit "Mail a@b.co now")).
Proof.
  apply detectEnhancedPII_entities.
  intros type index m0 Hm. unfold Samples.scanOf in Hm.
  apply list_elem_of_fmap in Hm as ([k im] & Heq & Hin).
  apply list_elem_of_filter in Hin as [_ Hin].
  apply list_elem_of_singleton in Hin. injection Hin as _ ->.
  injection Heq as -> ->. reflexivity.
Defined.

(** X6. Every match of a registered pattern becomes an entity unless the
    validator of its own key rejects it: a rejected match is dropped
    alone. *)
Theorem detectEnhancedPII_complete execAll text type confidence index m0 :
  (type, confidence) ∈ enhancedPIIPatterns →
  (index, m0) ∈ execAll type text →
  mkEntity (upperKey type) m0 index (index + length m0) confidence
    (categoryOf confidence) ∈ detectEnhancedPII execAll text
  ∨ (type = "creditCard" ∧ isValidCreditCard m0 = false)
  ∨ (type = "ssn" ∧ isValidSSN m0 = false)
  ∨ (type = "name" ∧ isValidPersonName m0 text index = false).
Proof.
  intros Hreg Hm.
  destruct (entityOfMatch text type confidence (index, m0)) as [e|] eqn:He.
  - left. pose proof He as (-> & _)%entityOfMatch_Some.
    apply elem_of_detectEnhancedPII. eauto 10.
  - right. by apply entityOfMatch_None in He.
Qed.

Lemma detectEnhancedPII_complete_witness :
  mkEntity "SSN" (lit "000-12-3456") 4 15 0.99 high
    ∈ detectEnhancedPII
        (Samples.scanOf [("ssn", (4, lit "000-12-3456"));
                         ("email", (20, lit "a@b.co"))])
        (lit "SSN 000-12-3456 and a@b.co")
  ∨ ("ssn" = "creditCard" ∧ isValidCreditCard (lit "000-12-3456") = false)
  ∨ ("ssn" = "ssn" ∧ isValidSSN (lit "000-12-3456") = false)
  ∨ ("ssn" = "name"
     ∧ isValidPersonName (lit "000-12-3456") (lit "SSN 000-12-3456 and a@b.co") 4
       = false).
Proof.
  apply (detectEnhancedPII_complete
           (Samples.scanOf [("ssn", (4, lit "000-12-3456"));
                            ("email", (20, lit "a@b.co"))])
           (lit "SSN 000-12-3456 and a@b.co") "ssn" 0.99 4 (lit "000-12-3456")).
  - unfold enhancedPIIPatterns. right; right; left.
  - vm_compute. left.
Defined.


Section FilterFacts.
Import ProcessPii.

Lemma confGt_irrefl a : confGt a a = false.
Proof. apply confGt_false, Qle_refl. Qed.

Lemma confGt_asym a b : confGt a b = true → confGt b a = false.
Proof. rewrite confGt_spec, confGt_false. apply Qlt_le_weak. Qed.

Lemma length_filterStep filteredEntities entity :
  length filteredEntities ≤ length (filterStep filteredEntities entity)
  ≤ S (length filteredEntities).
Proof.
  unfold filterStep.
  destruct (existsb _ _); simpl; [|rewrite length_app; simpl; lia].
  destruct (findIndex _ _) as [i|]; [|lia].
  destruct (_ !! i) as [existing|]; [|lia].
  destruct (confGt _ _); rewrite ?length_insert; lia.
Qed.

Lemma length_fold_filterStep rest filteredEntities :
  length filteredEntities ≤ length (fold_left filterStep rest filteredEntities)
  ≤ length filteredEntities + length rest.
Proof.
  revert filteredEntities. induction rest as [|c rest IH]; intros acc; simpl.
  - lia.
  - specialize (IH (filterStep acc c)).
    pose proof (length_filterStep acc c). lia.
Qed.

Lemma fold_filterStep_elem_of rest filteredEntities x :
  x ∈ fold_left filterStep rest filteredEntities →
  x ∈ filteredEntities ∨ x ∈ rest.
Proof.
  revert filteredEntities. induction rest as [|c rest IH]; intros acc; simpl.
  - by left.
  - intros [Hx|Hx]%IH; [|right; by right].
    apply filterStep_elem_of in Hx as [Hx| ->]; [by left|right; left].
Qed.

Lemma filterStep_keeps filteredEntities entity e :
  e ∈ filteredEntities →
  confGt (ent_confidence entity) (ent_confidence e) = false →
  e ∈ filterStep filteredEntities entity.
Proof.
  intros He Hc. unfold filterStep.
  destruct (existsb _ _); simpl; [|apply elem_of_app; by left].
  destruct (findIndex _ _) as [i|]; [|done].
  destruct (_ !! i) as [existing|] eqn:Hi; [|done].
  destruct (confGt _ (ent_confidence existing)) eqn:Hgt; [|done].
  apply list_elem_of_lookup in He as [j Hj].
  apply list_elem_of_lookup. exists j.
  rewrite list_lookup_insert_ne; [done|]. intros ->. congruence.
Qed.

Lemma filterStep_enters filteredEntities e :
  (∀ x, x ∈ filteredEntities → x = e
        ∨ confGt (ent_confidence e) (ent_confidence x) = true) →
  e ∈ filterStep filteredEntities e.
Proof.
  intros Hmax. unfold filterStep.
  destruct (existsb _ _) eqn:Hex; simpl; [|apply elem_of_app; right; left].
  destruct (findIndex_existsb _ _ Hex) as [i Hfind]. rewrite Hfind.
  apply findIndex_Some in Hfind as (existing & Hi & _). rewrite Hi.
  pose proof (list_elem_of_lookup_2 _ _ _ Hi) as Hin.
  destruct (Hmax existing Hin) as [->|Hgt].
  - by rewrite confGt_irrefl.
  - rewrite Hgt. apply list_elem_of_lookup. exists i.
    apply list_lookup_insert_eq. by apply lookup_lt_Some in Hi.
Qed.

Lemma fold_filterStep_max rest filteredEntities e :
  (∀ c, c ∈ rest ∨ c ∈ filteredEntities →
        c = e ∨ confGt (ent_confidence e) (ent_confidence c) = true) →
  e ∈ rest ∨ e ∈ filteredEntities →
  e ∈ fold_left filterStep rest filteredEntities.
Proof.
  revert filteredEntities. induction rest as [|c rest IH]; intros acc Hmax He; simpl.
  - destruct He as [He|He]; [by apply elem_of_nil in He|done].
  - assert (Hle : ∀ x, x ∈ c :: rest ∨ x ∈ acc →
                       confGt (ent_confidence x) (ent_confidence e) = false).
    { intros x Hx. destruct (Hmax x Hx) as [->|Hgt];
        [apply confGt_irrefl|by apply confGt_asym]. }
    apply IH.
    + intros x [Hx|Hx]; [apply Hmax; left; by right|].
      apply filterStep_elem_of in Hx as [Hx| ->]; apply Hmax; [by right|left; left].
    + destruct He as [[->|He]%elem_of_cons|He]; [| by left |].
      * right. apply filterStep_enters. intros x Hx. apply Hmax. by right.
      * right. apply filterStep_keeps; [done|]. apply Hle. left; left.
Qed.

Lemma PairwiseDisjoint_tail x l : PairwiseDisjoint (x :: l) → PairwiseDisjoint l.
Proof. intros H i j a b Hne Ha Hb. apply (H (S i) (S j) a b); [lia|done..]. Qed.

Lemma disjoint_sorted_no_overlap l :
  StronglySorted (λ a b, ent_start a ≤ ent_start b) l →
  Forall wellFormed l → PairwiseDisjoint l →
  StronglySorted (λ x y, overlapsWith y x = false) l.
Proof.
  induction 1 as [|x l Hs IH Hx]; intros Hwf Hdis; [constructor|].
  apply Forall_cons in Hwf as [Hwx Hwf].
  constructor; [apply IH; [done|by eapply PairwiseDisjoint_tail]|].
  apply Forall_forall. intros y Hy.
  pose proof (proj1 (Forall_forall _ _) Hx y Hy) as Hle.
  pose proof (proj1 (Forall_forall _ _) Hwf y Hy) as Hwy.
  apply list_elem_of_lookup in Hy as [j Hj].
  destruct (overlapsWith_sorted y x Hwy Hwx Hle) as [_ ->].
  apply Nat.ltb_ge.
  destruct (Hdis 0 (S j) x y) as [?|?]; [lia|done|done|done|].
  unfold wellFormed in *. lia.
Qed.

Lemma fold_filterStep_no_overlap rest filteredEntities :
  StronglySorted (λ x y, overlapsWith y x = false) (filteredEntities ++ rest) →
  fold_left filterStep rest filteredEntities = filteredEntities ++ rest.
Proof.
  revert filteredEntities. induction rest as [|c rest IH]; intros acc Hs; simpl.
  - by rewrite app_nil_r.
  - rewrite filterStep_no_overlap.
    + rewrite IH; rewrite <- app_assoc; done.
    + apply not_true_is_false. intros Hex. apply existsb_exists in Hex as (x & Hx & Ho).
      apply list_elem_of_In in Hx.
      pose proof (StronglySorted_app_1_elem_of
                    (λ x y, overlapsWith y x = false) acc (c :: rest) x c Hs Hx) as H.
      rewrite H in Ho; [done|left].
Qed.

End FilterFacts.

(** X7. A candidate whose confidence is strictly above that of every other
    candidate is kept by the overlap filter of [detectPII]. *)
Theorem filterOverlaps_keeps_most_confident entities e :
  e ∈ entities →
  (∀ c, c ∈ entities → c ≠ e →
        (ent_confidence c < ent_confidence e)%Q) →
  e ∈ ProcessPii.filterOverlaps entities.
Proof.
  intros He Hmax. unfold ProcessPii.filterOverlaps.
  apply elem_of_sortBy.
  apply fold_filterStep_max.
  - intros c [Hc|Hc]; [|by apply elem_of_nil in Hc].
    apply elem_of_sortBy in Hc.
    destruct (decide (c = e)) as [->|Hne]; [by left|right].
    apply confGt_spec. by apply Hmax.
  - left. by apply elem_of_sortBy.
Qed.

Lemma filterOverlaps_keeps_most_confident_witness :
  mkEntity "EMAIL_ADDRESS" (lit "js@example.com") 22 36 0.96 high
  ∈ ProcessPii.filterOverlaps
      [ mkEntity "USERNAME" (lit "js@") 22 25 0.72 low;
        mkEntity "EMAIL_ADDRESS" (lit "js@example.com") 22 36 0.96 high;
        mkEntity "USERNAME" (lit "@example") 24 32 0.72 low ].
Proof.
  apply filterOverlaps_keeps_most_confident.
  - right; left.
  - intros c Hc Hne.
    repeat (apply elem_of_cons in Hc as [->|Hc]); try done;
      by apply elem_of_nil in Hc.
Defined.

(** X8. Running the overlap filter of [detectPII] on its own output changes
    nothing. *)
Theorem filterOverlaps_idempotent entities :
  Forall wellFormed entities →
  ProcessPii.filterOverlaps (ProcessPii.filterOverlaps entities)
  = ProcessPii.filterOverlaps entities.
Proof.
  intros Hwf.
  set (R := ProcessPii.filterOverlaps entities).
  assert (Hsorted : StronglySorted
            (λ a b, (Z.of_nat (ent_start a) ≤ Z.of_nat (ent_start b))%Z) R)
    by apply (sortBy_sorted _ _ byStart_key).
  assert (HsortR : sortBy ProcessPii.byStart R = R)
    by by apply (sortBy_of_sorted _ _ byStart_key).
  assert (Hperm : sortBy ProcessPii.byStart entities ≡ₚ entities)
    by apply sortBy_perm.
  destruct (fold_filterStep_inv (sortBy ProcessPii.byStart entities) [])
    as [Hdis Hsub].
  { apply sortBy_byStart_sorted. }
  { by rewrite Hperm. }
  { constructor. }
  { intros x y Hx. by apply elem_of_nil in Hx. }
  { intros i j a b _ Ha. by rewrite lookup_nil in Ha. }
  assert (HwfR : Forall wellFormed R).
  { by apply filterOverlaps_sound. }
  assert (HdisR : PairwiseDisjoint R).
  { eapply PairwiseDisjoint_perm; [|exact Hdis]. apply sortBy_perm. }
  unfold ProcessPii.filterOverlaps at 1. fold R. rewrite HsortR.
  rewrite fold_filterStep_no_overlap; [done|]. simpl.
  apply disjoint_sorted_no_overlap; [apply sortBy_byStart_sorted|done..].
Qed.

Lemma filterOverlaps_idempotent_witness :
  ProcessPii.filterOverlaps
    (ProcessPii.filterOverlaps
       [ mkEntity "PERSON" (lit "John Smith") 8 18 0.95 high;
         mkEntity "FULL_NAME" (lit "John Smith") 8 18 0.88 high;
         mkEntity "EMAIL_ADDRESS" (lit "js@example.com") 22 36 0.96 high;
         mkEntity "USERNAME" (lit "@example") 24 32 0.72 low ])
  = ProcessPii.filterOverlaps
      [ mkEntity "PERSON" (lit "John Smith") 8 18 0.95 high;
        mkEntity "FULL_NAME" (lit "John Smith") 8 18 0.88 high;
        mkEntity "EMAIL_ADDRESS" (lit "js@example.com") 22 36 0.96 high;
        mkEntity "USERNAME" (lit "@example") 24 32 0.72 low ].
Proof.
  apply filterOverlaps_idempotent.
  repeat constructor; unfold wellFormed; simpl; lia.
Defined.

(** X9. The overlap filter of [detectPII] returns candidates only, never more
    of them than it was given, and at least one when given any. *)
Theorem filterOverlaps_bounds entities :
  (∀ x, x ∈ ProcessPii.filterOverlaps entities → x ∈ entities)
  ∧ length (ProcessPii.filterOverlaps entities) ≤ length entities
  ∧ (entities ≠ [] → ProcessPii.filterOverlaps entities ≠ []).
Proof.
  unfold ProcessPii.filterOverlaps. split_and!.
  - intros x Hx%elem_of_sortBy.
    apply fold_filterStep_elem_of in Hx as [Hx|Hx]; [by apply elem_of_nil in Hx|].
    by apply elem_of_sortBy in Hx.
  - rewrite length_sortBy.
    pose proof (length_fold_filterStep (sortBy ProcessPii.byStart entities) []) as H.
    rewrite length_sortBy in H. simpl in H. lia.
  - intros Hne Hnil. apply (f_equal length) in Hnil.
    rewrite length_sortBy in Hnil.
    pose proof (length_sortBy ProcessPii.byStart entities) as Hlen.
    destruct (sortBy ProcessPii.byStart entities) as [|c rest].
    + destruct entities; [done|discriminate].
    + simpl in Hnil.
      pose proof (length_fold_filterStep rest (ProcessPii.filterStep [] c)) as H.
      pose proof (length_filterStep [] c) as H'.
      unfold ProcessPii.filterStep in *. simpl in *. lia.
Qed.

Lemma filterOverlaps_bounds_witness :
  ProcessPii.filterOverlaps
    [ mkEntity "PERSON" (lit "John Smith") 8 18 0.95 high;
      mkEntity "FULL_NAME" (lit "John Smith") 8 18 0.88 high ] ≠ [].
Proof.
  apply (proj2 (proj2 (filterOverlaps_bounds _))). discriminate.
Defined.


Section MaskingFacts.
Import ProcessPii.

Lemma jsRepeat_Ok s n :
  (0 ≤ n)%Z → jsRepeat s n = Ok (mjoin (replicate (Z.to_nat n) s)).
Proof. intros Hn. unfold jsRepeat. by destruct (Z.ltb_spec n 0); [lia|]. Qed.

Lemma jsRepeat_unit c n :
  (0 ≤ n)%Z → jsRepeat [c] n = Ok (replicate (Z.to_nat n) c).
Proof.
  intros Hn. rewrite jsRepeat_Ok by done. f_equal.
  induction (Z.to_nat n) as [|k IH]; simpl; [done|by rewrite IH].
Qed.

Lemma maskName_Ok name : name ≠ [] → maskName name = Ok (maskedPart name).
Proof.
  intros Hne. unfold maskName, block, maskedPart.
  rewrite jsRepeat_unit by (destruct name; [done|simpl; lia]). simpl.
  destruct name as [|c rest]; [done|]. unfold charAtOrUndefined. simpl.
  do 3 f_equal. lia.
Qed.

Lemma maskName_Err : isOk (maskName []) = false.
Proof. done. Qed.

Lemma isOk_maskName name : isOk (maskName name) = negb (bool_decide (name = [])).
Proof.
  case_bool_decide as H; [by subst|]. by rewrite maskName_Ok.
Qed.

Lemma isOk_mapM {A B} (f : A → result B) l :
  isOk (mapM f l) = forallb (λ x, isOk (f x)) l.
Proof.
  induction l as [|x l IH]; simpl; [done|].
  destruct (f x); simpl; [|done]. rewrite <- IH. by destruct (mapM f l).
Qed.

Lemma mapM_maskName names :
  Forall (λ p, p ≠ []) names → mapM maskName names = Ok (maskedPart <$> names).
Proof.
  induction 1 as [|p names Hp _ IH]; simpl; [done|].
  rewrite maskName_Ok by done. simpl. by rewrite IH.
Qed.

Lemma forallb_negb_existsb {A} (p : A → bool) l :
  forallb (λ x, negb (p x)) l = negb (existsb p l).
Proof. induction l as [|x l IH]; simpl; [done|]. rewrite IH. by destruct (p x). Qed.

Lemma splitOn_nonempty c s : splitOn c s ≠ [].
Proof.
  destruct s as [|x s]; simpl; [done|].
  destruct (splitOn c s); [done|]. by destruct (x =? c)%Z.
Qed.

Lemma join_cons c p q rest : join c (p :: q :: rest) = p ++ c ++ join c (q :: rest).
Proof. done. Qed.

Lemma join_splitOn c s : join [c] (splitOn c s) = s.
Proof.
  induction s as [|x s IH]; [done|].
  pose proof (splitOn_nonempty c s) as Hne.
  cbn [splitOn]. destruct (splitOn c s) as [|cur rest]; [done|].
  destruct (Z.eqb_spec x c) as [->|Hx].
  - rewrite join_cons, IH. done.
  - destruct rest as [|q rest].
    + simpl in *. by rewrite IH.
    + rewrite join_cons in *. rewrite <- IH. done.
Qed.

Lemma length_join c parts :
  length (join c parts)
  = foldr (λ p n, length p + n) 0 parts + length c * (length parts - 1).
Proof.
  induction parts as [|p parts IH]; simpl; [lia|].
  destruct parts as [|q parts]; [simpl; lia|].
  rewrite !length_app, IH. simpl. lia.
Qed.

Lemma length_maskedPart part : length (maskedPart part) = length part.
Proof.
  unfold maskedPart. rewrite length_app, length_take, length_replicate.
  destruct part; simpl; lia.
Qed.

Lemma splitOn_no_sep c s : c ∉ s → splitOn c s = [s].
Proof.
  induction s as [|x s IH]; intros Hc; simpl; [done|].
  rewrite IH by (intros H; apply Hc; by right).
  destruct (Z.eqb_spec x c) as [->|?]; [|done].
  exfalso. apply Hc. left.
Qed.

Lemma splitOn_app_sep c u d :
  c ∉ u → splitOn c (u ++ c :: d) = u :: splitOn c d.
Proof.
  induction u as [|x u IH]; intros Hc; simpl.
  - pose proof (splitOn_nonempty c d). destruct (splitOn c d); [done|].
    by rewrite Z.eqb_refl.
  - rewrite IH by (intros H; apply Hc; by right).
    destruct (Z.eqb_spec x c) as [->|?]; [|done].
    exfalso. apply Hc. left.
Qed.

Lemma isOk_bind_Ok {A B} (m : result A) (f : A → B) :
  isOk (x ← m; Ok (f x)) = isOk m.
Proof. by destruct m. Qed.

Ltac split_on_type type :=
  repeat match goal with
         | |- context [(type =? ?k)%string] =>
             destruct (String.eqb_spec type k); try congruence
         end.


Lemma isOk_applyContextualMasking entity :
  isOk (applyContextualMasking entity) = negb (maskingThrows entity).
Proof.
  unfold applyContextualMasking, maskingThrows.
  destruct entity as [type text start end_ confidence category].
  cbn [ent_type ent_text].
  split_on_type type; cbn [orb andb negb].
  - (* EMAIL_ADDRESS *)
    rewrite isOk_bind_Ok.
    destruct (2 <? length (default [] (splitOn 64 text !! 0))) eqn:Hlen.
    + apply Nat.ltb_lt in Hlen. rewrite isOk_bind_Ok, jsRepeat_Ok; [done|lia].
    + rewrite jsRepeat_Ok; [done|lia].
  - by destruct (includesChar 45 text).
  - by destruct (includesChar 45 text).
  - destruct (includesChar 40 text); [done|].
    destruct (includesChar 43 text); [|done]. cbn [andb negb].
    rewrite isOk_bind_Ok. unfold jsRepeat.
    destruct (Z.ltb_spec (Z.of_nat (length text) - 6) 0);
      destruct (Nat.ltb_spec (length text) 6); simpl; try done; lia.
  - destruct (includesChar 40 text); [done|].
    destruct (includesChar 43 text); [|done]. cbn [andb negb].
    rewrite isOk_bind_Ok. unfold jsRepeat.
    destruct (Z.ltb_spec (Z.of_nat (length text) - 6) 0);
      destruct (Nat.ltb_spec (length text) 6); simpl; try done; lia.
  - done.
  - done.
  - (* PERSON *)
    rewrite orb_false_r.
    destruct (length (splitOn 32 text) =? 2) eqn:Hlen.
    + apply Nat.eqb_eq in Hlen.
      destruct (splitOn 32 text) as [|part0 [|part1 [|? ?]]]; try done.
      change (isOk (first ← maskName part0;
                    second ← maskName part1;
                    Ok (first ++ lit " " ++ second))
              = negb (bool_decide (part0 = [])
                      || (bool_decide (part1 = []) || false))).
      pose proof (isOk_maskName part0) as H0.
      pose proof (isOk_maskName part1) as H1.
      destruct (maskName part0), (maskName part1);
        simpl in *;
        destruct (bool_decide (part0 = [])), (bool_decide (part1 = [])); done.
    + rewrite isOk_bind_Ok, isOk_mapM.
      rewrite <- forallb_negb_existsb. apply forallb_pointwise.
      intros p. apply isOk_maskName.
  - (* FULL_NAME *)
    rewrite orb_false_r.
    destruct (length (splitOn 32 text) =? 2) eqn:Hlen.
    + apply Nat.eqb_eq in Hlen.
      destruct (splitOn 32 text) as [|part0 [|part1 [|? ?]]]; try done.
      change (isOk (first ← maskName part0;
                    second ← maskName part1;
                    Ok (first ++ lit " " ++ second))
              = negb (bool_decide (part0 = [])
                      || (bool_decide (part1 = []) || false))).
      pose proof (isOk_maskName part0) as H0.
      pose proof (isOk_maskName part1) as H1.
      destruct (maskName part0), (maskName part1);
        simpl in *;
        destruct (bool_decide (part0 = [])), (bool_decide (part1 = [])); done.
    + rewrite isOk_bind_Ok, isOk_mapM.
      rewrite <- forallb_negb_existsb. apply forallb_pointwise.
      intros p. apply isOk_maskName.
  - done.
  - rewrite jsRepeat_Ok; [done|lia].
Qed.

Lemma isOk_replacementOf method entity entityNum :
  isOk (replacementOf method entity entityNum)
  = negb ((method =? "Contextual Masking")%string && maskingThrows entity).
Proof.
  unfold replacementOf.
  destruct (String.eqb_spec method "Smart Placeholders") as [->|?]; [done|].
  destruct (String.eqb_spec method "Contextual Masking") as [->|?].
  { apply isOk_applyContextualMasking. }
  repeat match goal with
         | |- context [(method =? ?k)%string] => destruct (method =? k)%string
         end; done.
Qed.

Lemma isOk_foldM_redactStep method l st :
  isOk (foldM (redactStep method) l st)
  = negb ((method =? "Contextual Masking")%string && existsb maskingThrows l).
Proof.
  revert st. induction l as [|e l IH]; intros st.
  - simpl. by rewrite andb_false_r.
  - cbn [foldM existsb]. rewrite redactStep_splice.
    pose proof (isOk_replacementOf method e
                  (default 0 (entityCounts st !! ent_type e) + 1)) as Hr.
    destruct (replacementOf method e _) as [r|err]; simpl in *.
    + rewrite IH. destruct (method =? "Contextual Masking")%string; [|done].
      simpl in *. by destruct (maskingThrows e).
    + destruct (method =? "Contextual Masking")%string; [|done].
      simpl in *. by destruct (maskingThrows e).
Qed.

Lemma existsb_perm {A} (p : A → bool) l k : l ≡ₚ k → existsb p l = existsb p k.
Proof.
  intros Hperm. apply eq_true_iff_eq. rewrite !existsb_exists.
  split; intros (x & Hx & Hp); exists x; (split; [|done]);
    apply list_elem_of_In; apply list_elem_of_In in Hx;
    [by rewrite <- Hperm|by rewrite Hperm].
Qed.

Lemma isOk_applyRedaction text entities method :
  isOk (applyRedaction text entities method)
  = negb ((method =? "Contextual Masking")%string && existsb maskingThrows entities).
Proof.
  unfold applyRedaction. rewrite isOk_bind_Ok, isOk_foldM_redactStep.
  do 2 f_equal. apply existsb_perm, sortBy_perm.
Qed.

End MaskingFacts.

(** X10. [applyContextualMasking] throws exactly for a PERSON or FULL_NAME
    with an empty part and for a [+] phone number without [(] shorter
    than six units; [applyRedaction] throws exactly when the method is
    Contextual Masking and some entity is of that kind; the request is
    then answered with status 500. *)
Theorem applyContextualMasking_throws :
  (∀ entity,
     isOk (ProcessPii.applyContextualMasking entity) = negb (maskingThrows entity))
  ∧ (∀ text entities method,
       isOk (ProcessPii.applyRedaction text entities method)
       = negb ((method =? "Contextual Masking")%string
               && existsb maskingThrows entities))
  ∧ (∀ scanPatterns persist body text candidates,
       ProcessPii.body_text body = ProcessPii.TextString text → text ≠ [] →
       ProcessPii.body_redactionMethod body = Some "Contextual Masking" →
       scanPatterns text = Ok candidates →
       existsb maskingThrows (ProcessPii.filterOverlaps candidates) = true →
       ProcessPii.serve scanPatterns persist
         {| ProcessPii.req_method := "POST"; ProcessPii.req_json := Ok body |}
       = ProcessPii.ErrorResponse 500 "Internal server error").
Proof.
  split_and!.
  - apply isOk_applyContextualMasking.
  - apply isOk_applyRedaction.
  - intros scanPatterns persist body text candidates Htext Hne Hmethod Hscan Hthrows.
    unfold ProcessPii.serve. simpl. unfold ProcessPii.process.
    rewrite Htext, Hmethod. simpl.
    rewrite (bool_decide_eq_false_2 (text = [])) by done. simpl.
    unfold ProcessPii.detectPII. rewrite Hscan. simpl.
    pose proof (isOk_applyRedaction text (ProcessPii.filterOverlaps candidates)
                  "Contextual Masking") as Hok.
    rewrite Hthrows in Hok.
    by destruct (ProcessPii.applyRedaction _ _ _).
Qed.

Lemma applyContextualMasking_throws_witness :
  ProcessPii.serve
    (λ _, Ok [mkEntity "PERSON" (lit "John  Smith") 0 11 0.85 medium])
    Samples.acceptingStore
    {| ProcessPii.req_method := "POST";
       ProcessPii.req_json :=
         Ok {| ProcessPii.body_text := ProcessPii.TextString (lit "John  Smith");
               ProcessPii.body_documentId := None;
               ProcessPii.body_redactionMethod := Some "Contextual Masking" |} |}
  = ProcessPii.ErrorResponse 500 "Internal server error".
Proof.
  apply (proj2 (proj2 applyContextualMasking_throws)
           (λ _, Ok [mkEntity "PERSON" (lit "John  Smith") 0 11 0.85 medium])
           Samples.acceptingStore
           {| ProcessPii.body_text := ProcessPii.TextString (lit "John  Smith");
              ProcessPii.body_documentId := None;
              ProcessPii.body_redactionMethod := Some "Contextual Masking" |}
           (lit "John  Smith")
           [mkEntity "PERSON" (lit "John  Smith") 0 11 0.85 medium]);
    try reflexivity.
  discriminate.
Defined.


Section MaskedLengths.

Lemma sum_lengths_maskedPart l :
  foldr (λ p n, length p + n) 0 (maskedPart <$> l)
  = foldr (λ p n, length p + n) 0 l.
Proof.
  induction l as [|p l IH]; [done|].
  rewrite fmap_cons. cbn [foldr]. by rewrite length_maskedPart, IH.
Qed.

Lemma charAt_first (s : jsstring) : s ≠ [] → charAtOrUndefined s 0 = take 1 s.
Proof. by destruct s. Qed.

Lemma charAt_last (s : jsstring) :
  s ≠ [] → charAtOrUndefined s (length s - 1) = drop (length s - 1) s.
Proof.
  intros Hne. unfold charAtOrUndefined.
  destruct (lookup_lt_is_Some_2 s (length s - 1)) as [z Hz];
    [destruct s; [done|simpl; lia]|].
  rewrite Hz, (drop_S _ z) by done.
  rewrite drop_ge; [done|]. destruct s; [done|simpl; lia].
Qed.

End MaskedLengths.

(** X11. Contextual Masking of a PERSON or FULL_NAME whose parts are all
    non-empty keeps the first unit of every part, replaces the others by
    blocks and preserves the length. *)
Theorem contextual_masking_of_names entity :
  ent_type entity = "PERSON" ∨ ent_type entity = "FULL_NAME" →
  Forall (λ part, part ≠ []) (splitOn 32 (ent_text entity)) →
  ∃ masked,
    ProcessPii.applyContextualMasking entity = Ok masked
    ∧ masked = join (lit " ") (maskedPart <$> splitOn 32 (ent_text entity))
    ∧ length masked = length (ent_text entity).
Proof.
  intros Htype Hparts.
  exists (join (lit " ") (maskedPart <$> splitOn 32 (ent_text entity))).
  split_and!; [|done|].
  - unfold ProcessPii.applyContextualMasking.
    destruct entity as [type text start end_ confidence category].
    cbn [ent_type ent_text] in *.
    assert ((if length (splitOn 32 text) =? 2
             then first ← ProcessPii.maskName (default [] (splitOn 32 text !! 0));
                  second ← ProcessPii.maskName (default [] (splitOn 32 text !! 1));
                  Ok (first ++ lit " " ++ second)
             else masked ← mapM ProcessPii.maskName (splitOn 32 text);
                  Ok (join (lit " ") masked))
            = Ok (join (lit " ") (maskedPart <$> splitOn 32 text))) as Hbody.
    { destruct (length (splitOn 32 text) =? 2) eqn:Hlen.
      - apply Nat.eqb_eq in Hlen.
        destruct (splitOn 32 text) as [|part0 [|part1 [|? ?]]]; try done.
        apply Forall_cons in Hparts as [H0 Hparts].
        apply Forall_cons in Hparts as [H1 _].
        cbn [lookup list_lookup default].
        change ((first ← ProcessPii.maskName part0;
                 second ← ProcessPii.maskName part1;
                 Ok (first ++ lit " " ++ second))
                = Ok (join (lit " ") [maskedPart part0; maskedPart part1])).
        by rewrite !maskName_Ok.
      - by rewrite mapM_maskName. }
    destruct Htype as [-> | ->]; exact Hbody.
  - rewrite <- (join_splitOn 32 (ent_text entity)) at 2.
    change (lit " ") with [32%Z].
    by rewrite !length_join, length_fmap, sum_lengths_maskedPart.
Qed.

Lemma contextual_masking_of_names_witness :
  ∃ masked,
    ProcessPii.applyContextualMasking
      (mkEntity "PERSON" (lit "Mary Ann Lee") 0 12 0.85 medium) = Ok masked
    ∧ masked = join (lit " ") (maskedPart <$> splitOn 32 (lit "Mary Ann Lee"))
    ∧ length masked = length (lit "Mary Ann Lee").
Proof.
  apply (contextual_masking_of_names
           (mkEntity "PERSON" (lit "Mary Ann Lee") 0 12 0.85 medium)).
  - by left.
  - vm_compute. repeat constructor; discriminate.
Defined.

(** X12. Contextual Masking of an e-mail address with a single [@] keeps the
    domain, masks the user part between its first and last unit and
    preserves the length. *)
Theorem contextual_masking_of_email entity user domain :
  ent_type entity = "EMAIL_ADDRESS" →
  ent_text entity = user ++ lit "@" ++ domain →
  64%Z ∉ user → 64%Z ∉ domain →
  ProcessPii.applyContextualMasking entity
  = Ok (maskedUser user ++ lit "@" ++ domain)
  ∧ length (maskedUser user ++ lit "@" ++ domain) = length (ent_text entity).
Proof.
  intros Htype Htext Hu Hd. split.
  - unfold ProcessPii.applyContextualMasking. rewrite Htype, Htext.
    change (lit "@") with [64%Z].
    change (("EMAIL_ADDRESS" =? "EMAIL_ADDRESS")%string) with true.
    cbv iota.
    change (user ++ [64%Z] ++ domain) with (user ++ 64%Z :: domain).
    rewrite splitOn_app_sep, splitOn_no_sep by done.
    change ([user; domain] !! 0) with (Some user).
    change ([user; domain] !! 1) with (Some domain).
    cbn [default orUndefined].
    unfold maskedUser, ProcessPii.block, id.
    destruct (Nat.ltb_spec 2 (length user)) as [Hlen|Hlen].
    + rewrite jsRepeat_unit by lia. cbn [mbind result_bind].
      rewrite charAt_first, charAt_last by (intros ->; simpl in Hlen; lia).
      replace (Z.to_nat (Z.of_nat (length user) - 2)) with (length user - 2) by lia.
      done.
    + rewrite jsRepeat_unit by lia. cbn [mbind result_bind].
      by rewrite Nat2Z.id.
  - rewrite Htext, !length_app. f_equal. unfold maskedUser.
    destruct (Nat.ltb_spec 2 (length user)).
    + rewrite !length_app, length_take, length_replicate, length_drop. lia.
    + by rewrite length_replicate.
Qed.

Lemma contextual_masking_of_email_witness :
  ProcessPii.applyContextualMasking
    (mkEntity "EMAIL_ADDRESS" (lit "john@example.com") 0 16 0.96 high)
  = Ok (maskedUser (lit "john") ++ lit "@" ++ lit "example.com")
  ∧ length (maskedUser (lit "john") ++ lit "@" ++ lit "example.com")
    = length (lit "john@example.com").
Proof.
  apply (contextual_masking_of_email
           (mkEntity "EMAIL_ADDRESS" (lit "john@example.com") 0 16 0.96 high)
           (lit "john") (lit "example.com"));
    [reflexivity | reflexivity | |];
    apply (bool_decide_unpack _); by vm_compute.
Defined.

(** X13. Contextual Masking of an SSN, a phone number or a card number ends
    with the last four units of the original text. *)
Theorem contextual_masking_keeps_last_four entity masked :
  ent_type entity
    ∈ ["SSN"; "SSN_ALTERNATIVE"; "PHONE_NUMBER"; "INTERNATIONAL_PHONE";
       "CREDIT_CARD"] →
  ProcessPii.applyContextualMasking entity = Ok masked →
  ∃ mask, masked = mask ++ sliceLast 4 (ent_text entity).
Proof.
  intros Htype. unfold ProcessPii.applyContextualMasking.
  destruct entity as [type text start end_ confidence category].
  cbn [ent_type ent_text] in *.
  assert (Hssn : ∀ r,
            (if includesChar 45 text
             then Ok (lit "XXX-XX-" ++ sliceLast 4 text)
             else Ok (lit "XXX XX " ++ sliceLast 4 text)) = Ok r →
            ∃ mask, r = mask ++ sliceLast 4 text).
  { intros r. destruct (includesChar 45 text); intros [= <-];
      [by exists (lit "XXX-XX-")|by exists (lit "XXX XX ")]. }
  assert (Hphone : ∀ r,
            (if includesChar 40 text
             then Ok (lit "(XXX) XXX-" ++ sliceLast 4 text)
             else if includesChar 43 text
                  then xs ← jsRepeat (lit "X") (Z.of_nat (length text) - 6);
                       Ok (lit "+XX " ++ xs ++ lit " " ++ sliceLast 4 text)
                  else Ok (lit "XXX-XXX-" ++ sliceLast 4 text)) = Ok r →
            ∃ mask, r = mask ++ sliceLast 4 text).
  { intros r.
    destruct (includesChar 40 text); [intros [= <-]; by exists (lit "(XXX) XXX-")|].
    destruct (includesChar 43 text); [|intros [= <-]; by exists (lit "XXX-XXX-")].
    destruct (jsRepeat _ _) as [xs|]; [|done].
    intros [= <-]. exists (lit "+XX " ++ xs ++ lit " ").
    by rewrite <- !app_assoc. }
  repeat (apply elem_of_cons in Htype as [->|Htype]);
    [..|by apply elem_of_nil in Htype].
  - apply Hssn.
  - apply Hssn.
  - apply Hphone.
  - apply Hphone.
  - intros [= <-]. by exists (lit "XXXX-XXXX-XXXX-").
Qed.

Lemma contextual_masking_keeps_last_four_witness :
  ∃ mask, lit "XXX-XX-6789" = mask ++ sliceLast 4 (lit "123-45-6789").
Proof.
  apply (contextual_masking_keeps_last_four
           (mkEntity "SSN" (lit "123-45-6789") 4 15 0.98 high)).
  - left.
  - reflexivity.
Defined.

Section SyntheticFacts.
Import ProcessPii.

Lemma syntheticData_keys : NoDup (syntheticData.*1).
Proof. apply (bool_decide_unpack _). by vm_compute. Qed.

Lemma syntheticData_entries :
  Forall (λ kv, kv.2 ≠ [] ∧ Forall (λ s, lit s ≠ lit "undefined") kv.2)
         syntheticData.
Proof. apply (bool_decide_unpack _). by vm_compute. Qed.

Lemma find_key_Some {V} (table : list (string * V)) k v :
  NoDup (table.*1) → (k, v) ∈ table →
  find (λ kv, (fst kv =? k)%string) table = Some (k, v).
Proof.
  induction table as [|[k' v'] table IH]; intros Hnd Hin.
  - by apply elem_of_nil in Hin.
  - rewrite fmap_cons in Hnd. apply NoDup_cons in Hnd as [Hk' Hnd].
    cbn [find fst]. destruct (String.eqb_spec k' k) as [->|Hne].
    + apply elem_of_cons in Hin as [[= ->]|Hin]; [done|].
      exfalso. apply Hk'. apply list_elem_of_fmap. by exists (k, v).
    + apply elem_of_cons in Hin as [[= -> _]|Hin]; [done|]. by apply IH.
Qed.

Lemma find_key_None {V} (table : list (string * V)) k :
  k ∉ table.*1 → find (λ kv, (fst kv =? k)%string) table = None.
Proof.
  induction table as [|[k' v'] table IH]; intros Hk; [done|].
  cbn [find fst]. destruct (String.eqb_spec k' k) as [->|Hne].
  - exfalso. apply Hk. rewrite fmap_cons. left.
  - apply IH. intros Hin. apply Hk. rewrite fmap_cons. by right.
Qed.

Lemma find_key_elem_of {V} (table : list (string * V)) k kv :
  find (λ kv, (fst kv =? k)%string) table = Some kv → kv ∈ table ∧ kv.1 = k.
Proof.
  intros [Hin Hk]%find_some. split; [by apply list_elem_of_In|].
  by apply String.eqb_eq.
Qed.

Lemma generateSyntheticData_listed entityType options entityNum :
  (entityType, options) ∈ syntheticData →
  options ≠ []
  ∧ generateSyntheticData entityType entityNum
    = orUndefined (lit <$> options !! (entityNum mod length options)).
Proof.
  intros Hin. split.
  - exact (proj1 (proj1 (Forall_forall _ _) syntheticData_entries _ Hin)).
  - unfold generateSyntheticData.
    by rewrite (find_key_Some _ _ options syntheticData_keys Hin).
Qed.

End SyntheticFacts.

(** X14. For an entity type that is a key of [PII_PATTERNS],
    [generateSyntheticData] never returns [undefined]: for a type listed
    in [syntheticData] it returns the entry at index [entityNum mod k] of
    the [k] entries listed for it, and so repeats with period [k]; for
    a type not listed it returns [[SYNTHETIC_DATA]]. *)
Theorem generateSyntheticData_cycles entityType entityNum :
  entityType ∈ ProcessPii.piiPatternTypes →
  ProcessPii.generateSyntheticData entityType entityNum ≠ lit "undefined"
  ∧ (∀ options,
       (entityType, options) ∈ ProcessPii.syntheticData →
       (∃ s, options !! (entityNum mod length options) = Some s
             ∧ ProcessPii.generateSyntheticData entityType entityNum = lit s)
       ∧ ProcessPii.generateSyntheticData entityType (entityNum + length options)
         = ProcessPii.generateSyntheticData entityType entityNum)
  ∧ (entityType ∉ (ProcessPii.syntheticData).*1 →
     ProcessPii.generateSyntheticData entityType entityNum
     = lit "[SYNTHETIC_DATA]").
Proof.
  intros _.
  assert (Hlisted : ∀ options,
            (entityType, options) ∈ ProcessPii.syntheticData →
            ∃ s, s ∈ options
                 ∧ options !! (entityNum mod length options) = Some s
                 ∧ ProcessPii.generateSyntheticData entityType entityNum = lit s).
  { intros options Hin.
    destruct (generateSyntheticData_listed _ _ entityNum Hin) as [Hne Heq].
    destruct (lookup_lt_is_Some_2 options (entityNum mod length options))
      as [s Hs].
    { apply Nat.mod_upper_bound. by destruct options. }
    exists s. split_and!; [by apply list_elem_of_lookup_2 in Hs|done|].
    by rewrite Heq, Hs. }
  assert (Hother : entityType ∉ (ProcessPii.syntheticData).*1 →
            ProcessPii.generateSyntheticData entityType entityNum
            = lit "[SYNTHETIC_DATA]").
  { intros Hk. unfold ProcessPii.generateSyntheticData.
    rewrite find_key_None by done. cbn [fmap option_fmap option_map default].
    by rewrite Nat.mod_1_r. }
  split_and!.
  - destruct (find (λ kv, (fst kv =? entityType)%string) ProcessPii.syntheticData)
      as [[k options]|] eqn:Hfind.
    + apply find_key_elem_of in Hfind as [Hin Hk]. simpl in Hk. subst k.
      destruct (Hlisted options Hin) as (s & Hs & _ & ->).
      pose proof (proj1 (Forall_forall _ _) syntheticData_entries _ Hin)
        as [_ Hall].
      exact (proj1 (Forall_forall _ _) Hall s Hs).
    + rewrite Hother; [done|].
      intros ([k options] & Hk & Hin)%list_elem_of_fmap. simpl in Hk. subst k.
      by rewrite (find_key_Some _ _ options syntheticData_keys Hin) in Hfind.
  - intros options Hin. split.
    + destruct (Hlisted options Hin) as (s & _ & Hs & Heq). eauto.
    + destruct (generateSyntheticData_listed _ _ entityNum Hin) as [Hne ->].
      destruct (generateSyntheticData_listed _ _ (entityNum + length options) Hin)
        as [_ ->].
      replace ((entityNum + length options) mod length options)
        with (entityNum mod length options); [done|].
      rewrite <- (Nat.Div0.mod_add entityNum 1 (length options)).
      f_equal. lia.
  - exact Hother.
Qed.

Lemma generateSyntheticData_cycles_witness :
  ProcessPii.generateSyntheticData "PERSON" 13 ≠ lit "undefined"
  ∧ ProcessPii.generateSyntheticData "IBAN" 2 = lit "[SYNTHETIC_DATA]".
Proof.
  split.
  - apply (generateSyntheticData_cycles "PERSON" 13).
    apply (bool_decide_unpack _). by vm_compute.
  - apply (generateSyntheticData_cycles "IBAN" 2);
      apply (bool_decide_unpack _); by vm_compute.
Defined.


Section HashArithmetic.
Import ProcessPii.

Lemma toInt32_eq a : ∃ k, toInt32 a = (a + k * 2 ^ 32)%Z.
Proof.
  exists (- ((a + 2 ^ 31) / 2 ^ 32))%Z. unfold toInt32.
  rewrite Z.mod_eq by done. lia.
Qed.

Lemma toInt32_shift a k : toInt32 (a + k * 2 ^ 32) = toInt32 a.
Proof.
  unfold toInt32.
  replace (a + k * 2 ^ 32 + 2 ^ 31)%Z with (a + 2 ^ 31 + k * 2 ^ 32)%Z by lia.
  by rewrite Z.mod_add.
Qed.

Lemma toInt32_congruent a b :
  (a mod 2 ^ 32 = b mod 2 ^ 32)%Z → toInt32 a = toInt32 b.
Proof.
  intros H.
  rewrite (Z.div_mod a (2 ^ 32)), (Z.div_mod b (2 ^ 32)), H by done.
  rewrite !(Z.add_comm (2 ^ 32 * _)), !(Z.mul_comm (2 ^ 32)).
  by rewrite !toInt32_shift.
Qed.

Lemma hashStep_poly p c : hashStep (toInt32 p) c = toInt32 (31 * p + c).
Proof.
  unfold hashStep, and32, shl32. rewrite Z.land_diag, Z.shiftl_mul_pow2 by done.
  destruct (toInt32_eq p) as [k1 H1].
  destruct (toInt32_eq (toInt32 p)) as [k2 H2].
  destruct (toInt32_eq (toInt32 (toInt32 p) * 2 ^ 5)) as [k3 H3].
  destruct (toInt32_eq (toInt32 (toInt32 (toInt32 p) * 2 ^ 5) - toInt32 p + c))
    as [k4 H4].
  rewrite H4, H3, H2, H1.
  replace ((p + k1 * 2 ^ 32 + k2 * 2 ^ 32) * 2 ^ 5 + k3 * 2 ^ 32
           - (p + k1 * 2 ^ 32) + c + k4 * 2 ^ 32)%Z
    with (31 * p + c + (32 * k1 + 32 * k2 + k3 - k1 + k4) * 2 ^ 32)%Z by lia.
  apply toInt32_shift.
Qed.

Lemma fold_left_step {A B} (f : A → B → A) x l a :
  fold_left f (x :: l) a = fold_left f l (f a x).
Proof. reflexivity. Qed.

Lemma fold_hashStep_poly text p :
  fold_left hashStep text (toInt32 p)
  = toInt32 (fold_left (λ h c, (31 * h + c)%Z) text p).
Proof.
  revert p. induction text as [|c text IH]; intros p; [reflexivity|].
  rewrite !fold_left_step, hashStep_poly. exact (IH (31 * p + c)%Z).
Qed.

Lemma hash_of_text text : fold_left hashStep text 0%Z = toInt32 (polyHash text).
Proof. apply (fold_hashStep_poly text 0). Qed.

Lemma generateCryptographicHash_congruent text1 text2 entityType :
  (polyHash text1 mod 2 ^ 32 = polyHash text2 mod 2 ^ 32)%Z →
  generateCryptographicHash text1 entityType
  = generateCryptographicHash text2 entityType.
Proof.
  intros H. unfold generateCryptographicHash.
  by rewrite !hash_of_text, (toInt32_congruent _ _ H).
Qed.

Lemma polyHash_Aa_BB prefix suffix :
  polyHash (prefix ++ lit "Aa" ++ suffix) = polyHash (prefix ++ lit "BB" ++ suffix).
Proof.
  unfold polyHash. rewrite !fold_left_app. f_equal.
  change (lit "Aa") with [65; 97]%Z. change (lit "BB") with [66; 66]%Z.
  cbn [fold_left]. lia.
Qed.

End HashArithmetic.

(** X15. The loop of [generateCryptographicHash] computes the polynomial
    c0*31^(n-1) + ... + c(n-1) reduced to a signed 32-bit integer, so two
    texts whose polynomials agree modulo 2^32 receive the same token. *)
Theorem hash_token_of_polynomial text1 text2 entityType :
  (polyHash text1 mod 2 ^ 32 = polyHash text2 mod 2 ^ 32)%Z →
  ProcessPii.generateCryptographicHash text1 entityType
  = ProcessPii.generateCryptographicHash text2 entityType
  ∧ fold_left ProcessPii.hashStep text1 0%Z = toInt32 (polyHash text1).
Proof.
  intros H. split; [by apply generateCryptographicHash_congruent|].
  apply hash_of_text.
Qed.

Lemma hash_token_of_polynomial_witness :
  ProcessPii.generateCryptographicHash (lit "Aa") "PERSON"
  = ProcessPii.generateCryptographicHash (lit "BB") "PERSON"
  ∧ fold_left ProcessPii.hashStep (lit "Aa") 0%Z = toInt32 (polyHash (lit "Aa")).
Proof. apply hash_token_of_polynomial. reflexivity. Defined.

(** X16. Cryptographic Hash is not injective: for every prefix and suffix the
    different texts prefix Aa suffix and prefix BB suffix receive the same
    token. *)
Theorem hash_collisions prefix suffix entityType :
  prefix ++ lit "Aa" ++ suffix ≠ prefix ++ lit "BB" ++ suffix
  ∧ ProcessPii.generateCryptographicHash (prefix ++ lit "Aa" ++ suffix) entityType
    = ProcessPii.generateCryptographicHash (prefix ++ lit "BB" ++ suffix) entityType.
Proof.
  split.
  - intros H. apply app_inv_head in H. discriminate.
  - apply generateCryptographicHash_congruent. by rewrite polyHash_Aa_BB.
Qed.


Section SortUnique.
Context {A : Type} (cmp : A → A → Z) (key : A → Z).
Hypothesis cmp_key : ∀ a b, cmp a b = (key a - key b)%Z.

Lemma sortBy_perm_unique l1 l2 :
  l1 ≡ₚ l2 → NoDup (key <$> l1) → sortBy cmp l1 = sortBy cmp l2.
Proof.
  intros Hperm Hnd.
  apply (StronglySorted_unique_strong (λ a b, (key a ≤ key b)%Z)).
  - intros x1 x2 Hx1 Hx2 H12 H21.
    apply elem_of_sortBy in Hx1, Hx2. rewrite <- Hperm in Hx2.
    apply (NoDup_fmap_eq key l1); [done..|lia].
  - by apply sortBy_sorted.
  - by apply sortBy_sorted.
  - by rewrite !sortBy_perm.
Qed.

End SortUnique.

Section OrderFacts.

Lemma NoDup_starts_neg (l : list PIIEntity) :
  NoDup (ent_start <$> l) → NoDup ((λ e, (- Z.of_nat (ent_start e))%Z) <$> l).
Proof.
  intros H.
  replace ((λ e, (- Z.of_nat (ent_start e))%Z) <$> l)
    with ((λ n, (- Z.of_nat n)%Z) <$> (ent_start <$> l))
    by (rewrite <- list_fmap_compose; done).
  apply NoDup_fmap_2; [|done]. intros a b Hab. lia.
Qed.

Lemma NoDup_starts_pos (l : list PIIEntity) :
  NoDup (ent_start <$> l) → NoDup ((λ e, Z.of_nat (ent_start e)) <$> l).
Proof.
  intros H.
  replace ((λ e, Z.of_nat (ent_start e)) <$> l)
    with (Z.of_nat <$> (ent_start <$> l))
    by (rewrite <- list_fmap_compose; done).
  apply NoDup_fmap_2; [|done]. intros a b Hab. lia.
Qed.

Lemma NoDup_starts_filter (P : PIIEntity → Prop) `{∀ x, Decision (P x)} l :
  NoDup (ent_start <$> l) → NoDup (ent_start <$> filter P l).
Proof.
  intros Hnd. eapply sublist_NoDup; [exact Hnd|].
  apply fmap_sublist, sublist_filter.
Qed.

End OrderFacts.

(** X17. When no two entities start at the same position, the output of
    [applyRedaction] and of the Dashboard's redaction does not depend on
    the order in which the entities are listed. *)
Theorem redaction_order_independent text es1 es2 :
  es1 ≡ₚ es2 → NoDup (ent_start <$> es1) →
  (∀ method,
     ProcessPii.applyRedaction text es1 method
     = ProcessPii.applyRedaction text es2 method)
  ∧ (∀ rnd selectedMethod,
       Dashboard.redact rnd selectedMethod text es1
       = Dashboard.redact rnd selectedMethod text es2).
Proof.
  intros Hperm Hnd. split.
  - intros method. unfold ProcessPii.applyRedaction.
    rewrite (sortBy_perm_unique _ _ byStartDesc_key es1 es2); [done|done|].
    by apply NoDup_starts_neg.
  - intros rnd selectedMethod. unfold Dashboard.redact, Dashboard.nameIndexMapOf,
      Dashboard.nameEntitiesInOrder.
    rewrite (sortBy_perm_unique _ _ dashboard_byStartDesc_key es1 es2);
      [|done|by apply NoDup_starts_neg].
    rewrite (sortBy_perm_unique _ _ byStartAsc_key
               (filter (λ e, ent_type e = "NAME") es1)
               (filter (λ e, ent_type e = "NAME") es2)); [done| |].
    + by rewrite Hperm.
    + by apply NoDup_starts_pos, NoDup_starts_filter.
Qed.

Lemma redaction_order_independent_witness :
  ProcessPii.applyRedaction (lit "Mail a@b.co or c@d.io now")
    [ mkEntity "EMAIL_ADDRESS" (lit "a@b.co") 5 11 0.96 high;
      mkEntity "EMAIL_ADDRESS" (lit "c@d.io") 15 21 0.96 high ]
    "Smart Placeholders"
  = ProcessPii.applyRedaction (lit "Mail a@b.co or c@d.io now")
      [ mkEntity "EMAIL_ADDRESS" (lit "c@d.io") 15 21 0.96 high;
        mkEntity "EMAIL_ADDRESS" (lit "a@b.co") 5 11 0.96 high ]
      "Smart Placeholders".
Proof.
  apply (redaction_order_independent (lit "Mail a@b.co or c@d.io now")
           [ mkEntity "EMAIL_ADDRESS" (lit "a@b.co") 5 11 0.96 high;
             mkEntity "EMAIL_ADDRESS" (lit "c@d.io") 15 21 0.96 high ]
           [ mkEntity "EMAIL_ADDRESS" (lit "c@d.io") 15 21 0.96 high;
             mkEntity "EMAIL_ADDRESS" (lit "a@b.co") 5 11 0.96 high ]).
  - apply perm_swap.
  - apply (bool_decide_unpack _). by vm_compute.
Defined.


Section CountFacts.

Lemma categoryName_inj c1 c2 : categoryName c1 = categoryName c2 → c1 = c2.
Proof. by destruct c1, c2. Qed.

Lemma countOf_cons c e es :
  countOf c (e :: es)
  = (if decide (ent_category e = c) then 1 else 0) + countOf c es.
Proof.
  unfold countOf. rewrite filter_cons. by destruct (decide (ent_category e = c)).
Qed.

Lemma fold_countStep es (m : gmap string nat) c :
  fold_left countStep es m !! categoryName c
  = if countOf c es =? 0 then m !! categoryName c
    else Some (default 0 (m !! categoryName c) + countOf c es).
Proof.
  revert m. induction es as [|e es IH]; intros m; [done|].
  cbn [fold_left]. rewrite IH, countOf_cons. unfold countStep.
  destruct (decide (ent_category e = c)) as [->|Hne].
  - rewrite lookup_insert_eq. cbn [default].
    destruct (Nat.eqb_spec (countOf c es) 0) as [->|?]; simpl;
      f_equal; lia.
  - rewrite lookup_insert_ne by (intros H; by apply categoryName_inj in H).
    done.
Qed.

Lemma fold_countStep_other es (m : gmap string nat) k :
  k ∉ categoryName <$> [high; medium; low] →
  fold_left countStep es m !! k = m !! k.
Proof.
  intros Hk. revert m. induction es as [|e es IH]; intros m; [done|].
  cbn [fold_left]. rewrite IH. unfold countStep.
  apply lookup_insert_ne. intros <-. apply Hk.
  apply list_elem_of_fmap. exists (ent_category e). split; [done|].
  destruct (ent_category e); [left|right; left|right; right; left].
Qed.

Lemma countOf_total es :
  countOf high es + countOf medium es + countOf low es = length es.
Proof.
  induction es as [|e es IH]; [done|].
  rewrite !countOf_cons. simpl. destruct (ent_category e); simpl; lia.
Qed.

End CountFacts.

(** X18. The [entityCounts] object of the response holds, for each risk
    category that occurs, the number of entities in it, and no other
    key; a category that does not occur is absent rather than 0.  The
    three per-category counts add up to the number of entities. *)
Theorem countByCategory_counts entities :
  (∀ c, countByCategory entities !! categoryName c
        = if countOf c entities =? 0 then None else Some (countOf c entities))
  ∧ (∀ k, k ∉ categoryName <$> [high; medium; low] →
          countByCategory entities !! k = None)
  ∧ countOf high entities + countOf medium entities + countOf low entities
    = length entities.
Proof.
  split_and!.
  - intros c. unfold countByCategory. rewrite fold_countStep.
    by rewrite lookup_empty.
  - intros k Hk. unfold countByCategory. by rewrite fold_countStep_other.
  - apply countOf_total.
Qed.

Lemma countByCategory_counts_witness :
  countByCategory [mkEntity "SSN" (lit "123-45-6789") 4 15 0.98 high] !! "risk"
  = None.
Proof.
  apply (proj1 (proj2 (countByCategory_counts _))).
  apply (bool_decide_unpack _). by vm_compute.
Defined.

(** X19. The [process-pii] handler answers a preflight only to OPTIONS, an
    error only with status 400 (falsy text) or 500, and a result only for
    a non-empty string text: the text, the filtered scan, its redaction
    and the entity count, and only if no requested write threw. *)
Theorem serve_responses scanPatterns persist req :
  match ProcessPii.serve scanPatterns persist req with
  | ProcessPii.Preflight => ProcessPii.req_method req = "OPTIONS"
  | ProcessPii.ErrorResponse status error =>
      ProcessPii.req_method req ≠ "OPTIONS"
      ∧ ((status = 400 ∧ error = "Text is required"
          ∧ ∃ body, ProcessPii.req_json req = Ok body
                    ∧ ProcessPii.isTruthyText (ProcessPii.body_text body) = false)
         ∨ (status = 500 ∧ error = "Internal server error"))
  | ProcessPii.ResultResponse r =>
      ProcessPii.req_method req ≠ "OPTIONS"
      ∧ ∃ body candidates,
          ProcessPii.req_json req = Ok body
          ∧ ProcessPii.body_text body
            = ProcessPii.TextString (ProcessPii.res_originalText r)
          ∧ ProcessPii.res_originalText r ≠ []
          ∧ scanPatterns (ProcessPii.res_originalText r) = Ok candidates
          ∧ ProcessPii.res_entities r = ProcessPii.filterOverlaps candidates
          ∧ ProcessPii.applyRedaction (ProcessPii.res_originalText r)
              (ProcessPii.res_entities r)
              (default "Smart Placeholders" (ProcessPii.body_redactionMethod body))
            = Ok (ProcessPii.res_redactedText r)
          ∧ ProcessPii.res_totalEntities r = length (ProcessPii.res_entities r)
          ∧ (∀ documentId,
               ProcessPii.body_documentId body = Some documentId →
               documentId ≠ [] →
               persist documentId r
                 (default "Smart Placeholders"
                    (ProcessPii.body_redactionMethod body)) = Ok ())
  end.
Proof.
  unfold ProcessPii.serve.
  destruct (String.eqb_spec (ProcessPii.req_method req) "OPTIONS") as [?|Hm];
    [done|].
  destruct (ProcessPii.req_json req) as [body|e] eqn:Hjson; simpl;
    [|split; [done|by right]].
  unfold ProcessPii.process.
  destruct (ProcessPii.isTruthyText (ProcessPii.body_text body)) eqn:Htruthy; simpl.
  2:{ split; [done|]. left. split_and!; [done..|]. by exists body. }
  destruct (ProcessPii.body_text body) as [|text|] eqn:Htext;
    [done| |split; [done|by right]].
  simpl in Htruthy. apply negb_true_iff, bool_decide_eq_false in Htruthy.
  unfold ProcessPii.detectPII.
  destruct (scanPatterns text) as [candidates|] eqn:Hscan; simpl;
    [|split; [done|by right]].
  destruct (ProcessPii.applyRedaction text _ _) as [redactedText|] eqn:Hred; simpl;
    [|split; [done|by right]].
  destruct (ProcessPii.body_documentId body) as [documentId|] eqn:Hdoc.
  - case_bool_decide as Hempty; simpl.
    + split; [done|]. exists body, candidates. simpl.
      split_and!; try done.
      intros d Hd. rewrite Hdoc in Hd. by injection Hd as <-.
    + destruct (persist documentId _ _) as [[]|] eqn:Hp; simpl;
        [|split; [done|by right]].
      split; [done|]. exists body, candidates. simpl.
      split_and!; try done.
      intros d Hd _. rewrite Hdoc in Hd. by injection Hd as <-.
  - simpl. split; [done|]. exists body, candidates. simpl.
    split_and!; try done. intros d Hd. by rewrite Hdoc in Hd.
Qed.

Lemma serve_responses_witness :
  ProcessPii.req_method
    {| ProcessPii.req_method := "OPTIONS";
       ProcessPii.req_json := Err (Rejected "no body") |} = "OPTIONS".
Proof.
  exact (serve_responses Samples.emptyScan Samples.acceptingStore
           {| ProcessPii.req_method := "OPTIONS";
              ProcessPii.req_json := Err (Rejected "no body") |}).
Defined.

(** X20. Persisting the result does not change it: a result returned for a
    request with a document id is the result returned for the same
    request without one, whatever the store does. *)
Theorem stored_result_is_returned_result scanPatterns persist req body r :
  ProcessPii.req_json req = Ok body →
  ProcessPii.serve scanPatterns persist req = ProcessPii.ResultResponse r →
  ∀ persist',
    ProcessPii.serve scanPatterns persist'
      {| ProcessPii.req_method := ProcessPii.req_method req;
         ProcessPii.req_json :=
           Ok {| ProcessPii.body_text := ProcessPii.body_text body;
                 ProcessPii.body_documentId := None;
                 ProcessPii.body_redactionMethod :=
                   ProcessPii.body_redactionMethod body |} |}
    = ProcessPii.ResultResponse r.
Proof.
  intros Hjson Hserve persist'. revert Hserve.
  unfold ProcessPii.serve. simpl.
  destruct (ProcessPii.req_method req =? "OPTIONS")%string; [done|].
  rewrite Hjson. simpl. unfold ProcessPii.process. simpl.
  destruct (ProcessPii.isTruthyText (ProcessPii.body_text body)); simpl; [|done].
  destruct (ProcessPii.body_text body) as [|text|]; [done| |done].
  destruct (ProcessPii.detectPII scanPatterns text) as [entities|]; simpl; [|done].
  destruct (ProcessPii.applyRedaction text entities _) as [redactedText|]; simpl;
    [|done].
  destruct (ProcessPii.body_documentId body) as [documentId|]; [|done].
  case_bool_decide; [done|].
  by destruct (persist documentId _ _) as [[]|].
Qed.

Lemma stored_result_is_returned_result_witness :
  ProcessPii.serve Samples.emptyScan (λ _ _ _, Err (Rejected "store is down"))
    {| ProcessPii.req_method := "POST";
       ProcessPii.req_json :=
         Ok {| ProcessPii.body_text := ProcessPii.TextString (lit "hello");
               ProcessPii.body_documentId := None;
               ProcessPii.body_redactionMethod := Some "Partial Visibility" |} |}
  = ProcessPii.ResultResponse
      {| ProcessPii.res_originalText := lit "hello";
         ProcessPii.res_entities := [];
         ProcessPii.res_redactedText := lit "hello";
         ProcessPii.res_totalEntities := 0 |}.
Proof.
  apply (stored_result_is_returned_result Samples.emptyScan Samples.acceptingStore
           {| ProcessPii.req_method := "POST";
              ProcessPii.req_json :=
                Ok {| ProcessPii.body_text := ProcessPii.TextString (lit "hello");
                      ProcessPii.body_documentId := Some (lit "doc-1");
                      ProcessPii.body_redactionMethod := Some "Partial Visibility" |} |}
           {| ProcessPii.body_text := ProcessPii.TextString (lit "hello");
              ProcessPii.body_documentId := Some (lit "doc-1");
              ProcessPii.body_redactionMethod := Some "Partial Visibility" |});
    reflexivity.
Defined.

Section MergePrefix.
Import Dashboard.

Lemma fold_mergeStep_prefix l mergedMap :
  ∃ rest, fold_left mergeStep l mergedMap = mergedMap ++ rest
          ∧ sublist (rest.*2) l
          ∧ Forall (λ ke, ke.1 = spanKey ke.2 ∧ ke.1 ∉ mergedMap.*1) rest.
Proof.
  revert mergedMap. induction l as [|e l IH]; intros acc.
  - exists []. by rewrite app_nil_r.
  - cbn [fold_left]. unfold mergeStep at 2. case_bool_decide as Hin.
    + destruct (IH acc) as (rest & Heq & Hsub & Hfresh).
      exists rest. split_and!; [done|by apply sublist_cons|done].
    + destruct (IH (acc ++ [(spanKey e, e)])) as (rest & Heq & Hsub & Hfresh).
      exists ((spanKey e, e) :: rest). split_and!.
      * by rewrite Heq, <- app_assoc.
      * rewrite fmap_cons. by apply sublist_skip.
      * constructor; [done|].
        eapply Forall_impl; [exact Hfresh|]. intros ke [Hkey Hke].
        split; [done|]. intros Hk. apply Hke.
        rewrite fmap_app. apply elem_of_app. by left.
Qed.

Lemma fold_mergeStep_fresh l mergedMap :
  NoDup (spanKey <$> l) →
  (∀ e, e ∈ l → spanKey e ∉ mergedMap.*1) →
  fold_left mergeStep l mergedMap = mergedMap ++ ((λ e, (spanKey e, e)) <$> l).
Proof.
  revert mergedMap. induction l as [|e l IH]; intros acc Hnd Hfresh.
  - by rewrite app_nil_r.
  - cbn [fold_left]. unfold mergeStep at 2.
    rewrite bool_decide_eq_false_2 by (apply Hfresh; left).
    rewrite fmap_cons in Hnd. apply NoDup_cons in Hnd as [Hne Hnd].
    rewrite IH; [by rewrite <- app_assoc|done|].
    intros x Hx. rewrite fmap_app. intros [Hk|Hk]%elem_of_app.
    + by apply (Hfresh x); [right|].
    + apply list_elem_of_singleton in Hk. simpl in Hk. apply Hne.
      rewrite <- Hk. apply list_elem_of_fmap. by exists x.
Qed.

Lemma snd_pairs (l : list PIIEntity) : ((λ e, (spanKey e, e)) <$> l).*2 = l.
Proof. rewrite <- list_fmap_compose. apply list_fmap_id. Qed.

Lemma fst_pairs (l : list PIIEntity) :
  ((λ e, (spanKey e, e)) <$> l).*1 = spanKey <$> l.
Proof. by rewrite <- list_fmap_compose. Qed.

End MergePrefix.

(** X21. When the pattern-based entities have pairwise distinct spans, the
    Dashboard merge returns them first and in order, followed by model
    entities in their order, each with a span no pattern-based entity has;
    when all spans are distinct the merge is the concatenation. *)
Theorem mergeEntities_keeps_regex_entities regexEntities nerNameEntities :
  NoDup (Dashboard.spanKey <$> regexEntities) →
  (∃ rest,
     Dashboard.mergeEntities regexEntities nerNameEntities = regexEntities ++ rest
     ∧ sublist rest nerNameEntities
     ∧ Forall (λ e, Dashboard.spanKey e ∉ Dashboard.spanKey <$> regexEntities) rest)
  ∧ (NoDup (Dashboard.spanKey <$> regexEntities ++ nerNameEntities) →
     Dashboard.mergeEntities regexEntities nerNameEntities
     = regexEntities ++ nerNameEntities).
Proof.
  intros Hnd. split.
  - unfold Dashboard.mergeEntities. rewrite fold_left_app.
    rewrite (fold_mergeStep_fresh regexEntities []);
      [|done|intros e _; by intros ?%elem_of_nil].
    rewrite app_nil_l.
    destruct (fold_mergeStep_prefix nerNameEntities
                ((λ e, (Dashboard.spanKey e, e)) <$> regexEntities))
      as (rest & -> & Hsub & Hfresh).
    exists (rest.*2). rewrite fmap_app, snd_pairs. split_and!; [done..|].
    apply Forall_fmap. eapply Forall_impl; [exact Hfresh|].
    intros [k e] [Hkey Hk]. simpl in *. rewrite fst_pairs in Hk. by subst k.
  - intros Hall. unfold Dashboard.mergeEntities.
    rewrite (fold_mergeStep_fresh _ []);
      [|done|intros e _; by intros ?%elem_of_nil].
    by rewrite app_nil_l, snd_pairs.
Qed.

Lemma mergeEntities_keeps_regex_entities_witness :
  Dashboard.mergeEntities
    [ mkEntity "EMAIL" (lit "a@b.co") 5 11 0.98 high ]
    [ mkEntity "NAME" (lit "Ann Lee") 15 22 0.99 high ]
  = [ mkEntity "EMAIL" (lit "a@b.co") 5 11 0.98 high ]
    ++ [ mkEntity "NAME" (lit "Ann Lee") 15 22 0.99 high ].
Proof.
  apply (proj2 (mergeEntities_keeps_regex_entities
                  [ mkEntity "EMAIL" (lit "a@b.co") 5 11 0.98 high ]
                  [ mkEntity "NAME" (lit "Ann Lee") 15 22 0.99 high ]
                  ltac:(apply (bool_decide_unpack _); by vm_compute))).
  apply (bool_decide_unpack _). by vm_compute.
Defined.


Section DashboardStrategies.
Import Dashboard.
Context (rnd : nat → jsstring).

Lemma mjoin_step {A} (x : list A) l : mjoin (x :: l) = x ++ mjoin l.
Proof. done. Qed.

Lemma interleave_empty pos text es :
  interleave (entityFreeRegions pos text es) ((λ _, []) <$> es)
  = mjoin (entityFreeRegions pos text es).
Proof.
  revert pos. induction es as [|e es IH]; intros pos.
  - simpl. by rewrite app_nil_r.
  - cbn [entityFreeRegions fmap list_fmap interleave mjoin].
    change (list_fmap _ _ (λ _, []) es) with ((λ _ : PIIEntity, @nil Z) <$> es).
    by rewrite IH.
Qed.

Lemma length_interleave pos text es rs :
  canonicalFrom pos (length text) es → length rs = length es →
  length (interleave (entityFreeRegions pos text es) rs) + coveredLength es
  = (length text - pos) + length (mjoin rs).
Proof.
  revert pos rs. induction es as [|e es IH]; intros pos rs Hcan Hlen.
  - destruct rs; [|done]. simpl. by rewrite length_drop.
  - destruct rs as [|r rs]; [done|]. destruct Hcan as (Hpos & Hwf & Hcan).
    pose proof (canonicalFrom_le _ _ _ Hcan) as Hend.
    specialize (IH (ent_end e) rs Hcan ltac:(by injection Hlen)).
    change (mjoin (r :: rs)) with (r ++ mjoin rs).
    cbn [entityFreeRegions interleave coveredLength foldr].
    rewrite !length_app. fold (coveredLength es).
    unfold substring. rewrite length_take, length_drop. lia.
Qed.

Lemma fold_redactStep_tokens nameIndexMap l t calls :
  fold_left (redactStep rnd "Tokenization" nameIndexMap) l (t, calls)
  = (fold_left splice
       (zip l ((λ k, lit "TOKEN_" ++ rnd k) <$> seq calls (length l))) t,
     calls + length l).
Proof.
  revert t calls. induction l as [|e l IH]; intros t calls.
  - simpl. by rewrite Nat.add_0_r.
  - cbn [fold_left length seq fmap list_fmap zip zip_with].
    rewrite dashboard_redactStep_splice.
    change (replacementFor rnd "Tokenization" nameIndexMap calls e)
      with (lit "TOKEN_" ++ rnd calls, S calls).
    cbn [fst snd]. rewrite IH. f_equal. lia.
Qed.

End DashboardStrategies.

(** X22. For a canonical entity list, Complete Removal returns the
    entity-free regions concatenated, shortening the text by the total
    span length; Masking replaces each span by at most eight asterisks
    and never lengthens the text when every entity text has the length
    of its span. *)
Theorem dashboard_removal_and_masking rnd text es :
  Canonical text es →
  Dashboard.redact rnd "Complete Removal" text es
  = mjoin (entityFreeRegions 0 text es)
  ∧ length (Dashboard.redact rnd "Complete Removal" text es) + coveredLength es
    = length text
  ∧ Dashboard.redact rnd "Masking" text es
    = interleave (entityFreeRegions 0 text es)
        ((λ e, replicate (Nat.min (length (ent_text e)) 8) 42%Z) <$> es)
  ∧ (Forall (λ e, length (ent_text e) = ent_end e - ent_start e) es →
     length (Dashboard.redact rnd "Masking" text es) ≤ length text).
Proof.
  intros Hcan.
  assert (Hremoval : Dashboard.redact rnd "Complete Removal" text es
                     = interleave (entityFreeRegions 0 text es) ((λ _, []) <$> es)).
  { by apply (redact_pure_canonical rnd "Complete Removal" (λ _, [])). }
  assert (Hmasking : Dashboard.redact rnd "Masking" text es
                     = interleave (entityFreeRegions 0 text es)
                         ((λ e, replicate (Nat.min (length (ent_text e)) 8) 42%Z)
                            <$> es)).
  { by apply (redact_pure_canonical rnd "Masking"
                (λ e, replicate (Nat.min (length (ent_text e)) 8) 42%Z)). }
  split_and!.
  - by rewrite Hremoval, interleave_empty.
  - rewrite Hremoval.
    pose proof (length_interleave 0 text es ((λ _, []) <$> es) Hcan) as H.
    rewrite length_fmap in H. specialize (H eq_refl).
    assert (length (mjoin ((λ _ : PIIEntity, @nil Z) <$> es)) = 0) as Hz.
    { clear. induction es; [done|]. by rewrite fmap_cons. }
    rewrite Hz in H. lia.
  - done.
  - intros Hspans. rewrite Hmasking.
    pose proof (length_interleave 0 text es
                  ((λ e, replicate (Nat.min (length (ent_text e)) 8) 42%Z) <$> es)
                  Hcan) as H.
    rewrite length_fmap in H. specialize (H eq_refl).
    assert (length (mjoin ((λ e, replicate (Nat.min (length (ent_text e)) 8) 42%Z)
                             <$> es)) ≤ coveredLength es) as Hle.
    { clear -Hspans. induction Hspans as [|e es He _ IH]; [done|].
      rewrite fmap_cons, mjoin_step. cbn [coveredLength foldr].
      fold (coveredLength es). rewrite length_app, length_replicate. lia. }
    lia.
Qed.

Lemma dashboard_removal_and_masking_witness :
  Dashboard.redact Samples.countingRnd "Complete Removal"
    (lit "Mail a@b.co or c@d.io now")
    [ mkEntity "EMAIL" (lit "a@b.co") 5 11 0.98 high;
      mkEntity "EMAIL" (lit "c@d.io") 15 21 0.98 high ]
  = mjoin (entityFreeRegions 0 (lit "Mail a@b.co or c@d.io now")
             [ mkEntity "EMAIL" (lit "a@b.co") 5 11 0.98 high;
               mkEntity "EMAIL" (lit "c@d.io") 15 21 0.98 high ]).
Proof.
  apply dashboard_removal_and_masking. vm_compute. lia.
Defined.

(** X23. For a canonical entity list, Tokenization hands the k-th random draw
    to the k-th entity counted from the end of the document. *)
Theorem tokenization_draws rnd text es :
  Canonical text es →
  Dashboard.redact rnd "Tokenization" text es
  = interleave (entityFreeRegions 0 text es)
      (reverse ((λ k, lit "TOKEN_" ++ rnd k) <$> seq 0 (length es))).
Proof.
  intros Hcan. unfold Dashboard.redact.
  rewrite (dashboard_sortBy_canonical 0 (length text)) by done.
  rewrite fold_redactStep_tokens. cbn [fst]. rewrite length_reverse.
  rewrite <- (reverse_involutive ((λ k, lit "TOKEN_" ++ rnd k) <$> seq 0 (length es)))
    at 1.
  rewrite zip_reverse by (by rewrite length_reverse, length_fmap, length_seq).
  rewrite (splice_descending text es _ 0); [done|done|].
  by rewrite length_reverse, length_fmap, length_seq.
Qed.

Lemma tokenization_draws_witness :
  Dashboard.redact Samples.countingRnd "Tokenization"
    (lit "Mail a@b.co or c@d.io now")
    [ mkEntity "EMAIL" (lit "a@b.co") 5 11 0.98 high;
      mkEntity "EMAIL" (lit "c@d.io") 15 21 0.98 high ]
  = interleave
      (entityFreeRegions 0 (lit "Mail a@b.co or c@d.io now")
         [ mkEntity "EMAIL" (lit "a@b.co") 5 11 0.98 high;
           mkEntity "EMAIL" (lit "c@d.io") 15 21 0.98 high ])
      (reverse ((λ k, lit "TOKEN_" ++ Samples.countingRnd k) <$> seq 0 2))
  ∧ interleave
      (entityFreeRegions 0 (lit "Mail a@b.co or c@d.io now")
         [ mkEntity "EMAIL" (lit "a@b.co") 5 11 0.98 high;
           mkEntity "EMAIL" (lit "c@d.io") 15 21 0.98 high ])
      (reverse ((λ k, lit "TOKEN_" ++ Samples.countingRnd k) <$> seq 0 2))
    = lit "Mail TOKEN_1 or TOKEN_0 now".
Proof.
  split; [|reflexivity].
  apply (tokenization_draws Samples.countingRnd (lit "Mail a@b.co or c@d.io now")
           [ mkEntity "EMAIL" (lit "a@b.co") 5 11 0.98 high;
             mkEntity "EMAIL" (lit "c@d.io") 15 21 0.98 high ]).
  vm_compute. lia.
Defined.


Section CsvFacts.

Lemma readQuotedBody_doubleQuotes text rest :
  head rest ≠ Some 34%Z →
  readQuotedBody (doubleQuotes text ++ [34%Z] ++ rest) = Some (text, rest).
Proof.
  intros Hrest. induction text as [|c text IH].
  - simpl. destruct rest as [|c' rest]; [done|].
    destruct (Z.eqb_spec c' 34) as [->|?]; [by destruct Hrest|done].
  - unfold doubleQuotes in *. rewrite bind_cons.
    destruct (Z.eqb_spec c 34) as [->|Hc].
    + cbn [app readQuotedBody Z.eqb Pos.eqb]. cbn [app] in IH. by rewrite IH.
    + cbn [app readQuotedBody]. cbn [app] in IH.
      destruct (Z.eqb_spec c 34); [done|]. by rewrite IH.
Qed.

Lemma readQuoted_csvField text rest :
  head rest ≠ Some 34%Z → readQuoted (csvField text ++ rest) = Some (text, rest).
Proof.
  intros Hrest. unfold csvField.
  rewrite <- !app_assoc. cbn [app readQuoted Z.eqb Pos.eqb].
  by apply readQuotedBody_doubleQuotes.
Qed.

End CsvFacts.

(** X24. The quoted CSV field written by both CSV writers can be read back
    whatever the text contains, so the encoding is injective, and the
    text column of a row of either writer reads back as the entity text. *)
Theorem csv_field_round_trip :
  (∀ text rest,
     head rest ≠ Some 34%Z → readQuoted (csvField text ++ rest) = Some (text, rest))
  ∧ (∀ text1 text2, csvField text1 = csvField text2 → text1 = text2)
  ∧ (∀ showNumber entity,
       ∃ rest,
         readQuoted (drop (length (lit (ent_type entity)) + 1)
                       (ExportResults.csvRow showNumber entity))
         = Some (ent_text entity, rest))
  ∧ (∀ percent entity,
       ∃ rest,
         readQuoted (drop (length (lit (ent_type entity)) + 1)
                       (dashboardCsvRow percent entity))
         = Some (ent_text entity, rest)).
Proof.
  split_and!.
  - apply readQuoted_csvField.
  - intros text1 text2 Heq.
    pose proof (readQuoted_csvField text1 [] ltac:(done)) as H1.
    pose proof (readQuoted_csvField text2 [] ltac:(done)) as H2.
    rewrite !app_nil_r in H1, H2. rewrite Heq, H2 in H1. by injection H1.
  - intros showNumber entity. eexists. unfold ExportResults.csvRow.
    change (lit ",") with [44%Z].
    rewrite (app_assoc (lit (ent_type entity)) [44%Z]).
    rewrite drop_app_length' by (rewrite length_app; simpl; lia).
    apply readQuoted_csvField. done.
  - intros percent entity. eexists. unfold dashboardCsvRow.
    cbn [join]. change (lit ",") with [44%Z].
    rewrite (app_assoc (lit (ent_type entity)) [44%Z]).
    rewrite drop_app_length' by (rewrite length_app; simpl; lia).
    apply readQuoted_csvField. done.
Qed.

Lemma csv_field_round_trip_witness :
  readQuoted (csvField (lit "He said " ++ [34%Z] ++ lit "hi" ++ [34%Z]) ++ lit ",12")
  = Some (lit "He said " ++ [34%Z] ++ lit "hi" ++ [34%Z], lit ",12").
Proof. apply (proj1 csv_field_round_trip). discriminate. Defined.


Section ExportFacts.
Import ExportResults.
Context (div100 : Q → Q) (showNumber : Q → jsstring) (today : jsstring).
Context (generateTextReport generateJSONReport generateXMLReport :
           ProcessingResult → list PIIEntity → ExportOptions → ExportStats
           → jsstring).

Lemma render_supported format result filteredEntities options stats content mimeType :
  render showNumber generateTextReport generateJSONReport generateXMLReport
    format result filteredEntities options stats = Ok (content, mimeType) →
  format ∈ supportedFormats ∧ (options = None → format = "csv").
Proof.
  unfold render, supportedFormats.
  destruct (String.eqb_spec format "txt") as [->|?].
  { destruct options; [|done]. intros _. split; [left|done]. }
  destruct (String.eqb_spec format "json") as [->|?].
  { destruct options; [|done]. intros _. split; [right; left|done]. }
  destruct (String.eqb_spec format "csv") as [->|?].
  { intros _. split; [do 2 right; left|done]. }
  destruct (String.eqb_spec format "xml") as [->|?].
  { destruct options; [|done]. intros _. split; [do 3 right; left|done]. }
  destruct (String.eqb_spec format "pdf") as [->|?].
  { destruct options; [|done]. intros _. split; [do 4 right; left|done]. }
  destruct (String.eqb_spec format "docx") as [->|?].
  { destruct options; [|done]. intros _. split; [do 5 right; left|done]. }
  done.
Qed.

Lemma render_unsupported format result filteredEntities options stats :
  format ∉ supportedFormats →
  render showNumber generateTextReport generateJSONReport generateXMLReport
    format result filteredEntities options stats
  = Err (Rejected ("Unsupported format: " ++ format)).
Proof.
  intros Hf. unfold render.
  repeat match goal with
         | |- context [(format =? ?k)%string] =>
             destruct (String.eqb_spec format k) as [->|?];
             [exfalso; apply Hf; apply (bool_decide_unpack _); by vm_compute|]
         end.
  done.
Qed.

Lemma lit_app a b : lit (a ++ b) = lit a ++ lit b.
Proof.
  unfold lit. rewrite <- fmap_app. f_equal.
  induction a as [|c a IH]; [done|]. simpl. by rewrite IH.
Qed.

End ExportFacts.

(** X25. The export function exports a sub-list of the entities, all of them
    when no options are given; the risk counts add up to the total;
    every exported entity is in a selected category and at or above the
    threshold when these are set. *)
Theorem export_filter_and_stats div100 options entities :
  let filtered := ExportResults.filterEntities div100 options entities in
  let stats := ExportResults.computeStats filtered in
  sublist filtered entities
  ∧ ExportResults.stats_high stats + ExportResults.stats_medium stats
    + ExportResults.stats_low stats = ExportResults.stats_total stats
  ∧ ExportResults.stats_total stats ≤ length entities
  ∧ (options = None → filtered = entities)
  ∧ (∀ o categories e,
       options = Some o →
       ExportResults.selectedCategories o = Some categories → categories ≠ [] →
       e ∈ filtered → categoryName (ent_category e) ∈ categories)
  ∧ (∀ o threshold e,
       options = Some o →
       ExportResults.confidenceThreshold o = Some threshold →
       ¬ (threshold == 0)%Q →
       e ∈ filtered → (div100 threshold <= ent_confidence e)%Q).
Proof.
  intros filtered stats. split_and!.
  - apply sublist_filter.
  - apply countOf_total.
  - simpl. apply sublist_length, sublist_filter.
  - intros ->. unfold filtered, ExportResults.filterEntities.
    induction entities as [|e es IH]; [done|].
    rewrite filter_cons_True by done. by rewrite IH.
  - intros o categories e -> Hcats Hne He.
    apply list_elem_of_filter in He as [He _].
    apply andb_true_iff in He as [He _].
    unfold ExportResults.categoryMatch in He. simpl in He. rewrite Hcats in He.
    destruct categories; [done|]. by apply bool_decide_eq_true in He.
  - intros o threshold e -> Hth Hne He.
    apply list_elem_of_filter in He as [He _].
    apply andb_true_iff in He as [_ He].
    unfold ExportResults.confidenceMatch in He. simpl in He. rewrite Hth in He.
    apply orb_true_iff in He as [He|He].
    + by apply Qeq_bool_iff in He.
    + by apply Qle_bool_iff in He.
Qed.

Lemma export_filter_and_stats_witness :
  ExportResults.filterEntities (λ t, t / 100)%Q None
    [ mkEntity "SSN" (lit "123-45-6789") 4 15 0.98 high ]
  = [ mkEntity "SSN" (lit "123-45-6789") 4 15 0.98 high ].
Proof.
  apply (export_filter_and_stats (λ t, t / 100)%Q None
           [ mkEntity "SSN" (lit "123-45-6789") 4 15 0.98 high ]).
  reflexivity.
Defined.

(** X26. The export function answers a preflight only to OPTIONS, an error
    only with status 400 (missing parameters) or 500 (Export failed:
    ...), and a file only for one of its six formats, named
    [<name>.<format>], with no more entities exported than found; without
    options only CSV can succeed. *)
Theorem export_responses div100 showNumber today generateTextReport
    generateJSONReport generateXMLReport req :
  match ExportResults.serve div100 showNumber today generateTextReport
          generateJSONReport generateXMLReport req with
  | ExportResults.Preflight => ExportResults.req_method req = "OPTIONS"
  | ExportResults.ErrorResponse status error =>
      (status = 400 ∧ error = lit "Missing required parameters")
      ∨ (status = 500 ∧ ∃ e, error = lit "Export failed: " ++ ExportResults.message e)
  | ExportResults.FileResponse content filename mimeType entitiesExported
      totalEntities =>
      ∃ r format result name,
        ExportResults.req_json req = Ok r
        ∧ ExportResults.exp_format r = Some format
        ∧ ExportResults.exp_result r = Some result
        ∧ format ∈ ExportResults.supportedFormats
        ∧ (ExportResults.exp_options r = None → format = "csv")
        ∧ filename = name ++ lit "." ++ lit format
        ∧ entitiesExported
          = length (ExportResults.filterEntities div100
                      (ExportResults.exp_options r)
                      (ExportResults.exp_entities result))
        ∧ totalEntities = length (ExportResults.exp_entities result)
        ∧ entitiesExported ≤ totalEntities
  end.
Proof.
  unfold ExportResults.serve.
  destruct (String.eqb_spec (ExportResults.req_method req) "OPTIONS"); [done|].
  destruct (ExportResults.req_json req) as [r|e] eqn:Hjson; simpl;
    [|right; eauto].
  unfold ExportResults.export.
  destruct (ExportResults.exp_format r) as [format|] eqn:Hformat; [|by left].
  destruct (ExportResults.exp_result r) as [result|] eqn:Hresult; [|by left].
  destruct (ExportResults.exp_userId r) as [userId|] eqn:Huser; [|by left].
  destruct (bool_decide (format = EmptyString) || bool_decide (userId = []));
    [by left|].
  destruct (ExportResults.render _ _ _ _ _ _ _ _ _) as [[content mimeType]|e]
    eqn:Hrender; simpl; [|right; eauto].
  apply render_supported in Hrender as [Hsup Hcsv].
  exists r, format, result. eexists.
  split_and!; try done.
  apply sublist_length, sublist_filter.
Qed.

Lemma export_responses_witness :
  ExportResults.req_method
    {| ExportResults.req_method := "OPTIONS";
       ExportResults.req_json := Err (Rejected "no body") |} = "OPTIONS".
Proof.
  exact (export_responses (λ t, t / 100)%Q (λ _, []) [] (λ _ _ _ _, [])
           (λ _ _ _ _, []) (λ _ _ _ _, [])
           {| ExportResults.req_method := "OPTIONS";
              ExportResults.req_json := Err (Rejected "no body") |}).
Defined.

(** X27. With format, result and user id present: an unsupported format is
    answered with status 500 and the message naming the format; absent
    options make the text, JSON, XML, PDF and DOCX writers fail with
    status 500; CSV always succeeds. *)
Theorem export_failures div100 showNumber today generateTextReport
    generateJSONReport generateXMLReport method r format result userId :
  method ≠ "OPTIONS" →
  ExportResults.exp_format r = Some format → format ≠ EmptyString →
  ExportResults.exp_result r = Some result →
  ExportResults.exp_userId r = Some userId → userId ≠ [] →
  let response :=
    ExportResults.serve div100 showNumber today generateTextReport
      generateJSONReport generateXMLReport
      {| ExportResults.req_method := method; ExportResults.req_json := Ok r |} in
  (format ∉ ExportResults.supportedFormats →
   response
   = ExportResults.ErrorResponse 500
       (lit "Export failed: " ++ lit "Unsupported format: " ++ lit format))
  ∧ (ExportResults.exp_options r = None →
     format ∈ ["txt"; "json"; "xml"; "pdf"; "docx"] →
     ∃ msg, response
            = ExportResults.ErrorResponse 500 (lit "Export failed: " ++ lit msg))
  ∧ (format = "csv" →
     response
     = ExportResults.FileResponse
         (ExportResults.generateCSVReport showNumber
            (ExportResults.filterEntities div100 (ExportResults.exp_options r)
               (ExportResults.exp_entities result)))
         (ExportResults.filenameOf today (ExportResults.exp_options r) result
          ++ lit ".csv")
         "text/csv"
         (length (ExportResults.filterEntities div100
                    (ExportResults.exp_options r)
                    (ExportResults.exp_entities result)))
         (length (ExportResults.exp_entities result))).
Proof.
  intros Hm Hformat Hne Hresult Huser Hu response.
  assert (Hserve : response
            = match
                '(content, mimeType) ←
                  ExportResults.render showNumber generateTextReport
                    generateJSONReport generateXMLReport format result
                    (ExportResults.filterEntities div100
                       (ExportResults.exp_options r)
                       (ExportResults.exp_entities result))
                    (ExportResults.exp_options r)
                    (ExportResults.computeStats
                       (ExportResults.filterEntities div100
                          (ExportResults.exp_options r)
                          (ExportResults.exp_entities result)));
                Ok (ExportResults.FileResponse content
                      (ExportResults.filenameOf today
                         (ExportResults.exp_options r) result
                       ++ lit "." ++ lit format)
                      mimeType
                      (length (ExportResults.filterEntities div100
                                 (ExportResults.exp_options r)
                                 (ExportResults.exp_entities result)))
                      (length (ExportResults.exp_entities result)))
              with
              | Ok resp => resp
              | Err e => ExportResults.ErrorResponse 500
                           (lit "Export failed: " ++ ExportResults.message e)
              end).
  { unfold response, ExportResults.serve. simpl.
    destruct (String.eqb_spec method "OPTIONS"); [done|].
    unfold ExportResults.export. rewrite Hformat, Hresult, Huser.
    by rewrite !bool_decide_eq_false_2 by done. }
  split_and!.
  - intros Hf. rewrite Hserve, render_unsupported by done. simpl.
    by rewrite lit_app.
  - intros Hopt Hf. rewrite Hserve, Hopt. unfold ExportResults.render.
    repeat (apply elem_of_cons in Hf as [->|Hf]);
      [..|by apply elem_of_nil in Hf]; simpl; eauto.
  - intros ->. by rewrite Hserve.
Qed.

Lemma export_failures_witness :
  ExportResults.serve (λ t, t / 100)%Q (λ _, []) (lit "2024-05-01")
    (λ _ _ _ _, []) (λ _ _ _ _, []) (λ _ _ _ _, [])
    {| ExportResults.req_method := "POST";
       ExportResults.req_json :=
         Ok {| ExportResults.exp_format := Some "rtf";
               ExportResults.exp_options := None;
               ExportResults.exp_result :=
                 Some (ExportResults.mkResult (lit "hello") [] (lit "hello"));
               ExportResults.exp_userId := Some (lit "u1") |} |}
  = ExportResults.ErrorResponse 500
      (lit "Export failed: " ++ lit "Unsupported format: " ++ lit "rtf").
Proof.
  apply (export_failures (λ t, t / 100)%Q (λ _, []) (lit "2024-05-01")
           (λ _ _ _ _, []) (λ _ _ _ _, []) (λ _ _ _ _, []) "POST"
           {| ExportResults.exp_format := Some "rtf";
              ExportResults.exp_options := None;
              ExportResults.exp_result :=
                Some (ExportResults.mkResult (lit "hello") [] (lit "hello"));
              ExportResults.exp_userId := Some (lit "u1") |}
           "rtf" (ExportResults.mkResult (lit "hello") [] (lit "hello"))
           (lit "u1"));
    try reflexivity; try discriminate.
  apply (bool_decide_unpack _). by vm_compute.
Defined.


(** X28. Partial Visibility leaves short values readable: a value of at most
    two units of a type without a rule of its own is returned in full,
    twice, around the stars, and a one-word PERSON or FULL_NAME is
    returned in full followed by a space. *)
Theorem partial_visibility_discloses entity :
  (ent_type entity
     ∉ ["EMAIL_ADDRESS"; "PHONE_NUMBER"; "PERSON"; "FULL_NAME"; "ADDRESS"] →
   length (ent_text entity) ≤ 2 →
   ProcessPii.applyPartialVisibility entity
   = ent_text entity ++ lit "***" ++ ent_text entity)
  ∧ (ent_type entity ∈ ["PERSON"; "FULL_NAME"] →
     32%Z ∉ ent_text entity →
     ProcessPii.applyPartialVisibility entity = ent_text entity ++ lit " ").
Proof.
  destruct entity as [type text start end_ confidence category].
  cbn [ent_type ent_text]. unfold ProcessPii.applyPartialVisibility.
  cbn [ent_type ent_text]. split.
  - intros Htype Hlen.
    repeat match goal with
           | |- context [(type =? ?k)%string] =>
               destruct (String.eqb_spec type k) as [->|?];
               [exfalso; apply Htype; apply (bool_decide_unpack _); by vm_compute|]
           end.
    cbn [orb]. unfold sliceTo, sliceLast.
    rewrite take_ge by lia.
    by replace (length text - 2) with 0 by lia.
  - intros Htype Hspace.
    assert ((let names := splitOn 32 text in
             default [] (names !! 0) ++ lit " "
             ++ join (lit " ")
                  ((λ n, charAtOrUndefined n 0 ++ lit "***") <$> drop 1 names))
            = text ++ lit " ") as Hbody.
    { cbv zeta. rewrite splitOn_no_sep by done. reflexivity. }
    repeat (apply elem_of_cons in Htype as [->|Htype]);
      [..|by apply elem_of_nil in Htype]; exact Hbody.
Qed.

Lemma partial_visibility_discloses_witness :
  ProcessPii.applyPartialVisibility
    (mkEntity "US_STATE" (lit "NY") 10 12 0.5 low)
  = lit "NY" ++ lit "***" ++ lit "NY"
  ∧ ProcessPii.applyPartialVisibility
      (mkEntity "PERSON" (lit "Madonna") 0 7 0.85 medium)
    = lit "Madonna" ++ lit " ".
Proof.
  split.
  - apply (proj1 (partial_visibility_discloses
                    (mkEntity "US_STATE" (lit "NY") 10 12 0.5 low))).
    + apply (bool_decide_unpack _). by vm_compute.
    + simpl. lia.
  - apply (proj2 (partial_visibility_discloses
                    (mkEntity "PERSON" (lit "Madonna") 0 7 0.85 medium))).
    + left.
    + apply (bool_decide_unpack _). by vm_compute.
Defined.

Section DashboardResult.
Import Ner Dashboard.

Lemma registry_confidences :
  Forall (λ kc, (0 <= kc.2)%Q ∧ (kc.2 <= 1)%Q) enhancedPIIPatterns.
Proof. repeat constructor; by vm_compute. Qed.

End DashboardResult.

(** X29. When the text is not blank and the recognizer answers,
    [handleTextSubmit] completes; its result carries the submitted text
    and method, the redaction of its entities, entities whose category is
    the one of their confidence and whose confidence lies in [0,1], and,
    for every pattern-based entity, a pattern-based entity with the same
    span. *)
Theorem handleTextSubmit_entities execAll ner output rnd selectedMethod text :
  trim text ≠ [] → ner text = Ok output →
  ∃ result,
    Dashboard.handleTextSubmit execAll (Ok ner) rnd selectedMethod text
    = Dashboard.ProcessingComplete result
    ∧ Dashboard.originalText result = text
    ∧ Dashboard.method result = selectedMethod
    ∧ Dashboard.redactedText result
      = Dashboard.redact rnd selectedMethod text (Dashboard.entities result)
    ∧ Forall (λ e, ent_category e = categoryOf (ent_confidence e)
                   ∧ (0 <= ent_confidence e)%Q ∧ (ent_confidence e <= 1)%Q)
             (Dashboard.entities result)
    ∧ (∀ e, e ∈ detectEnhancedPII execAll text →
            ∃ e', e' ∈ Dashboard.entities result
                  ∧ Dashboard.spanKey e' = Dashboard.spanKey e
                  ∧ e' ∈ detectEnhancedPII execAll text).
Proof.
  intros Hne Hcall.
  destruct (getPersonEntities_Ok ner output text Hne Hcall)
    as (persons & Hner & Hrange & _ & _ & _).
  rewrite handleTextSubmit_nonblank by done. rewrite Hner.
  eexists. split; [done|]. cbn [Dashboard.originalText Dashboard.method
                                 Dashboard.redactedText Dashboard.entities].
  split_and!; [done..| |].
  - apply Forall_forall. intros e He.
    apply elem_of_mergeEntities in He as (i & Hi & _).
    apply list_elem_of_lookup_2, elem_of_app in Hi as [Hi|Hi].
    + apply elem_of_detectEnhancedPII in Hi
        as (type & confidence & index & m0 & Hreg & _ & He).
      apply entityOfMatch_Some in He as (-> & _). simpl.
      split; [done|].
      exact (proj1 (Forall_forall _ _) registry_confidences _ Hreg).
    + apply list_elem_of_fmap in Hi as (p & -> & Hp). simpl.
      split; [done|]. exact (proj1 (Forall_forall _ _) Hrange p Hp).
  - intros e He.
    destruct (firstWithSpan_exists (detectEnhancedPII execAll text) e He)
      as (e' & Hfirst & Hspan).
    exists e'.
    destruct (firstWithSpan_app_l _ (Dashboard.nerNameEntity <$> persons) _ Hfirst)
      as [Hfirst' Hin].
    split_and!; [|done..]. by apply elem_of_mergeEntities.
Qed.

Lemma handleTextSubmit_entities_witness :
  ∃ result,
    Dashboard.handleTextSubmit (Samples.scanOf [("email", (5, lit "a@b.co"))])
      (Ok (λ _, Ok [Ner.mkNerOutput (lit "PER") (Some 1.7%Q) (lit "Ann Lee") 15 22]))
      Samples.countingRnd "Masking" (lit "Mail a@b.co to Ann Lee")
    = Dashboard.ProcessingComplete result
    ∧ Dashboard.originalText result = lit "Mail a@b.co to Ann Lee"
    ∧ Forall (λ e, ent_category e = categoryOf (ent_confidence e)
                   ∧ (0 <= ent_confidence e)%Q ∧ (ent_confidence e <= 1)%Q)
             (Dashboard.entities result).
Proof.
  destruct (handleTextSubmit_entities
              (Samples.scanOf [("email", (5, lit "a@b.co"))])
              (λ _, Ok [Ner.mkNerOutput (lit "PER") (Some 1.7%Q) (lit "Ann Lee") 15 22])
              [Ner.mkNerOutput (lit "PER") (Some 1.7%Q) (lit "Ann Lee") 15 22]
              Samples.countingRnd "Masking" (lit "Mail a@b.co to Ann Lee"))
    as (result & H1 & H2 & _ & _ & H3 & _); [by vm_compute | reflexivity |].
  exists result. by split_and!.
Defined.

Section UploadFacts.
Import Upload.

Lemma handleFileUpload_extracted {File} (extract : File → result OCRResult)
    handleTextSubmit file files r :
  extract file = Ok r → trim (ocr_text r) ≠ [] →
  handleFileUpload extract handleTextSubmit (file :: files)
  = OcrComplete (handleTextSubmit (ocr_text r)).
Proof.
  intros Hex Hne. unfold handleFileUpload. rewrite Hex.
  rewrite (bool_decide_eq_false_2 (trim (ocr_text r) = [])) by done.
  rewrite bool_decide_eq_false_2; [done|]. intros Hnil. by rewrite Hnil in Hne.
Qed.

End UploadFacts.

(** X30. [extractTextWithOCR] rejects with one message only, whatever
    failed; a PDF with a non-blank text layer is never sent to character
    recognition, one with a blank text layer is, and twice when the first
    recognition fails; a file of any other type than PDF, DOCX and plain
    text is recognised as an image.  [handleFileUpload] reports
    [OCR Complete] once non-blank text was extracted, also when the
    processing of that text failed. *)
Theorem file_upload_outcomes :
  (∀ pdfTextLayer pdfPageOcr docxRawText fileText imageOcr fileType e,
     Upload.extractTextWithOCR pdfTextLayer pdfPageOcr docxRawText fileText
       imageOcr fileType = Err e →
     e = Rejected "Failed to extract text from document")
  ∧ (∀ pdfTextLayer pdfPageOcr docxRawText fileText imageOcr fullText,
       pdfTextLayer = Ok fullText → trim fullText ≠ [] →
       Upload.extractTextWithOCR pdfTextLayer pdfPageOcr docxRawText fileText
         imageOcr "application/pdf"
       = Ok (Upload.mkOCR (trim fullText) 0.95 Upload.textExtraction))
  ∧ (∀ pdfTextLayer pdfPageOcr fullText e,
       pdfTextLayer = Ok fullText → trim fullText = [] →
       pdfPageOcr 0 = Err e →
       Upload.extractFromPDF pdfTextLayer pdfPageOcr
       = Upload.extractFromPDFWithOCR pdfPageOcr 1)
  ∧ (∀ pdfTextLayer pdfPageOcr e,
       pdfTextLayer = Err e →
       Upload.extractFromPDF pdfTextLayer pdfPageOcr
       = Upload.extractFromPDFWithOCR pdfPageOcr 0)
  ∧ (∀ pdfTextLayer pdfPageOcr docxRawText fileText imageOcr fileType,
       fileType
         ∉ ["application/pdf";
            "application/vnd.openxmlformats-officedocument.wordprocessingml.document";
            "text/plain"] →
       Upload.extractTextWithOCR pdfTextLayer pdfPageOcr docxRawText fileText
         imageOcr fileType
       = match imageOcr with
         | Ok (text, confidence) => Ok (Upload.mkOCR text confidence Upload.ocr)
         | Err _ => Err (Rejected "Failed to extract text from document")
         end)
  ∧ (∀ (File : Type) (extract : File → result Upload.OCRResult) execAll
       loadPipeline rnd selectedMethod file files r,
       extract file = Ok r → trim (Upload.ocr_text r) ≠ [] →
       Upload.handleFileUpload extract
         (Dashboard.handleTextSubmit execAll loadPipeline rnd selectedMethod)
         (file :: files)
       = Upload.OcrComplete
           (Dashboard.handleTextSubmit execAll loadPipeline rnd selectedMethod
              (Upload.ocr_text r))
       ∧ ∀ e, loadPipeline = Err e →
              Upload.handleFileUpload extract
                (Dashboard.handleTextSubmit execAll loadPipeline rnd
                   selectedMethod)
                (file :: files)
              = Upload.OcrComplete Dashboard.ProcessingFailed).
Proof.
  split_and!.
  - intros pdfTextLayer pdfPageOcr docxRawText fileText imageOcr fileType e.
    unfold Upload.extractTextWithOCR.
    by destruct (if (fileType =? "application/pdf")%string then _ else _);
      [|intros [= <-]].
  - intros pdfTextLayer pdfPageOcr docxRawText fileText imageOcr fullText -> Hne.
    unfold Upload.extractTextWithOCR, Upload.extractFromPDF.
    change (("application/pdf" =? "application/pdf")%string) with true.
    cbv iota. by rewrite bool_decide_eq_false_2.
  - intros pdfTextLayer pdfPageOcr fullText e -> Hblank Hocr.
    unfold Upload.extractFromPDF. rewrite bool_decide_eq_true_2 by done.
    cbn [negb]. unfold Upload.extractFromPDFWithOCR at 1. by rewrite Hocr.
  - by intros pdfTextLayer pdfPageOcr e ->.
  - intros pdfTextLayer pdfPageOcr docxRawText fileText imageOcr fileType Htype.
    unfold Upload.extractTextWithOCR.
    repeat match goal with
           | |- context [(fileType =? ?k)%string] =>
               destruct (String.eqb_spec fileType k) as [->|?];
               [exfalso; apply Htype; apply (bool_decide_unpack _); by vm_compute|]
           end.
    unfold Upload.extractFromImage.
    destruct (String.prefix "image/" fileType); by destruct imageOcr as [[? ?]|].
  - intros File extract execAll loadPipeline rnd selectedMethod file files r
      Hex Hne.
    split; [by apply handleFileUpload_extracted|].
    intros e ->. rewrite (handleFileUpload_extracted _ _ _ _ r) by done.
    rewrite handleTextSubmit_nonblank by done.
    by rewrite getPersonEntities_nonblank.
Qed.

Lemma file_upload_outcomes_witness :
  Upload.extractTextWithOCR (Ok (lit " Ann Lee ")) (λ _, Err (Rejected "no worker"))
    (Err (Rejected "not a document")) (Err (Rejected "unreadable"))
    (Err (Rejected "no worker")) "application/pdf"
  = Ok (Upload.mkOCR (trim (lit " Ann Lee ")) 0.95 Upload.textExtraction).
Proof.
  apply (proj1 (proj2 file_upload_outcomes)
           (Ok (lit " Ann Lee ")) (λ _, Err (Rejected "no worker"))
           (Err (Rejected "not a document")) (Err (Rejected "unreadable"))
           (Err (Rejected "no worker")) (lit " Ann Lee ")).
  - reflexivity.
  - by vm_compute.
Defined.
